(** * The introducer client of Tahoe-LAFS: announcement codec and client state

    A shallow embedding of [allmydata/introducer/common.py] and
    [allmydata/introducer/client.py].  Python values are an inductive
    type, exceptions are the [Raise] branch of [result], and the methods
    of [IntroducerClient] are computations of a state-and-exception
    monad over a record that holds the attributes of the object.  The
    modules the code imports but does not define ([simplejson],
    [allmydata.util.base32], [allmydata.util.ecdsa], the hash order of
    Python's [dict] and [set], [time.time]) are interfaces, given as
    type classes. *)

From Stdlib Require Import Ascii String.
From stdpp Require Import gmap strings list fin_maps pretty sorting.

Set Warnings "-register-all".
Open Scope Z_scope.

(** ** Python values *)

(** The values that travel through the introducer: what [simplejson]
    reads and writes, plus tuples (kept as [PyList], which is how they
    come back from the wire).  A [PyStr] holds the bytes of a [str], or
    the UTF-8 bytes of a [unicode] object.  JSON booleans and floats do
    not occur in announcements and are left out, so that [==] on these
    values is equality. *)
Inductive pyval :=
| PyNone
| PyInt (z : Z)
| PyStr (s : string)
| PyList (l : list pyval)
| PyDict (d : gmap string pyval).

Fixpoint pyval_eq_dec (x y : pyval) {struct x} : Decision (x = y).
Proof.
  refine (match x, y with
          | PyNone, PyNone => left eq_refl
          | PyInt a, PyInt b => cast_if (decide (a = b))
          | PyStr a, PyStr b => cast_if (decide (a = b))
          | PyList a, PyList b => cast_if (@list_eq_dec _ pyval_eq_dec a b)
          | PyDict a, PyDict b => cast_if (@gmap_eq_dec _ _ _ _ pyval_eq_dec a b)
          | _, _ => right _
          end); congruence.
Defined.

#[global] Instance pyval_eqdec : EqDecision pyval := pyval_eq_dec.

(** The exceptions the two modules raise or let through. *)
Inductive exn :=
| BadSignatureError
| UnknownKeyError
| InsufficientVersionError
| Violation
| NameError
| ValueError
| TypeError
| KeyError
| AttributeError
| AssertionError
| UnicodeDecodeError
| UnicodeEncodeError.

#[global] Instance exn_eqdec : EqDecision exn.
Proof. solve_decision. Defined.

Inductive result (A : Type) :=
| Ok (a : A)
| Raise (e : exn).
Arguments Ok {A} a.
Arguments Raise {A} e.

#[global] Instance result_ret : MRet result := λ A a, Ok a.
#[global] Instance result_bind : MBind result := λ A B k r,
  match r with
  | Ok a => k a
  | Raise e => Raise e
  end.

#[global] Instance result_fmap : FMap result := λ A B f r,
  match r with
  | Ok a => Ok (f a)
  | Raise e => Raise e
  end.

Definition py_assert (b : bool) : result unit :=
  if b then Ok tt else Raise AssertionError.

(** ** Strings *)

Module pystr.

Definition is_ascii_char (c : ascii) : bool :=
  (N_of_ascii c <? 128)%N.

Fixpoint is_ascii (s : string) : bool :=
  match s with
  | EmptyString => true
  | String c s' => is_ascii_char c && is_ascii s'
  end.

(** [\w] of Python 2's [re] on a [str], without flags. *)
Definition is_word_char (c : ascii) : bool :=
  let n := N_of_ascii c in
  ((48 <=? n) && (n <=? 57) || (65 <=? n) && (n <=? 90)
   || (97 <=? n) && (n <=? 122) || (n =? 95))%N.

Definition lower_char (c : ascii) : ascii :=
  let n := N_of_ascii c in
  if ((65 <=? n) && (n <=? 90))%N then ascii_of_N (n + 32) else c.

(** [s.lower()] *)
Fixpoint lower (s : string) : string :=
  match s with
  | EmptyString => EmptyString
  | String c s' => String (lower_char c) (lower s')
  end.

(** [s.startswith(p)] *)
Definition startswith (s p : string) : bool := String.prefix p s.

(** [s[n:]] *)
Fixpoint drop (n : nat) (s : string) : string :=
  match n, s with
  | O, _ => s
  | S n', String _ s' => drop n' s'
  | S _, EmptyString => EmptyString
  end.

(** The longest run of word characters at the head of [s], and the rest. *)
Fixpoint span_word (s : string) : string * string :=
  match s with
  | String c s' =>
      if is_word_char c
      then let '(w, r) := span_word s' in (String c w, r)
      else (EmptyString, s)
  | EmptyString => (EmptyString, EmptyString)
  end.

(** Well-formed UTF-8, as the [utf-8] codec of Python 2.7 accepts it:
    shortest form only, nothing above U+10FFFF; surrogates pass. *)
Definition is_cont (c : ascii) : bool :=
  let n := N_of_ascii c in ((128 <=? n) && (n <=? 191))%N.

Definition in_range (lo hi : N) (c : ascii) : bool :=
  let n := N_of_ascii c in ((lo <=? n) && (n <=? hi))%N.

Fixpoint utf8_valid_fuel (fuel : nat) (s : string) : bool :=
  match fuel with
  | O => false
  | S fuel' =>
      match s with
      | EmptyString => true
      | String c0 s1 =>
          if is_ascii_char c0 then utf8_valid_fuel fuel' s1
          else if in_range 194 223 c0 then
            match s1 with
            | String c1 s2 => is_cont c1 && utf8_valid_fuel fuel' s2
            | _ => false
            end
          else if in_range 224 239 c0 then
            match s1 with
            | String c1 (String c2 s3) =>
                (if in_range 224 224 c0 then in_range 160 191 c1 else is_cont c1)
                && is_cont c2 && utf8_valid_fuel fuel' s3
            | _ => false
            end
          else if in_range 240 244 c0 then
            match s1 with
            | String c1 (String c2 (String c3 s4)) =>
                (if in_range 240 240 c0 then in_range 144 191 c1
                 else if in_range 244 244 c0 then in_range 128 143 c1
                 else is_cont c1)
                && is_cont c2 && is_cont c3 && utf8_valid_fuel fuel' s4
            | _ => false
            end
          else false
      end
  end.

Definition utf8_valid (s : string) : bool :=
  utf8_valid_fuel (S (String.length s)) s.

(** [s.decode("utf-8")] on a [str]: the text, kept as its UTF-8 bytes. *)
Definition decode_utf8 (s : string) : result string :=
  if utf8_valid s then Ok s else Raise UnicodeDecodeError.

(** [s.encode("utf-8")] on a [str] of Python 2: the implicit ASCII
    decoding comes first and refuses any byte above 127. *)
Definition str_encode_utf8 (s : string) : result string :=
  if is_ascii s then Ok s else Raise UnicodeDecodeError.

End pystr.

(** ** The interpreter and the imported modules *)

(** What the code takes from the interpreter without fixing it: the
    position a key takes in a hash table, which decides the order in
    which a [dict] or a [set] is iterated; [repr] of a container; and
    the readings of [time.time]. *)
Class PyRuntime := {
  str_slot : string → Z;
  pair_slot : string * string → Z;
  repr : pyval → string;
  time_time : nat → Z;
}.

(** [simplejson]: [dumps] and [loads]. *)
Class SimpleJson := {
  dumps : pyval → result string;
  loads : string → result pyval;
}.

(** [allmydata.util.base32] *)
Class Base32 := {
  b2a : string → string;
  a2b : string → result string;
}.

(** [allmydata.util.ecdsa]: [verify] returns, or raises
    [BadSignatureError] when the signature does not match. A signature
    is taken as a function of the key and the message. *)
Class Ecdsa := {
  SigningKey : Type;
  VerifyingKey : Type;
  get_verifying_key : SigningKey → VerifyingKey;
  sk_sign : SigningKey → string → string;
  vk_to_string : VerifyingKey → string;
  vk_from_string : string → result VerifyingKey;
  vk_verify : VerifyingKey → string → string → result unit;
}.

(** Keys are met in the order of their slots. *)
Definition by_slot {K} (slot : K → Z) : relation K :=
  λ a b, slot a ≤ slot b.

#[global] Instance by_slot_dec {K} (slot : K → Z) : RelDecision (by_slot slot).
Proof. intros a b. unfold by_slot. apply _. Defined.

(** ** Operations of the interpreter on values *)

Module py.
Section py.
Context {RT : PyRuntime}.

(** Iteration over a [set] of strings and over the items of a [dict]:
    in the order of the slots. Keys that share a slot come here in an
    order that the keys alone decide; CPython puts the later one where
    its probing finds room, so that their order there follows the
    insertions. *)
Definition iter_set (s : gset string) : list string :=
  merge_sort (by_slot str_slot) (elements s).

Definition iter_dict {V} (d : gmap string V) : list (string * V) :=
  merge_sort (by_slot (λ kv, str_slot kv.1)) (map_to_list d).

Definition iter_table {V} (d : gmap (string * string) V)
  : list ((string * string) * V) :=
  merge_sort (by_slot (λ kv, pair_slot kv.1)) (map_to_list d).

(** Truth value of an object, as [if x:] and [x and y] test it. *)
Definition truthy (v : pyval) : bool :=
  match v with
  | PyNone => false
  | PyInt z => negb (z =? 0)
  | PyStr s => negb (String.eqb s "")
  | PyList l => match l with [] => false | _ => true end
  | PyDict d => negb (bool_decide (d = ∅))
  end.

(** [str(x)]. The text that [simplejson] hands back is [unicode] as
    soon as it is not plain ASCII, and [str] refuses it then. *)
Definition str (v : pyval) : result string :=
  match v with
  | PyNone => Ok "None"%string
  | PyInt z => Ok (pretty z)
  | PyStr s => if pystr.is_ascii s then Ok s else Raise UnicodeEncodeError
  | PyList _ | PyDict _ => Ok (repr v)
  end.

(** [d[k]] with a string key. *)
Definition getitem (v : pyval) (k : string) : result pyval :=
  match v with
  | PyDict d => match d !! k with Some x => Ok x | None => Raise KeyError end
  | _ => Raise TypeError
  end.

(** [d.get(k, default)] *)
Definition get (v : pyval) (k : string) (default : pyval) : result pyval :=
  match v with
  | PyDict d => Ok (from_option id default (d !! k))
  | _ => Raise AttributeError
  end.

(** [x.encode("utf-8")] on a value that came out of [simplejson.loads]:
    text encodes to its UTF-8 bytes, anything else has no such method. *)
Definition encode_utf8 (v : pyval) : result string :=
  match v with
  | PyStr s => Ok s
  | _ => Raise AttributeError
  end.

(** [x.decode("utf-8")] *)
Definition decode_utf8 (v : pyval) : result string :=
  match v with
  | PyStr s => pystr.decode_utf8 s
  | _ => Raise AttributeError
  end.

(** [x.startswith(p)] *)
Definition startswith (v : pyval) (p : string) : result bool :=
  match v with
  | PyStr s => Ok (pystr.startswith s p)
  | _ => Raise AttributeError
  end.

(** A value that must be a string for the callee to take it. *)
Definition as_str (v : pyval) : result string :=
  match v with
  | PyStr s => Ok s
  | _ => Raise TypeError
  end.

Fixpoint chars (s : string) : list pyval :=
  match s with
  | EmptyString => []
  | String c s' => PyStr (String c EmptyString) :: chars s'
  end.

(** What iterating over a value yields. *)
Definition iter (v : pyval) : result (list pyval) :=
  match v with
  | PyList l => Ok l
  | PyStr s => Ok (chars s)
  | PyDict d => Ok (PyStr <$> (iter_dict d).*1)
  | _ => Raise TypeError
  end.

(** [(a, b, c) = x] *)
Definition unpack3 (v : pyval) : result (pyval * pyval * pyval) :=
  l ← iter v;
  match l with
  | [a; b; c] => Ok (a, b, c)
  | _ => Raise ValueError
  end.

End py.
End py.

(** ** [allmydata/introducer/common.py] *)

Module common.
Section common.
Context {RT : PyRuntime} {JS : SimpleJson} {B32 : Base32} {EC : Ecdsa}.

(** [re.match(r'pb://(\w+)@', furl)] and its group 1: the prefix, then
    the longest run of word characters, which must not be empty and
    must end at an [@]. *)
Definition re_match_tubid (furl : string) : option string :=
  if pystr.startswith furl "pb://" then
    let '(w, rest) := pystr.span_word (pystr.drop 5 furl) in
    match w, rest with
    | String _ _, String "@" _ => Some w
    | _, _ => None
    end
  else None.

Definition get_tubid_string (furl : string) : result string :=
  match re_match_tubid furl with
  | Some g1 => Ok (pystr.lower g1)
  | None => Raise AssertionError
  end.

Definition get_tubid_string_from_ann_d (ann_d : pyval) : result string :=
  v ← py.getitem ann_d "FURL";
  furl ← py.str v;
  get_tubid_string furl.

(** [key_s] is [None] or a string; [if key_s:] takes the empty string
    with [None]. *)
Definition make_index (ann_d : pyval) (key_s : option string)
  : result (string * string) :=
  v ← py.getitem ann_d "service-name";
  service_name ← py.str v;
  match key_s with
  | Some k =>
      if negb (String.eqb k "") then Ok (service_name, k)
      else tubid ← get_tubid_string_from_ann_d ann_d;
           Ok (service_name, tubid)
  | None =>
      tubid ← get_tubid_string_from_ann_d ann_d;
      Ok (service_name, tubid)
  end.

(** A legacy announcement: (furl, service_name, ri_name, nickname, ver,
    oldest), six [str]; the assertions on the types hold by typing. *)
Definition ann_v1 : Type :=
  string * string * string * string * string * string.

Definition v1_ann_d (furl service_name ri_name nickname ver oldest : string)
  : pyval :=
  PyDict (<["version" := PyInt 0]>
          (<["service-name" := PyStr service_name]>
          (<["FURL" := PyStr furl]>
          (<["remoteinterface-name" := PyStr ri_name]>
          (<["nickname" := PyStr nickname]>
          (<["app-versions" := PyDict ∅]>
          (<["my-version" := PyStr ver]>
          (<["oldest-supported" := PyStr oldest]> ∅)))))))).

Definition convert_announcement_v1_to_v2 (ann_t : ann_v1) : result string :=
  let '(furl, service_name, ri_name, nickname, ver, oldest) := ann_t in
  nick ← pystr.decode_utf8 nickname;
  let ann_d := v1_ann_d furl service_name ri_name nick ver oldest in
  msg ← dumps ann_d;
  dumps (PyList [PyStr msg; PyNone; PyNone]).

Definition convert_announcement_v2_to_v1 (ann_v2 : string) : result ann_v1 :=
  t ← loads ann_v2;
  '(msg, sig, pubkey) ← py.unpack3 t;
  msg_s ← py.as_str msg;
  ann_d ← loads msg_s;
  version ← py.getitem ann_d "version";
  _ ← py_assert (bool_decide (version = PyInt 0));
  furl ← py.getitem ann_d "FURL" ≫= py.str;
  service_name ← py.getitem ann_d "service-name" ≫= py.str;
  ri_name ← py.getitem ann_d "remoteinterface-name" ≫= py.str;
  nickname ← py.getitem ann_d "nickname" ≫= py.encode_utf8;
  ver ← py.getitem ann_d "my-version" ≫= py.str;
  oldest ← py.getitem ann_d "oldest-supported" ≫= py.str;
  Ok (furl, service_name, ri_name, nickname, ver, oldest).

(** [sign]: the message, and with a key the signature and the
    verifying key, each behind the version prefix. *)
Definition sign (ann_d : pyval) (sk : option SigningKey) : result pyval :=
  s ← dumps ann_d;
  msg ← pystr.str_encode_utf8 s;
  match sk with
  | None => Ok (PyList [PyStr msg; PyNone; PyNone])
  | Some sk =>
      let vk := get_verifying_key sk in
      let sig := sk_sign sk msg in
      Ok (PyList [PyStr msg;
                  PyStr ("v0-" +:+ b2a sig);
                  PyStr ("v0-" +:+ b2a (vk_to_string vk))])
  end.

(** The signed branch of [unsign]: both version prefixes, then the
    verification; the result is [key_s]. *)
Definition check_signature (msg_s sig_vs key_vs : pyval) : result string :=
  sig_ok ← py.startswith sig_vs "v0-";
  if negb sig_ok then Raise UnknownKeyError else
  key_ok ← py.startswith key_vs "v0-";
  if negb key_ok then Raise UnknownKeyError else
  key_s ← pystr.drop 3 <$> py.as_str key_vs;
  key ← a2b key_s ≫= vk_from_string;
  sig ← (pystr.drop 3 <$> py.as_str sig_vs) ≫= a2b;
  msg ← py.as_str msg_s;
  _ ← vk_verify key sig msg;
  Ok key_s.

Definition unsign (ann_t : pyval) : result (pyval * option string) :=
  '(msg_s, sig_vs, key_vs) ← py.unpack3 ann_t;
  key_s ← (if py.truthy sig_vs && py.truthy key_vs
           then Some <$> check_signature msg_s sig_vs key_vs
           else Ok None);
  text ← py.decode_utf8 msg_s;
  msg ← loads text;
  Ok (msg, key_s).

End common.
End common.

(** ** [allmydata/introducer/client.py] *)

Module client.

(** The keys of [_debug_counts]. *)
Inductive counter :=
| inbound_message
| inbound_announcement
| wrong_service
| duplicate_announcement
| update
| new_announcement
| outbound_message.

#[global] Instance counter_eqdec : EqDecision counter.
Proof. solve_decision. Defined.

(** A local subscriber's callable, by name. *)
Definition callback : Type := nat.

(** [eventually(cb, *args, **kwargs)]: a call put on the reactor's
    queue for a later turn. *)
Record call := Call {
  call_cb : callback;
  call_args : list pyval;
  call_kwargs : list (string * pyval);
}.

#[global] Instance call_eqdec : EqDecision call.
Proof. solve_decision. Defined.

(** The remote reference to the introducer, with the versions it
    advertises. *)
Record publisher := Publisher {
  version : gset string;
}.

(** What [__init__] is given and never changes. The last two are what
    [self._tub.registerReference] answers for the stub client of a v1
    introducer and what foolscap gives as [RIStubClient.__remote_name__]. *)
Record init_args := Init_args {
  _nickname : string;
  _my_version : string;
  _oldest_supported : string;
  _app_versions : gmap string pyval;
  registerReference_stub : string;
  RIStubClient_remote_name : string;
}.

(** [(servicename, cb, args, kwargs)] *)
Definition subscriber : Type :=
  string * callback * list pyval * list (string * pyval).

(** [(ann_d, key, rxtime)] *)
Definition entry : Type := pyval * option string * Z.

(** The attributes of an [IntroducerClient]. *)
Record IntroducerClient := Build_client {
  init : init_args;
  _stub_client_furl : option string;
  _published_announcements : gmap string string;
  _publisher : option publisher;
  _local_subscribers : list subscriber;
  _subscribed_service_names : gset string;
  _subscriptions : gset string;
  _current_announcements : gmap (string * string) entry;
  encoding_parameters : pyval;
  _debug_counts : counter → Z;
  _debug_outstanding : Z;
  _introducer_error : option exn;
}.

(** Messages to the introducer: [callRemote(name, ...)]. *)
Inductive remote_call :=
| Remote_subscribe_v2 (service_name : string) (subscriber_info : pyval)
| Remote_subscribe (service_name : string)
| Remote_publish_v2 (ann : string)
| Remote_publish (ann_v1 : common.ann_v1).

(** The messages of [self.log], by their place in the code, with the
    values they format. *)
Inductive log_msg :=
| Log_received_v1 (n : nat)
| Log_received_v2 (n : nat)
| Log_connect_failed
| Log_connected
| Log_got_version (v : gset string)
| Log_disconnected
| Log_no_introducer_subscribe
| Log_no_introducer_publish
| Log_fallback_publish_v1 (f : exn)
| Log_bad_signature (ann_s : pyval)
| Log_wrong_service (service_name : string)
| Log_announcement (nick_s service_name : string) (ann_d : pyval)
| Log_reannouncement (service_name nodeid_s : string)
| Log_replacing (ann_d : pyval)
| Log_new (service_name : string).

(** What the client has done to the rest of the process: the log, the
    reactor's queue of [eventually] calls, the messages sent, and how
    many times the clock was read. Each list grows at its end. *)
Record world := Build_world {
  log_out : list log_msg;
  eventual_queue : list call;
  remote_calls : list remote_call;
  clock : nat;
}.

Definition state : Type := IntroducerClient * world.

(** Assignment to one attribute. *)
Definition set_stub_client_furl (v : option string) (c : IntroducerClient)
  : IntroducerClient :=
  Build_client (init c) v (_published_announcements c) (_publisher c)
    (_local_subscribers c) (_subscribed_service_names c) (_subscriptions c)
    (_current_announcements c) (encoding_parameters c) (_debug_counts c)
    (_debug_outstanding c) (_introducer_error c).

Definition set_published_announcements (v : gmap string string) (c : IntroducerClient)
  : IntroducerClient :=
  Build_client (init c) (_stub_client_furl c) v (_publisher c)
    (_local_subscribers c) (_subscribed_service_names c) (_subscriptions c)
    (_current_announcements c) (encoding_parameters c) (_debug_counts c)
    (_debug_outstanding c) (_introducer_error c).

Definition set_publisher (v : option publisher) (c : IntroducerClient)
  : IntroducerClient :=
  Build_client (init c) (_stub_client_furl c) (_published_announcements c)
    v (_local_subscribers c) (_subscribed_service_names c)
    (_subscriptions c) (_current_announcements c) (encoding_parameters c)
    (_debug_counts c) (_debug_outstanding c) (_introducer_error c).

Definition set_local_subscribers (v : list subscriber) (c : IntroducerClient)
  : IntroducerClient :=
  Build_client (init c) (_stub_client_furl c) (_published_announcements c)
    (_publisher c) v (_subscribed_service_names c) (_subscriptions c)
    (_current_announcements c) (encoding_parameters c) (_debug_counts c)
    (_debug_outstanding c) (_introducer_error c).

Definition set_subscribed_service_names (v : gset string) (c : IntroducerClient)
  : IntroducerClient :=
  Build_client (init c) (_stub_client_furl c) (_published_announcements c)
    (_publisher c) (_local_subscribers c) v (_subscriptions c)
    (_current_announcements c) (encoding_parameters c) (_debug_counts c)
    (_debug_outstanding c) (_introducer_error c).

Definition set_subscriptions (v : gset string) (c : IntroducerClient)
  : IntroducerClient :=
  Build_client (init c) (_stub_client_furl c) (_published_announcements c)
    (_publisher c) (_local_subscribers c) (_subscribed_service_names c) v
    (_current_announcements c) (encoding_parameters c) (_debug_counts c)
    (_debug_outstanding c) (_introducer_error c).

Definition set_current_announcements (v : gmap (string * string) entry) (c : IntroducerClient)
  : IntroducerClient :=
  Build_client (init c) (_stub_client_furl c) (_published_announcements c)
    (_publisher c) (_local_subscribers c) (_subscribed_service_names c)
    (_subscriptions c) v (encoding_parameters c) (_debug_counts c)
    (_debug_outstanding c) (_introducer_error c).

Definition set_encoding_parameters (v : pyval) (c : IntroducerClient)
  : IntroducerClient :=
  Build_client (init c) (_stub_client_furl c) (_published_announcements c)
    (_publisher c) (_local_subscribers c) (_subscribed_service_names c)
    (_subscriptions c) (_current_announcements c) v (_debug_counts c)
    (_debug_outstanding c) (_introducer_error c).

Definition set_debug_counts (v : counter → Z) (c : IntroducerClient)
  : IntroducerClient :=
  Build_client (init c) (_stub_client_furl c) (_published_announcements c)
    (_publisher c) (_local_subscribers c) (_subscribed_service_names c)
    (_subscriptions c) (_current_announcements c) (encoding_parameters c) v
    (_debug_outstanding c) (_introducer_error c).

Definition set_debug_outstanding (v : Z) (c : IntroducerClient)
  : IntroducerClient :=
  Build_client (init c) (_stub_client_furl c) (_published_announcements c)
    (_publisher c) (_local_subscribers c) (_subscribed_service_names c)
    (_subscriptions c) (_current_announcements c) (encoding_parameters c)
    (_debug_counts c) v (_introducer_error c).

Definition set_introducer_error (v : option exn) (c : IntroducerClient)
  : IntroducerClient :=
  Build_client (init c) (_stub_client_furl c) (_published_announcements c)
    (_publisher c) (_local_subscribers c) (_subscribed_service_names c)
    (_subscriptions c) (_current_announcements c) (encoding_parameters c)
    (_debug_counts c) (_debug_outstanding c) v.

Definition set_log_out (v : list log_msg) (c : world)
  : world :=
  Build_world v (eventual_queue c) (remote_calls c) (clock c).

Definition set_eventual_queue (v : list call) (c : world)
  : world :=
  Build_world (log_out c) v (remote_calls c) (clock c).

Definition set_remote_calls (v : list remote_call) (c : world)
  : world :=
  Build_world (log_out c) (eventual_queue c) v (clock c).

Definition set_clock (v : nat) (c : world)
  : world :=
  Build_world (log_out c) (eventual_queue c) (remote_calls c) v.

(** *** The monad of the methods

    A method reads and writes the attributes, acts on the world, and
    may raise.  What was written before an exception stays written. *)
Definition M (A : Type) : Type := state → state * result A.

#[global] Instance M_ret : MRet M := λ A a st, (st, Ok a).

#[global] Instance M_bind : MBind M := λ A B k m st,
  match m st with
  | (st', Ok a) => k a st'
  | (st', Raise e) => (st', Raise e)
  end.

Definition raise {A} (e : exn) : M A := λ st, (st, Raise e).

(** A computation of [common], run from inside a method. *)
Definition lift {A} (r : result A) : M A := λ st, (st, r).

Definition get_self : M IntroducerClient := λ st, (st, Ok st.1).

Definition modify_self (f : IntroducerClient → IntroducerClient) : M unit :=
  λ st, ((f st.1, st.2), Ok tt).

Definition modify_world (f : world → world) : M unit :=
  λ st, ((st.1, f st.2), Ok tt).

(** [for x in l: body] *)
Fixpoint for_each {A} (l : list A) (body : A → M unit) : M unit :=
  match l with
  | [] => mret tt
  | x :: l' => body x ≫= λ _, for_each l' body
  end.

(** The final state of a computation and what it returned or raised. *)
Definition exec {A} (m : M A) (st : state) : state := (m st).1.
Definition outcome {A} (m : M A) (st : state) : result A := (m st).2.

(** *** The world *)

Definition log (m : log_msg) : M unit :=
  modify_world (λ w, set_log_out (log_out w ++ [m]) w).

Definition eventually (cb : callback) (args : list pyval)
    (kwargs : list (string * pyval)) : M unit :=
  modify_world (λ w, set_eventual_queue (eventual_queue w ++ [Call cb args kwargs]) w).

(** [self._publisher.callRemote(...)]: without a publisher the
    attribute is looked up on [None]. *)
Definition callRemote (r : remote_call) : M unit :=
  self ← get_self;
  match _publisher self with
  | Some _ => modify_world (λ w, set_remote_calls (remote_calls w ++ [r]) w)
  | None => raise AttributeError
  end.

(** [self._debug_counts[k] += 1] *)
Definition count (k : counter) : M unit :=
  modify_self (λ c, set_debug_counts
    (λ k', if decide (k' = k) then _debug_counts c k' + 1 else _debug_counts c k') c).

(** [self._debug_outstanding += n] *)
Definition outstanding (n : Z) : M unit :=
  modify_self (λ c, set_debug_outstanding (_debug_outstanding c + n) c).

(** What a [ClientAdapter_v1] asks of the [original] it wraps: its [log]
    and its [got_announcements], which is handed a set, in the order in
    which it will go through it. *)
Record original := Original {
  original_log : log_msg → M unit;
  original_got_announcements : list pyval → M unit;
}.

Section methods.
Context {RT : PyRuntime} {JS : SimpleJson} {B32 : Base32} {EC : Ecdsa}.

(** [time.time()] *)
Definition now : M Z := λ st,
  ((st.1, set_clock (S (clock st.2)) st.2), Ok (time_time (clock st.2))).

(** [f.trap(Violation, NameError)]: any other failure is raised again. *)
Definition trap (f : exn) : M unit :=
  match f with
  | Violation | NameError => mret tt
  | _ => raise f
  end.

(** [self._my_subscriber_info] *)
Definition _my_subscriber_info (c : IntroducerClient) : pyval :=
  PyDict (<["version" := PyInt 0]>
          (<["nickname" := PyStr (_nickname (init c))]>
          (<["app-versions" := PyDict (_app_versions (init c))]>
          (<["my-version" := PyStr (_my_version (init c))]>
          (<["oldest-supported" := PyStr (_oldest_supported (init c))]> ∅))))).

Definition _debug_retired : M unit := outstanding (-1).

Definition startService : M unit :=
  modify_self (set_introducer_error None).

(** The errback of [startService]. *)
Definition connect_failed : M unit := log Log_connect_failed.

Definition _got_introducer : M unit := log Log_connected.

Definition _got_error (f : exn) : M unit :=
  modify_self (set_introducer_error (Some f)).

Definition _disconnected : M unit :=
  log Log_disconnected;;
  modify_self (set_publisher None);;
  modify_self (set_subscriptions ∅).

Definition _maybe_subscribe : M unit :=
  self ← get_self;
  match _publisher self with
  | None => log Log_no_introducer_subscribe
  | Some _ =>
      for_each (py.iter_set (_subscribed_service_names self)) (λ service_name,
        self ← get_self;
        if decide (service_name ∈ _subscriptions self) then mret tt
        else
          modify_self (λ c, set_subscriptions ({[service_name]} ∪ _subscriptions c) c);;
          outstanding 1;;
          callRemote (Remote_subscribe_v2 service_name (_my_subscriber_info self)))
  end.

Definition subscribe_to (service_name : string) (cb : callback)
    (args : list pyval) (kwargs : list (string * pyval)) : M unit :=
  modify_self (λ c, set_local_subscribers
    (_local_subscribers c ++ [(service_name, cb, args, kwargs)]) c);;
  modify_self (λ c, set_subscribed_service_names
    ({[service_name]} ∪ _subscribed_service_names c) c);;
  _maybe_subscribe;;
  self ← get_self;
  for_each (py.iter_table (_current_announcements self))
    (λ '((servicename, nodeid), (ann_d, key, when)),
       if decide (servicename = service_name)
       then eventually cb [PyStr nodeid; ann_d] []
       else mret tt).

Definition create_announcement (c : IntroducerClient) (furl : pyval)
    (service_name remoteinterface_name : string)
    (signing_key : option SigningKey) : result string :=
  let ann_d :=
    PyDict (<["version" := PyInt 0]>
            (<["service-name" := PyStr service_name]>
            (<["FURL" := furl]>
            (<["remoteinterface-name" := PyStr remoteinterface_name]>
            (<["nickname" := PyStr (_nickname (init c))]>
            (<["app-versions" := PyDict (_app_versions (init c))]>
            (<["my-version" := PyStr (_my_version (init c))]>
            (<["oldest-supported" := PyStr (_oldest_supported (init c))]> ∅)))))))) in
  common.sign ann_d signing_key ≫= dumps.

Definition _maybe_publish : M unit :=
  self ← get_self;
  match _publisher self with
  | None => log Log_no_introducer_publish
  | Some _ =>
      for_each (py.iter_dict (_published_announcements self)).*2 (λ ann,
        count outbound_message;;
        outstanding 1;;
        callRemote (Remote_publish_v2 ann))
  end.

Definition publish (furl : pyval) (service_name remoteinterface_name : string)
    (signing_key : option SigningKey) : M unit :=
  self ← get_self;
  ann ← lift (create_announcement self furl service_name
                remoteinterface_name signing_key);
  modify_self (λ c, set_published_announcements
    (<[service_name := ann]> (_published_announcements c)) c);;
  _maybe_publish.

Definition _handle_v1_publisher (f : exn) (ann : string) : M unit :=
  trap f;;
  log (Log_fallback_publish_v1 f);;
  ann_v1 ← lift (common.convert_announcement_v2_to_v1 ann);
  outstanding 1;;
  callRemote (Remote_publish ann_v1).

(** The fallback to a v1 introducer. The stub client is published by
    [_publish_stub_client] once the [subscribe] call has returned. *)
Definition _subscribe_handle_v1 (f : exn) (service_name : string) : M unit :=
  trap f;;
  outstanding 1;;
  callRemote (Remote_subscribe service_name);;
  self ← get_self;
  if py.truthy (from_option PyStr PyNone (_stub_client_furl self)) then mret tt
  else modify_self (set_stub_client_furl (Some (registerReference_stub (init self)))).

Definition _publish_stub_client : M unit :=
  self ← get_self;
  publish (from_option PyStr PyNone (_stub_client_furl self)) "stub_client"
    (RIStubClient_remote_name (init self)) None.

Definition _got_versioned_introducer (p : publisher) : M unit :=
  log (Log_got_version (version p));;
  let needed := "http://allmydata.org/tahoe/protocols/introducer/v1"%string in
  if decide (needed ∈ version p) then
    modify_self (set_publisher (Some p));;
    _maybe_publish;;
    _maybe_subscribe
  else raise InsufficientVersionError.

(** The deferred that [_got_introducer] leaves, once the versions of the
    introducer have been asked for: [_got_versioned_introducer] is its
    callback and [_got_error] its errback, which takes the failure of
    the query and the exception of the callback alike. *)
Definition _got_introducer_deferred (answer : result publisher) : M unit :=
  λ st,
    match (lift answer ≫= _got_versioned_introducer) st with
    | (st', Raise f) => _got_error f st'
    | returned => returned
    end.

(** [if "nickname" in ann_d and isinstance(ann_d["nickname"], str):
    ann_d["nickname"] = unicode(ann_d["nickname"])]. Only plain ASCII
    text comes out of [simplejson] as a [str], and it is then put back
    as the same text. *)
Definition nickname_to_unicode (ann_d : pyval) : pyval :=
  match ann_d with
  | PyDict d =>
      match d !! "nickname" with
      | Some (PyStr s) =>
          if pystr.is_ascii s then PyDict (<["nickname" := PyStr s]> d) else ann_d
      | _ => ann_d
      end
  | _ => ann_d
  end.

(** [self._current_announcements.get(index, [None]*3)[0]] *)
Definition stored_ann_d (c : IntroducerClient) (index : string * string) : pyval :=
  match _current_announcements c !! index with
  | Some (ann_d, _, _) => ann_d
  | None => PyNone
  end.

Definition _process_announcement (ann_d : pyval) (key : option string) : M unit :=
  count inbound_announcement;;
  service_name ← lift (py.getitem ann_d "service-name" ≫= py.str);
  self ← get_self;
  if decide (service_name ∉ _subscribed_service_names self) then
    log (Log_wrong_service service_name);;
    count wrong_service
  else
    let ann_d := nickname_to_unicode ann_d in
    nick_s ← lift (py.get ann_d "nickname" (PyStr "") ≫= py.encode_utf8);
    log (Log_announcement nick_s service_name ann_d);;
    index ← lift (common.make_index ann_d key);
    let nodeid := index.2 in
    let nodeid_s := b2a nodeid in
    self ← get_self;
    if decide (stored_ann_d self index = ann_d) then
      log (Log_reannouncement service_name nodeid_s);;
      count duplicate_announcement
    else
      (if decide (is_Some (_current_announcements self !! index)) then
         count update;;
         log (Log_replacing ann_d)
       else
         count new_announcement;;
         log (Log_new service_name));;
      when ← now;
      modify_self (λ c, set_current_announcements
        (<[index := (ann_d, key, when)]> (_current_announcements c)) c);;
      for_each (_local_subscribers self)
        (λ '(service_name2, cb, args, kwargs),
           if decide (service_name2 = service_name)
           then eventually cb ([PyStr nodeid; ann_d] ++ args) kwargs
           else mret tt).

(** The common entry point for v1 and v2 announcements. *)
Definition got_announcements (announcements : list pyval) : M unit :=
  count inbound_message;;
  for_each announcements (λ ann_s,
    match common.unsign ann_s with
    | Raise BadSignatureError => log (Log_bad_signature ann_s)
    | Raise e => raise e
    | Ok (ann_d, key) => _process_announcement ann_d key
    end).

Definition remote_announce_v2 (announcements : list pyval) : M unit :=
  log (Log_received_v2 (length announcements));;
  got_announcements announcements.

Definition remote_set_encoding_parameters (parameters : pyval) : M unit :=
  modify_self (set_encoding_parameters parameters).

Definition connected_to_introducer (c : IntroducerClient) : bool :=
  bool_decide (is_Some (_publisher c)).

(** [[f(x) for x in l]]: the first exception ends it. *)
Fixpoint comprehension {A B} (f : A → result B) (l : list A) : result (list B) :=
  match l with
  | [] => Ok []
  | x :: l' => y ← f x; ys ← comprehension f l'; Ok (y :: ys)
  end.

(** [ClientAdapter_v1.remote_announce], for the [original] that the
    adapter was made with. *)
Definition ClientAdapter_v1_remote_announce (o : original)
    (announcements : list common.ann_v1) : M unit :=
  original_log o (Log_received_v1 (length announcements));;
  anns ← lift (comprehension common.convert_announcement_v1_to_v2 announcements);
  let anns_v1 : gset string := list_to_set anns in
  original_got_announcements o (PyStr <$> py.iter_set anns_v1).

(** The adapter of [_subscribe_handle_v1], [ClientAdapter_v1(self)]. *)
Definition remote_announce (announcements : list common.ann_v1) : M unit :=
  ClientAdapter_v1_remote_announce
    {| original_log := log; original_got_announcements := got_announcements |}
    announcements.

(** ** The object and the reactor *)

(** [IntroducerClient.__init__] *)
Definition __init__ (args : init_args) : IntroducerClient :=
  {| init := args;
     _stub_client_furl := None;
     _published_announcements := ∅;
     _publisher := None;
     _local_subscribers := [];
     _subscribed_service_names := ∅;
     _subscriptions := ∅;
     _current_announcements := ∅;
     encoding_parameters := PyNone;
     _debug_counts := λ _, 0;
     _debug_outstanding := 0;
     _introducer_error := None |}.

Definition quiet : world :=
  {| log_out := []; eventual_queue := []; remote_calls := []; clock := O |}.

(** What the rest of the process and the reactor can ask of the client:
    the calls of the application, the messages of the introducer, the
    end of the connection, and the callbacks that the methods leave on
    their deferreds. *)
Inductive op :=
| Op_startService
| Op_connect_failed
| Op_got_introducer
| Op_got_versioned_introducer (p : publisher)
| Op_got_error (f : exn)
| Op_disconnected
| Op_subscribe_to (service_name : string) (cb : callback)
    (args : list pyval) (kwargs : list (string * pyval))
| Op_publish (furl : pyval) (service_name remoteinterface_name : string)
    (signing_key : option SigningKey)
| Op_debug_retired
| Op_subscribe_handle_v1 (f : exn) (service_name : string)
| Op_publish_stub_client
| Op_handle_v1_publisher (f : exn) (ann : string)
| Op_remote_announce_v2 (announcements : list pyval)
| Op_remote_announce (announcements : list common.ann_v1)
| Op_remote_set_encoding_parameters (parameters : pyval).

Definition run (o : op) : M unit :=
  match o with
  | Op_startService => startService
  | Op_connect_failed => connect_failed
  | Op_got_introducer => _got_introducer
  | Op_got_versioned_introducer p => _got_versioned_introducer p
  | Op_got_error f => _got_error f
  | Op_disconnected => _disconnected
  | Op_subscribe_to service_name cb args kwargs =>
      subscribe_to service_name cb args kwargs
  | Op_publish furl service_name remoteinterface_name signing_key =>
      publish furl service_name remoteinterface_name signing_key
  | Op_debug_retired => _debug_retired
  | Op_subscribe_handle_v1 f service_name => _subscribe_handle_v1 f service_name
  | Op_publish_stub_client => _publish_stub_client
  | Op_handle_v1_publisher f ann => _handle_v1_publisher f ann
  | Op_remote_announce_v2 announcements => remote_announce_v2 announcements
  | Op_remote_announce announcements => remote_announce announcements
  | Op_remote_set_encoding_parameters parameters =>
      remote_set_encoding_parameters parameters
  end.

(** A run of the process: each call runs to its end or to its
    exception, which the reactor logs and drops; the state it left
    stays. *)
Definition run_all (ops : list op) (st : state) : state :=
  foldl (λ st o, exec (run o) st) st ops.


End methods.
End client.

(** ** A reference implementation of the interfaces

    Stand-ins for the imported modules, on which the definitions above
    can be run: a serialisation of values that reads back what it wrote,
    hexadecimal in place of base32, and a signature that is the key and
    the message side by side. The order of the hash tables is that of
    CPython 2.7. *)

Module reference.

Definition hex_digit (n : N) : ascii :=
  if (n <? 10)%N then ascii_of_N (48 + n) else ascii_of_N (87 + n).

Definition hex_value (c : ascii) : option N :=
  let n := N_of_ascii c in
  if ((48 <=? n) && (n <=? 57))%N then Some (n - 48)%N
  else if ((97 <=? n) && (n <=? 102))%N then Some (n - 87)%N
  else None.

Fixpoint hex (s : string) : string :=
  match s with
  | EmptyString => EmptyString
  | String c s' =>
      let n := N_of_ascii c in
      String (hex_digit (n / 16)) (String (hex_digit (n mod 16)) (hex s'))
  end.

Fixpoint unhex (s : string) : option string :=
  match s with
  | EmptyString => Some EmptyString
  | String a (String b s') =>
      h ← hex_value a; l ← hex_value b; r ← unhex s';
      Some (String (ascii_of_N (16 * h + l)) r)
  | _ => None
  end.

(** The text up to the first [;], and what follows it. *)
Fixpoint until_semicolon (s : string) : option (string * string) :=
  match s with
  | EmptyString => None
  | String ";" r => Some (EmptyString, r)
  | String c r => '(w, r') ← until_semicolon r; Some (String c w, r')
  end.

Fixpoint digits (s : string) (acc : Z) : option Z :=
  match s with
  | EmptyString => Some acc
  | String c r =>
      let n := N_of_ascii c in
      if ((48 <=? n) && (n <=? 57))%N then digits r (10 * acc + Z.of_N (n - 48))
      else None
  end.

Definition read_int (s : string) : option Z :=
  match s with
  | String "-" r => Z.opp <$> digits r 0
  | _ => digits s 0
  end.

(** Writing: [n] for [None], [i<decimal>;], [s<hex>;], [[items]] and
    [{key value ...}] with the keys written as strings. *)
Fixpoint write (v : pyval) : string :=
  match v with
  | PyNone => "n"
  | PyInt z => "i" +:+ pretty z +:+ ";"
  | PyStr s => "s" +:+ hex s +:+ ";"
  | PyList l => "[" +:+ foldr (λ x r, write x +:+ r) "]" l
  | PyDict d =>
      "{" +:+ map_fold (λ k x r, "s" +:+ hex k +:+ ";" +:+ write x +:+ r) "}" d
  end%string.

Definition read_str (s : string) : option (string * string) :=
  match s with
  | String "s" r => '(h, r') ← until_semicolon r; x ← unhex h; Some (x, r')
  | _ => None
  end.

Fixpoint read_many {A} (item : string → option (A * string)) (close : ascii)
    (fuel : nat) (s : string) : option (list A * string) :=
  match fuel, s with
  | S fuel', String c r =>
      if decide (c = close) then Some ([], r)
      else '(x, r') ← item s;
           '(xs, r'') ← read_many item close fuel' r';
           Some (x :: xs, r'')
  | _, _ => None
  end.

Fixpoint read (fuel : nat) (s : string) : option (pyval * string) :=
  match fuel, s with
  | S fuel', String "n" r => Some (PyNone, r)
  | S fuel', String "i" r =>
      '(d, r') ← until_semicolon r; z ← read_int d; Some (PyInt z, r')
  | S fuel', String "s" _ => '(x, r') ← read_str s; Some (PyStr x, r')
  | S fuel', String "[" r =>
      '(l, r') ← read_many (read fuel') "]" (S (String.length r)) r;
      Some (PyList l, r')
  | S fuel', String "{" r =>
      '(l, r') ← read_many
         (λ s, '(k, s1) ← read_str s; '(x, s2) ← read fuel' s1; Some ((k, x), s2))
         "}" (S (String.length r)) r;
      Some (PyDict (list_to_map l), r')
  | _, _ => None
  end.

#[export] Instance json : SimpleJson := {|
  dumps v := Ok (write v);
  loads s :=
    match read (S (String.length s)) s with
    | Some (v, EmptyString) => Ok v
    | _ => Raise ValueError
    end;
|}.

#[export] Instance base32 : Base32 := {|
  b2a := hex;
  a2b s := from_option Ok (Raise AssertionError) (unhex s);
|}.

(** The verifying key of [sk] is [sk] behind a tag; a signature by
    [sk] on [msg] is [sk|msg]. *)
#[export] Instance ecdsa : Ecdsa := {|
  SigningKey := string;
  VerifyingKey := string;
  get_verifying_key sk := sk;
  sk_sign sk msg := (sk +:+ "|" +:+ msg)%string;
  vk_to_string vk := ("vk:" +:+ vk)%string;
  vk_from_string s :=
    if pystr.startswith s "vk:" then Ok (pystr.drop 3 s)
    else Raise AssertionError;
  vk_verify vk sig msg :=
    if decide (sig = vk +:+ "|" +:+ msg)%string then Ok tt
    else Raise BadSignatureError;
|}.

(** The hash of a [str] and of a tuple as CPython 2.7 computes them on
    a 64-bit machine, hash randomisation off: [string_hash] and
    [tuplehash], in arithmetic modulo 2^64. *)
Definition w64 (z : Z) : Z := z mod 2 ^ 64.

Definition not_minus_one (x : Z) : Z :=
  if x =? 2 ^ 64 - 1 then 2 ^ 64 - 2 else x.

Fixpoint string_hash_loop (s : string) (x : Z) : Z :=
  match s with
  | EmptyString => x
  | String c s' =>
      string_hash_loop s' (Z.lxor (w64 (1000003 * x)) (Z.of_N (N_of_ascii c)))
  end.

Definition string_hash (s : string) : Z :=
  match s with
  | EmptyString => 0
  | String c _ =>
      not_minus_one
        (Z.lxor (string_hash_loop s (Z.shiftl (Z.of_N (N_of_ascii c)) 7))
                (Z.of_nat (String.length s)))
  end.

Fixpoint tuplehash_loop (ys : list Z) (x mult : Z) : Z :=
  match ys with
  | [] => x
  | y :: ys' =>
      let len := Z.of_nat (length ys') in
      tuplehash_loop ys' (w64 (Z.lxor x y * mult)) (w64 (mult + 82520 + len + len))
  end.

Definition tuplehash (ys : list Z) : Z :=
  not_minus_one (w64 (tuplehash_loop ys 3430008 1000003 + 97531)).

(** A key goes to the slot that the low bits of its hash name, here in
    a table of eight slots, which is what a [dict] or a [set] of up to
    five keys has; keys in different slots are met in the order of
    their slots. *)
#[export] Instance runtime : PyRuntime := {|
  str_slot s := Z.land (string_hash s) 7;
  pair_slot p := Z.land (tuplehash [string_hash p.1; string_hash p.2]) 7;
  repr _ := "<container>"%string;
  time_time n := 1000 + Z.of_nat n;
|}.

End reference.

(** * Properties *)

Arguments py.getitem : simpl never.

(** ** Strings and the interpreter *)

Module pystr_facts.
Import pystr.

Definition word (s : string) : Prop :=
  Forall (λ c, is_word_char c = true) (list_ascii_of_string s).

Lemma span_word_app w rest :
  word w →
  match rest with String c _ => is_word_char c = false | EmptyString => True end →
  span_word (w +:+ rest) = (w, rest).
Proof.
  unfold word. induction w as [|c w IH]; simpl; intros Hw Hrest.
  - destruct rest as [|c r]; [done|]. simpl. by rewrite Hrest.
  - inversion Hw as [|? ? Hc Hw']; subst. rewrite Hc, IH; done.
Qed.

Lemma span_word_inv s w rest :
  span_word s = (w, rest) →
  s = w +:+ rest ∧ word w
  ∧ match rest with String c _ => is_word_char c = false | EmptyString => True end.
Proof.
  unfold word. revert w rest. induction s as [|c s IH]; simpl; intros w rest Hs.
  - inversion Hs; subst. repeat split; constructor.
  - destruct (is_word_char c) eqn:Hc.
    + destruct (span_word s) as [w' r'] eqn:Hsp. inversion Hs; subst.
      destruct (IH _ _ eq_refl) as (-> & Hw & Hr).
      repeat split; [by constructor | done].
    + inversion Hs; subst. repeat split; [constructor | done].
Qed.

Lemma startswith_inv s p : startswith s p = true → ∃ r, s = p +:+ r.
Proof.
  unfold startswith. revert s. induction p as [|c p IH]; intros s H.
  - by exists s.
  - destruct s as [|c' s]; simpl in H; [done|].
    destruct (Ascii.ascii_dec c c') as [->|]; [|done].
    destruct (IH _ H) as [r ->]. by exists r.
Qed.

Lemma startswith_app p r : startswith (p +:+ r) p = true.
Proof.
  unfold startswith. induction p as [|c p IH]; simpl.
  - by destruct r.
  - destruct (Ascii.ascii_dec c c); done.
Qed.

Lemma startswith_nil s : startswith s "" = true.
Proof. by destruct s. Qed.

Lemma drop_app p r : drop (String.length p) (p +:+ r) = r.
Proof. induction p; simpl; done. Qed.

Lemma is_ascii_utf8_valid_fuel s n :
  (String.length s < n)%nat → is_ascii s = true → utf8_valid_fuel n s = true.
Proof.
  revert s. induction n as [|n IH]; intros s Hn Hs; [lia|].
  destruct s as [|c s]; simpl in *; [done|].
  apply andb_true_iff in Hs as [Hc Hs]. rewrite Hc. apply IH; [lia|done].
Qed.

Lemma is_ascii_utf8_valid s : is_ascii s = true → utf8_valid s = true.
Proof. intros. apply is_ascii_utf8_valid_fuel; [lia|done]. Qed.

(** [lower] and the word characters. *)
Lemma lower_char_idemp c : lower_char (lower_char c) = lower_char c.
Proof. by destruct c as [[] [] [] [] [] [] [] []]. Qed.

Lemma is_word_char_lower c : is_word_char (lower_char c) = is_word_char c.
Proof. by destruct c as [[] [] [] [] [] [] [] []]. Qed.

Lemma lower_idemp s : lower (lower s) = lower s.
Proof. induction s as [|c s IH]; simpl; [done|]. by rewrite lower_char_idemp, IH. Qed.

Lemma word_lower s : word (lower s) ↔ word s.
Proof.
  unfold word. induction s as [|c s IH]; simpl; [done|].
  rewrite !Forall_cons, is_word_char_lower, IH. done.
Qed.

Lemma lower_nil s : lower s = EmptyString ↔ s = EmptyString.
Proof. by destruct s. Qed.

End pystr_facts.

(** ** The codec *)

Module common_spec.
Section common_spec.
Context {RT : PyRuntime} {JS : SimpleJson} {B32 : Base32} {EC : Ecdsa}.
Import pystr_facts.

(** The locators that [get_tubid_string] takes: [pb://], a run of word
    characters that is not empty, an [@], and anything after it. *)
Definition locator (furl tubid : string) : Prop :=
  ∃ rest, furl = ("pb://" +:+ tubid +:+ "@" +:+ rest)%string
          ∧ word tubid ∧ tubid ≠ EmptyString.

Lemma re_match_tubid_locator furl tubid :
  common.re_match_tubid furl = Some tubid ↔ locator furl tubid.
Proof.
  unfold common.re_match_tubid, locator. split.
  - destruct (pystr.startswith furl "pb://") eqn:Hp; [|done].
    apply startswith_inv in Hp as [r ->].
    change (pystr.drop 5 ("pb://" +:+ r)) with r.
    destruct (pystr.span_word r) as [w rest] eqn:Hsp.
    apply span_word_inv in Hsp as (-> & Hw & _).
    destruct w as [|c w]; [done|].
    destruct rest as [|a rest]; [done|].
    destruct (decide (a = "@"%char)) as [->|Hne].
    + intros [= <-]. by exists rest.
    + intros Hm. exfalso.
      destruct a as [[] [] [] [] [] [] [] []]; congruence.
  - intros (rest & -> & Hw & Hne).
    change (pystr.startswith _ "pb://") with
      (pystr.startswith ("pb://" +:+ (tubid +:+ "@" +:+ rest)) "pb://").
    rewrite startswith_app.
    change (pystr.drop 5 _) with (tubid +:+ String "@" rest).
    rewrite span_word_app; [|done|done].
    by destruct tubid.
Qed.

Lemma re_match_tubid_None furl :
  common.re_match_tubid furl = None ↔ ∀ tubid, ¬ locator furl tubid.
Proof.
  split.
  - intros Hn tubid Hl. apply re_match_tubid_locator in Hl. congruence.
  - intros Hn. destruct (common.re_match_tubid furl) as [t|] eqn:Hm; [|done].
    apply re_match_tubid_locator in Hm. by destruct (Hn t).
Qed.

(** *** [make_index] *)

Lemma v1_ann_d_fields furl service_name ri_name nickname ver oldest :
  let ann_d := common.v1_ann_d furl service_name ri_name nickname ver oldest in
  py.getitem ann_d "version" = Ok (PyInt 0)
  ∧ py.getitem ann_d "FURL" = Ok (PyStr furl)
  ∧ py.getitem ann_d "service-name" = Ok (PyStr service_name)
  ∧ py.getitem ann_d "remoteinterface-name" = Ok (PyStr ri_name)
  ∧ py.getitem ann_d "nickname" = Ok (PyStr nickname)
  ∧ py.getitem ann_d "my-version" = Ok (PyStr ver)
  ∧ py.getitem ann_d "oldest-supported" = Ok (PyStr oldest).
Proof. repeat split; reflexivity. Qed.

Lemma make_index_unsigned ann_d furl service_name :
  py.getitem ann_d "service-name" ≫= py.str = Ok service_name →
  py.getitem ann_d "FURL" ≫= py.str = Ok furl →
  common.make_index ann_d None
  = tubid ← common.get_tubid_string furl; Ok (service_name, tubid).
Proof.
  unfold common.make_index, common.get_tubid_string_from_ann_d.
  destruct (py.getitem ann_d "service-name") as [v|e]; simpl; [|done].
  intros ->. simpl.
  destruct (py.getitem ann_d "FURL") as [v'|e]; simpl; [|done].
  by intros ->.
Qed.

(** C5 (as amended). The index of a record is (service-name, identity
    token) when a token that is not empty comes with it. Without one
    it is (service-name, tubid), the tubid being the word between
    [pb://] and [@] in the locator, in lower case, and the call fails
    on an assertion when the locator is not of that form. So a record
    that came in a legacy tuple and an unsigned record with the same
    service name and locator that came in the v2 form have the same
    index. *)
Theorem make_index_spec (ann_d : pyval) (service_name : string) :
  py.getitem ann_d "service-name" ≫= py.str = Ok service_name →
  (∀ k, k ≠ EmptyString →
     common.make_index ann_d (Some k) = Ok (service_name, k))
  ∧ (∀ furl, py.getitem ann_d "FURL" ≫= py.str = Ok furl →
       (∀ tubid, locator furl tubid →
          common.make_index ann_d None = Ok (service_name, pystr.lower tubid))
       ∧ ((∀ tubid, ¬ locator furl tubid) →
          common.make_index ann_d None = Raise AssertionError)
       ∧ (pystr.is_ascii service_name = true → pystr.is_ascii furl = true →
          ∀ ri_name nickname ver oldest,
            common.make_index
              (common.v1_ann_d furl service_name ri_name nickname ver oldest) None
            = common.make_index ann_d None)).
Proof.
  intros Hsn. split.
  - intros k Hk. unfold common.make_index.
    destruct (py.getitem ann_d "service-name") as [v|e]; simpl in *; [|done].
    rewrite Hsn. simpl.
    destruct (String.eqb_spec k ""); [done|]. done.
  - intros furl Hfurl.
    rewrite (make_index_unsigned _ _ _ Hsn Hfurl).
    unfold common.get_tubid_string. split_and!.
    + intros tubid Hl. apply re_match_tubid_locator in Hl. by rewrite Hl.
    + intros Hn. apply re_match_tubid_None in Hn. by rewrite Hn.
    + intros Hs Hf ri_name nickname ver oldest.
      destruct (v1_ann_d_fields furl service_name ri_name nickname ver oldest)
        as (_ & Hfurl' & Hsn' & _).
      apply make_index_unsigned.
      * rewrite Hsn'. simpl. by rewrite Hs.
      * rewrite Hfurl'. simpl. by rewrite Hf.
Qed.


(** *** [unsign] *)

(** What a successful check has established. *)
Lemma check_signature_Ok msg_s sig_vs key_vs key_s :
  common.check_signature msg_s sig_vs key_vs = Ok key_s →
  ∃ sig_s msg key sig,
    sig_vs = PyStr ("v0-" +:+ sig_s) ∧ key_vs = PyStr ("v0-" +:+ key_s)
    ∧ msg_s = PyStr msg
    ∧ a2b key_s ≫= vk_from_string = Ok key ∧ a2b sig_s = Ok sig
    ∧ vk_verify key sig msg = Ok tt.
Proof.
  unfold common.check_signature.
  destruct sig_vs as [| |s| |]; simpl; try done.
  destruct (pystr.startswith s "v0-") eqn:Hs; simpl; [|done].
  apply startswith_inv in Hs as [sig_s ->].
  destruct key_vs as [| |k| |]; simpl; try done.
  destruct (pystr.startswith k "v0-") eqn:Hk; simpl; [|done].
  apply startswith_inv in Hk as [k' ->]. simpl.
  change ("" +:+ k')%string with k'. change ("" +:+ sig_s)%string with sig_s.
  destruct (a2b k') as [kb|] eqn:Hkb; simpl; [|done].
  destruct (vk_from_string kb) as [key|] eqn:Hkey; simpl; [|done].
  destruct (a2b sig_s) as [sig|] eqn:Hsig; simpl; [|done].
  destruct msg_s as [| |msg| |]; simpl; try done.
  destruct (vk_verify key sig msg) as [[]|] eqn:Hv; simpl; [|done].
  intros [= <-]. exists sig_s, msg, key, sig.
  rewrite Hkb. simpl. done.
Qed.

(** C2 (as amended). When the signature and the key of the triple are
    both present and not empty: a signature or a key without the
    prefix [v0-] makes [unsign] fail with [UnknownKeyError]; a
    signature that the embedded key rejects makes it fail with
    [BadSignatureError]; a signature that the key accepts on a message
    that can be read gives the record and the key without its prefix;
    and whatever it returns has passed the verification and carries that
    key, never [None]. When either is absent or empty nothing is checked
    and the record is returned as unsigned. *)
Theorem unsign_spec (ann_t msg_s sig_vs key_vs : pyval) :
  py.unpack3 ann_t = Ok (msg_s, sig_vs, key_vs) →
  (py.truthy sig_vs && py.truthy key_vs = true →
     (∀ s, sig_vs = PyStr s → pystr.startswith s "v0-" = false →
        common.unsign ann_t = Raise UnknownKeyError)
     ∧ (∀ s k, sig_vs = PyStr s → key_vs = PyStr k →
          pystr.startswith k "v0-" = false →
          common.unsign ann_t = Raise UnknownKeyError)
     ∧ (∀ sig_s key_s msg key sig,
          sig_vs = PyStr ("v0-" +:+ sig_s) → key_vs = PyStr ("v0-" +:+ key_s) →
          msg_s = PyStr msg →
          a2b key_s ≫= vk_from_string = Ok key → a2b sig_s = Ok sig →
          vk_verify key sig msg = Raise BadSignatureError →
          common.unsign ann_t = Raise BadSignatureError)
     ∧ (∀ sig_s key_s msg key sig ann_d,
          sig_vs = PyStr ("v0-" +:+ sig_s) → key_vs = PyStr ("v0-" +:+ key_s) →
          msg_s = PyStr msg →
          a2b key_s ≫= vk_from_string = Ok key → a2b sig_s = Ok sig →
          vk_verify key sig msg = Ok tt →
          pystr.utf8_valid msg = true → loads msg = Ok ann_d →
          common.unsign ann_t = Ok (ann_d, Some key_s))
     ∧ (∀ ann_d key_s, common.unsign ann_t = Ok (ann_d, key_s) →
          ∃ sig_s k msg key sig,
            key_s = Some k
            ∧ sig_vs = PyStr ("v0-" +:+ sig_s) ∧ key_vs = PyStr ("v0-" +:+ k)
            ∧ msg_s = PyStr msg
            ∧ a2b k ≫= vk_from_string = Ok key ∧ a2b sig_s = Ok sig
            ∧ vk_verify key sig msg = Ok tt
            ∧ loads msg = Ok ann_d))
  ∧ (py.truthy sig_vs && py.truthy key_vs = false →
     common.unsign ann_t
     = text ← py.decode_utf8 msg_s; msg ← loads text; Ok (msg, None)).
Proof.
  intros Hu. unfold common.unsign. rewrite Hu. simpl. split.
  - intros ->. split_and!.
    + intros s -> Hs. unfold common.check_signature. simpl. by rewrite Hs.
    + intros s k -> -> Hk. unfold common.check_signature. simpl.
      rewrite Hk. by destruct (pystr.startswith s "v0-").
    + intros sig_s key_s msg key sig -> -> -> Hkey Hsig Hv.
      unfold common.check_signature. simpl.
      change (pystr.startswith _ "v0-") with (pystr.startswith ("v0-" +:+ sig_s) "v0-").
      rewrite startswith_app. simpl.
      change (pystr.startswith _ "v0-") with (pystr.startswith ("v0-" +:+ key_s) "v0-").
      rewrite startswith_app. simpl.
      change ("" +:+ key_s)%string with key_s.
      change ("" +:+ sig_s)%string with sig_s.
      rewrite Hkey. simpl. rewrite Hsig. simpl. by rewrite Hv.
    + intros sig_s key_s msg key sig ann_d -> -> -> Hkey Hsig Hv Hutf Hl.
      unfold common.check_signature. simpl.
      change (pystr.startswith _ "v0-") with (pystr.startswith ("v0-" +:+ sig_s) "v0-").
      rewrite startswith_app. simpl.
      change (pystr.startswith _ "v0-") with (pystr.startswith ("v0-" +:+ key_s) "v0-").
      rewrite startswith_app. simpl.
      change ("" +:+ key_s)%string with key_s.
      change ("" +:+ sig_s)%string with sig_s.
      rewrite Hkey. simpl. rewrite Hsig. simpl. rewrite Hv. simpl.
      unfold pystr.decode_utf8. rewrite Hutf. simpl. by rewrite Hl.
    + intros ann_d key_s.
      destruct (common.check_signature msg_s sig_vs key_vs) as [k|] eqn:Hc;
        simpl; [|done].
      apply check_signature_Ok in Hc
        as (sig_s & msg & key & sig & -> & -> & -> & Hkey & Hsig & Hv).
      simpl. unfold pystr.decode_utf8.
      destruct (pystr.utf8_valid msg); simpl; [|done].
      destruct (loads msg) as [d|] eqn:Hl; simpl; [|done].
      intros [= <- <-]. by exists sig_s, k, msg, key, sig.
  - by intros ->.
Qed.


(** *** Round trips *)

(** The identity token of a signing key: its verifying key in base32. *)
Definition verifying_key_token (sk : SigningKey) : string :=
  b2a (vk_to_string (get_verifying_key sk)).

(** What the round trips take from the imported modules, each at the
    value at hand: [simplejson] reads back what it wrote, base32 decodes
    what it encoded, a verifying key is read back from its string, and a
    key accepts its own signature. *)
Definition json_reads_back (v : pyval) (s : string) : Prop :=
  dumps v = Ok s ∧ loads s = Ok v.

Definition key_checks_out (sk : SigningKey) (msg : string) : Prop :=
  a2b (verifying_key_token sk) ≫= vk_from_string = Ok (get_verifying_key sk)
  ∧ a2b (b2a (sk_sign sk msg)) = Ok (sk_sign sk msg)
  ∧ vk_verify (get_verifying_key sk) (sk_sign sk msg) msg = Ok tt.

(** C8. Signing a record and reading the result back gives the record
    and the token of the key's verifying key; without a key it gives
    the record and [None]. The message is what [simplejson] writes for
    the record, which is plain ASCII. *)
Theorem sign_unsign_roundtrip (R : pyval) (sk : option SigningKey) (msg : string) :
  json_reads_back R msg → pystr.is_ascii msg = true →
  (∀ k, sk = Some k → key_checks_out k msg) →
  common.sign R sk ≫= common.unsign = Ok (R, verifying_key_token <$> sk).
Proof.
  intros (Hd & Hl) Ha Hk. unfold common.sign. rewrite Hd. simpl.
  unfold pystr.str_encode_utf8. rewrite Ha. simpl.
  destruct sk as [k|]; simpl.
  - destruct (Hk k eq_refl) as (Hkey & Hsig & Hv).
    unfold common.unsign, common.check_signature. simpl.
    change ("" +:+ ?x)%string with x.
    fold (verifying_key_token k). rewrite Hkey. simpl.
    rewrite Hsig. simpl. rewrite Hv. simpl.
    unfold pystr.decode_utf8. rewrite (is_ascii_utf8_valid _ Ha). simpl.
    rewrite !startswith_nil. simpl. by rewrite Hl.
  - unfold common.unsign. simpl.
    unfold pystr.decode_utf8. rewrite (is_ascii_utf8_valid _ Ha). simpl.
    by rewrite Hl.
Qed.

(** C9. A legacy tuple whose nickname is UTF-8 and whose other fields
    are plain ASCII comes back unchanged from the v2 form. *)
Theorem v1_v2_roundtrip (furl service_name ri_name nickname ver oldest : string)
    (msg wire : string) :
  pystr.is_ascii furl = true → pystr.is_ascii service_name = true →
  pystr.is_ascii ri_name = true → pystr.utf8_valid nickname = true →
  pystr.is_ascii ver = true → pystr.is_ascii oldest = true →
  json_reads_back
    (common.v1_ann_d furl service_name ri_name nickname ver oldest) msg →
  json_reads_back (PyList [PyStr msg; PyNone; PyNone]) wire →
  common.convert_announcement_v1_to_v2
    (furl, service_name, ri_name, nickname, ver, oldest)
  ≫= common.convert_announcement_v2_to_v1
  = Ok (furl, service_name, ri_name, nickname, ver, oldest).
Proof.
  intros Hf Hs Hr Hn Hv Ho (Hd & Hl) (Hd' & Hl').
  unfold common.convert_announcement_v1_to_v2, pystr.decode_utf8.
  rewrite Hn. simpl. rewrite Hd. simpl. rewrite Hd'. simpl.
  unfold common.convert_announcement_v2_to_v1. rewrite Hl'. simpl.
  rewrite Hl. simpl.
  destruct (v1_ann_d_fields furl service_name ri_name nickname ver oldest)
    as (-> & -> & -> & -> & -> & -> & ->). simpl.
  by rewrite Hf, Hs, Hr, Hv, Ho.
Qed.


(** *** The tubid, the index and the two forms once more *)

(** [get_tubid_string] returns exactly on the locators of the form
    [pb://], a run of word characters that is not empty, [@]: the result
    is that run in lower case, so a word that is not empty and that
    [lower] leaves as it is. On every other string the assertion fails. *)
Theorem get_tubid_string_spec (furl : string) :
  match common.get_tubid_string furl with
  | Ok tubid =>
      (∃ w, locator furl w ∧ tubid = pystr.lower w)
      ∧ word tubid ∧ tubid ≠ EmptyString ∧ pystr.lower tubid = tubid
  | Raise e => e = AssertionError ∧ ∀ w, ¬ locator furl w
  end.
Proof.
  unfold common.get_tubid_string.
  destruct (common.re_match_tubid furl) as [w|] eqn:Hm.
  - apply re_match_tubid_locator in Hm. pose proof Hm as (rest & _ & Hw & Hne).
    split_and!.
    + by exists w.
    + by apply word_lower.
    + by rewrite lower_nil.
    + apply lower_idemp.
  - split; [done|]. by apply re_match_tubid_None.
Qed.

Lemma get_tubid_string_locator furl w :
  locator furl w → common.get_tubid_string furl = Ok (pystr.lower w).
Proof.
  intros Hl. unfold common.get_tubid_string.
  apply re_match_tubid_locator in Hl. by rewrite Hl.
Qed.


(** The index of an unsigned record is its service name with the tubid
    of its locator in lower case. What follows the [@] of the locator
    and the case of the tubid have no part in it: two unsigned records
    of one service have the same index exactly when their tubids are the
    same up to case. *)
Theorem unsigned_index_ignores_hints (ann_d ann_d' : pyval)
    (service_name w w' rest rest' : string) :
  py.getitem ann_d "service-name" ≫= py.str = Ok service_name →
  py.getitem ann_d' "service-name" ≫= py.str = Ok service_name →
  py.getitem ann_d "FURL" ≫= py.str = Ok ("pb://" +:+ w +:+ "@" +:+ rest)%string →
  py.getitem ann_d' "FURL" ≫= py.str = Ok ("pb://" +:+ w' +:+ "@" +:+ rest')%string →
  word w → w ≠ EmptyString → word w' → w' ≠ EmptyString →
  common.make_index ann_d None = Ok (service_name, pystr.lower w)
  ∧ (common.make_index ann_d' None = common.make_index ann_d None
     ↔ pystr.lower w' = pystr.lower w).
Proof.
  intros Hs Hs' Hf Hf' Hw Hne Hw' Hne'.
  rewrite (make_index_unsigned _ _ _ Hs Hf), (make_index_unsigned _ _ _ Hs' Hf').
  rewrite (get_tubid_string_locator _ w), (get_tubid_string_locator _ w');
    [|by exists rest'|by exists rest].
  simpl. split; [done|]. split; [by intros [= ->] | by intros ->].
Qed.

(** [make_index] fails exactly when the service name of the record
    cannot be read, or when no key that is not empty comes with the
    record and the tubid cannot be read from its locator; the exception
    is that of the step that failed. An empty key is taken as no key. *)
Theorem make_index_failures (ann_d : pyval) (key_s : option string) (e : exn) :
  (common.make_index ann_d key_s = Raise e
   ↔ py.getitem ann_d "service-name" ≫= py.str = Raise e
     ∨ ((∃ service_name, py.getitem ann_d "service-name" ≫= py.str = Ok service_name)
        ∧ (key_s = None ∨ key_s = Some EmptyString)
        ∧ common.get_tubid_string_from_ann_d ann_d = Raise e))
  ∧ common.make_index ann_d (Some EmptyString) = common.make_index ann_d None.
Proof.
  split; [|unfold common.make_index;
           by destruct (py.getitem ann_d "service-name") as [v|]; simpl;
             [destruct (py.str v)|]].
  unfold common.make_index.
  destruct (py.getitem ann_d "service-name") as [v|e0]; simpl.
  2: { split; [intros [= ->]; by left | intros [[= ->]|[[sn [=]] _]]; done]. }
  destruct (py.str v) as [sn|e0]; simpl.
  2: { split; [intros [= ->]; by left | intros [[= ->]|[[sn' [=]] _]]; done]. }
  destruct key_s as [k|].
  - destruct (String.eqb_spec k ""); simpl.
    + subst k. destruct (common.get_tubid_string_from_ann_d ann_d) as [t|e0]; simpl.
      * split; [done|]. by intros [[=]|(_ & _ & [=])].
      * split; [intros [= ->]; right; eauto | by intros [[=]|(_ & _ & [= ->])]].
    + split; [done|]. intros [[=]|(_ & [[=]|[= ->]] & _)]. done.
  - destruct (common.get_tubid_string_from_ann_d ann_d) as [t|e0]; simpl.
    + split; [done|]. by intros [[=]|(_ & _ & [=])].
    + split; [intros [= ->]; right; eauto | by intros [[=]|(_ & _ & [= ->])]].
Qed.

(** What [convert_announcement_v1_to_v2] makes of a legacy tuple is,
    once read from its serialisation, a triple that [unsign] takes as
    unsigned: it gives the record of the six fields, with no
    application versions, and no key; the index of that record is made
    from the tubid of its locator. *)
Theorem legacy_reads_as_unsigned (furl service_name ri_name nickname ver oldest : string)
    (msg wire : string) :
  let ann_d := common.v1_ann_d furl service_name ri_name nickname ver oldest in
  pystr.utf8_valid nickname = true →
  json_reads_back ann_d msg → pystr.utf8_valid msg = true →
  json_reads_back (PyList [PyStr msg; PyNone; PyNone]) wire →
  common.convert_announcement_v1_to_v2
    (furl, service_name, ri_name, nickname, ver, oldest) = Ok wire
  ∧ loads wire ≫= common.unsign = Ok (ann_d, None)
  ∧ py.getitem ann_d "app-versions" = Ok (PyDict ∅)
  ∧ (pystr.is_ascii service_name = true → pystr.is_ascii furl = true →
     common.make_index ann_d None
     = tubid ← common.get_tubid_string furl; Ok (service_name, tubid)).
Proof.
  intros ann_d Hn (Hd & Hl) Hm (Hd' & Hl'). split_and!.
  - unfold common.convert_announcement_v1_to_v2, pystr.decode_utf8.
    rewrite Hn. simpl. fold ann_d. rewrite Hd. simpl. exact Hd'.
  - rewrite Hl'. simpl. unfold common.unsign. simpl.
    unfold pystr.decode_utf8. rewrite Hm. simpl. by rewrite Hl.
  - reflexivity.
  - intros Hs Hf.
    destruct (v1_ann_d_fields furl service_name ri_name nickname ver oldest)
      as (_ & Hfurl & Hsn & _).
    subst ann_d. apply make_index_unsigned.
    + rewrite Hsn. simpl. by rewrite Hs.
    + rewrite Hfurl. simpl. by rewrite Hf.
Qed.

(** [convert_announcement_v2_to_v1] looks at the message of the triple
    only: two announcements with the same message convert alike, whatever
    signature and key come with them, and nothing is verified. A message
    that cannot be read fails with the exception of [simplejson], and a
    record whose version is not 0 fails on the assertion. *)
Theorem convert_v2_to_v1_reads_the_message_only (ann_v2 ann_v2' msg : string)
    (sig pubkey sig' pubkey' : pyval) :
  loads ann_v2 = Ok (PyList [PyStr msg; sig; pubkey]) →
  loads ann_v2' = Ok (PyList [PyStr msg; sig'; pubkey']) →
  common.convert_announcement_v2_to_v1 ann_v2'
  = common.convert_announcement_v2_to_v1 ann_v2
  ∧ (∀ e, loads msg = Raise e →
          common.convert_announcement_v2_to_v1 ann_v2 = Raise e)
  ∧ ∀ ann_d v,
      loads msg = Ok ann_d → py.getitem ann_d "version" = Ok v → v ≠ PyInt 0 →
      common.convert_announcement_v2_to_v1 ann_v2 = Raise AssertionError.
Proof.
  intros Hl Hl'. unfold common.convert_announcement_v2_to_v1.
  rewrite Hl, Hl'. simpl. split_and!.
  - done.
  - by intros e ->.
  - intros ann_d v Hm Hg Hv. rewrite Hm. simpl. rewrite Hg. simpl.
    by rewrite bool_decide_eq_false_2.
Qed.


End common_spec.
End common_spec.

(** ** The codec on the reference implementation *)

Module common_examples.
Import reference common_spec.

(** A storage server behind the tub [TubA], announced by bob. *)
Definition storage_v1 : common.ann_v1 :=
  ("pb://TubA@host:1/storage", "storage", "RIStorageServer", "bob", "1.0", "0.9")%string.

Definition storage_record : pyval :=
  common.v1_ann_d "pb://TubA@host:1/storage" "storage" "RIStorageServer"
    "bob" "1.0" "0.9".

Definition storage_msg : string :=
  Eval vm_compute in write storage_record.

Lemma storage_reads_back : json_reads_back storage_record storage_msg.
Proof. repeat split; vm_compute; reflexivity. Qed.

Lemma make_index_spec_witness :
  common.make_index storage_record (Some "k3y"%string) = Ok ("storage", "k3y")%string
  ∧ common.make_index storage_record None = Ok ("storage", "tuba")%string
  ∧ common.make_index
      (common.v1_ann_d "pb://TubA@host:1/storage" "storage" "RI" "alice" "2" "1") None
    = common.make_index storage_record None.
Proof.
  destruct (make_index_spec storage_record "storage" eq_refl) as [Hsigned Hunsigned].
  destruct (Hunsigned "pb://TubA@host:1/storage"%string eq_refl)
    as (Hloc & _ & Hv1).
  split_and!.
  - by apply Hsigned.
  - apply (Hloc "TubA"%string). exists "host:1/storage"%string.
    split_and!; [reflexivity | repeat constructor | done].
  - by apply Hv1.
Defined.

(** C5, as stated, fails: the same record is indexed under its tubid
    when it arrives unsigned, as every legacy announcement does, and
    under the key token when it arrives signed in the v2 form. *)
Lemma make_index_signed_differs :
  common.sign storage_record None ≫= common.unsign = Ok (storage_record, None)
  ∧ common.sign storage_record (Some "secret"%string) ≫= common.unsign
    = Ok (storage_record, Some "766b3a736563726574"%string)
  ∧ common.make_index storage_record None = Ok ("storage", "tuba")%string
  ∧ common.make_index storage_record (Some "766b3a736563726574"%string)
    = Ok ("storage", "766b3a736563726574")%string
  ∧ ("storage", "tuba")%string ≠ ("storage", "766b3a736563726574")%string.
Proof. split_and!; [vm_compute; reflexivity.. | done]. Qed.

(** The signed form of the record, and the same with its signature
    tampered, with a signature of another version, and with a key of
    another version. *)
Definition signed_triple (sig_vs key_vs : string) : pyval :=
  PyList [PyStr storage_msg; PyStr sig_vs; PyStr key_vs].

Definition good_sig : string :=
  Eval vm_compute in ("v0-" +:+ b2a (sk_sign ("secret"%string : SigningKey) storage_msg))%string.
Definition good_key : string := "v0-766b3a736563726574".

Lemma unsign_spec_witness :
  common.unsign (signed_triple "v1-00" good_key) = Raise UnknownKeyError
  ∧ common.unsign (signed_triple good_sig "v1-766b3a736563726574") = Raise UnknownKeyError
  ∧ common.unsign (signed_triple "v0-00" good_key) = Raise BadSignatureError
  ∧ (common.unsign (signed_triple good_sig good_key)
     = Ok (storage_record, Some "766b3a736563726574"%string)
     ∧ ∃ key sig, vk_verify key sig storage_msg = Ok tt)
  ∧ common.unsign (PyList [PyStr storage_msg; PyNone; PyNone])
    = Ok (storage_record, None).
Proof.
  split_and!.
  - destruct (unsign_spec (signed_triple "v1-00" good_key) _ _ _ eq_refl)
      as [Hsigned _].
    destruct (Hsigned eq_refl) as (Hsig & _). by apply (Hsig "v1-00"%string).
  - destruct (unsign_spec (signed_triple good_sig "v1-766b3a736563726574")
                _ _ _ eq_refl) as [Hsigned _].
    destruct (Hsigned eq_refl) as (_ & Hkey & _).
    by apply (Hkey good_sig "v1-766b3a736563726574"%string).
  - destruct (unsign_spec (signed_triple "v0-00" good_key) _ _ _ eq_refl)
      as [Hsigned _].
    destruct (Hsigned eq_refl) as (_ & _ & Hbad & _ & _).
    apply (Hbad "00" "766b3a736563726574" storage_msg "secret" (String zero ""))%string;
      reflexivity.
  - destruct (unsign_spec (signed_triple good_sig good_key) _ _ _ eq_refl)
      as [Hsigned _].
    destruct (Hsigned eq_refl) as (_ & _ & _ & Hgood & _).
    apply (Hgood (pystr.drop 3 good_sig) "766b3a736563726574"%string storage_msg
             "secret"%string
             (@sk_sign ecdsa "secret"%string storage_msg));
      reflexivity.
  - destruct (unsign_spec (signed_triple good_sig good_key) _ _ _ eq_refl)
      as [Hsigned _].
    destruct (Hsigned eq_refl) as (_ & _ & _ & _ & Hok).
    destruct (Hok storage_record (Some "766b3a736563726574"%string))
      as (sig_s & k & msg & key & sig & _ & _ & _ & [= <-] & _ & _ & Hv & _);
      [vm_compute; reflexivity|].
    by exists key, sig.
  - destruct (unsign_spec (PyList [PyStr storage_msg; PyNone; PyNone])
                _ _ _ eq_refl) as [_ Hunsigned].
    rewrite (Hunsigned eq_refl). vm_compute. reflexivity.
Defined.

(** C2, as stated, fails: a signature of an unknown version raises
    nothing when the key is absent, and a key that comes without a
    signature, or with an empty one, is not used for any check; each
    time the record is returned as unsigned. *)
Lemma unsign_skips_the_check :
  common.unsign (PyList [PyStr storage_msg; PyStr "v1-00"; PyNone])
  = Ok (storage_record, None)
  ∧ common.unsign (PyList [PyStr storage_msg; PyNone; PyStr good_key])
    = Ok (storage_record, None)
  ∧ common.unsign (PyList [PyStr storage_msg; PyStr ""; PyStr good_key])
    = Ok (storage_record, None).
Proof. split_and!; vm_compute; reflexivity. Qed.

Lemma sign_unsign_roundtrip_witness :
  common.sign storage_record (Some ("secret"%string : SigningKey)) ≫= common.unsign
  = Ok (storage_record, Some "766b3a736563726574"%string)
  ∧ common.sign storage_record None ≫= common.unsign = Ok (storage_record, None).
Proof.
  split.
  - rewrite (sign_unsign_roundtrip (EC:=ecdsa) storage_record
               (Some "secret"%string) storage_msg).
    + reflexivity.
    + exact storage_reads_back.
    + reflexivity.
    + intros k [= <-]. repeat split; vm_compute; reflexivity.
  - apply (sign_unsign_roundtrip (EC:=ecdsa) storage_record None storage_msg).
    + exact storage_reads_back.
    + reflexivity.
    + intros k [=].
Defined.

Definition storage_wire : string :=
  Eval vm_compute in write (PyList [PyStr storage_msg; PyNone; PyNone]).

Lemma v1_v2_roundtrip_witness :
  common.convert_announcement_v1_to_v2 storage_v1
  ≫= common.convert_announcement_v2_to_v1 = Ok storage_v1.
Proof.
  apply (v1_v2_roundtrip _ _ _ _ _ _ storage_msg storage_wire);
    try reflexivity; repeat split; vm_compute; reflexivity.
Defined.


(** A service name that is not plain ASCII does not come back: [str]
    refuses the text that [simplejson] returns for it. *)
Example v1_v2_needs_ascii :
  common.convert_announcement_v1_to_v2
    ("pb://TubA@host:1/storage", "stockage-é", "RIStorageServer", "bob", "1.0", "0.9")%string
  ≫= common.convert_announcement_v2_to_v1
  = Raise UnicodeEncodeError.
Proof. vm_compute. reflexivity. Qed.


(** The same storage server once it has moved, its tub written in
    lower case. *)
Definition storage_moved : pyval :=
  common.v1_ann_d "pb://tuba@elsewhere:7/storage" "storage" "RIStorageServer"
    "bob" "1.1" "0.9".

Lemma unsigned_index_ignores_hints_witness :
  common.make_index storage_record None = Ok ("storage", "tuba")%string
  ∧ common.make_index storage_moved None = common.make_index storage_record None.
Proof.
  destruct (unsigned_index_ignores_hints storage_record storage_moved "storage"
              "TubA" "tuba" "host:1/storage" "elsewhere:7/storage"
              eq_refl eq_refl eq_refl eq_refl)
    as [Hindex Hsame].
  - repeat constructor.
  - done.
  - repeat constructor.
  - done.
  - split; [exact Hindex|]. by apply Hsame.
Defined.

Lemma legacy_reads_as_unsigned_witness :
  common.convert_announcement_v1_to_v2 storage_v1 = Ok storage_wire
  ∧ loads storage_wire ≫= common.unsign = Ok (storage_record, None).
Proof.
  destruct (legacy_reads_as_unsigned "pb://TubA@host:1/storage" "storage"
              "RIStorageServer" "bob" "1.0" "0.9" storage_msg storage_wire)
    as (Hwire & Hread & _).
  - reflexivity.
  - exact storage_reads_back.
  - vm_compute. reflexivity.
  - repeat split; vm_compute; reflexivity.
  - split; [exact Hwire | exact Hread].
Defined.

(** The storage record under a version that is not 0, as a v2
    announcement. *)
Definition storage_next : pyval :=
  match storage_record with
  | PyDict d => PyDict (<["version" := PyInt 1]> d)
  | other => other
  end.

Definition storage_next_msg : string := Eval vm_compute in write storage_next.

Definition storage_next_wire : string :=
  Eval vm_compute in write (PyList [PyStr storage_next_msg; PyNone; PyNone]).

Definition storage_next_signed : string :=
  Eval vm_compute in
    write (PyList [PyStr storage_next_msg; PyStr "v0-00"; PyStr good_key]).

Lemma convert_v2_to_v1_reads_the_message_only_witness :
  common.convert_announcement_v2_to_v1 storage_next_signed
  = common.convert_announcement_v2_to_v1 storage_next_wire
  ∧ common.convert_announcement_v2_to_v1 storage_next_wire = Raise AssertionError.
Proof.
  destruct (convert_v2_to_v1_reads_the_message_only storage_next_wire
              storage_next_signed storage_next_msg PyNone PyNone
              (PyStr "v0-00") (PyStr good_key))
    as (Hsame & _ & Hversion).
  - vm_compute. reflexivity.
  - vm_compute. reflexivity.
  - split; [exact Hsame|].
    apply (Hversion storage_next (PyInt 1)); [vm_compute; reflexivity|reflexivity|done].
Defined.

End common_examples.

(** ** The client *)

Module client_spec.
Import client.

Section client_spec.
Context {RT : PyRuntime} {JS : SimpleJson} {B32 : Base32} {EC : Ecdsa}.

(** *** Running a computation step by step *)

Lemma run_bind {A B} (m : M A) (k : A → M B) (st : state) :
  (m ≫= k) st
  = match m st with
    | (st', Ok a) => k a st'
    | (st', Raise e) => (st', Raise e)
    end.
Proof. reflexivity. Qed.

Lemma exec_bind_Ok {A B} (m : M A) (k : A → M B) (st st' : state) (a : A) :
  m st = (st', Ok a) → (m ≫= k) st = k a st'.
Proof. intros Hm. by rewrite run_bind, Hm. Qed.

Lemma exec_bind_Raise {A B} (m : M A) (k : A → M B) (st st' : state) (e : exn) :
  m st = (st', Raise e) → (m ≫= k) st = (st', Raise e).
Proof. intros Hm. by rewrite run_bind, Hm. Qed.

(** Unfolds the monad of the methods and the actions on the world, and
    lets the steps that are known run. *)
#[local] Ltac run_M :=
  unfold mbind, M_bind, count, outstanding, log, callRemote, lift, raise,
    get_self, modify_self, modify_world, now;
  simpl.

(** *** Disconnection *)

(** C7. [_disconnected] empties the set of subscriptions sent and drops
    the publisher; it writes one line to the log; every other attribute,
    the table of announcements and the published announcements among
    them, and the rest of the world are as before. *)
Theorem disconnected_frame (st : state) :
  let st' := exec _disconnected st in
  outcome _disconnected st = Ok tt
  ∧ _subscriptions st'.1 = ∅
  ∧ _publisher st'.1 = None
  ∧ connected_to_introducer st'.1 = false
  ∧ _current_announcements st'.1 = _current_announcements st.1
  ∧ _published_announcements st'.1 = _published_announcements st.1
  ∧ st'.1 = set_subscriptions ∅ (set_publisher None st.1)
  ∧ st'.2 = set_log_out (log_out st.2 ++ [Log_disconnected]) st.2.
Proof. destruct st as [c w]. repeat split. Qed.

(** *** The table only grows *)

(** The indices of [st] are indices of [st']. *)
Definition table_grows (st st' : state) : Prop :=
  dom (_current_announcements st.1) ⊆ dom (_current_announcements st'.1).

#[local] Instance table_grows_refl : Reflexive table_grows.
Proof. intros st. unfold table_grows. done. Qed.

#[local] Instance table_grows_trans : Transitive table_grows.
Proof. intros st1 st2 st3. unfold table_grows. set_solver. Qed.

(** A computation that forgets no index, however it ends. *)
Definition keeps_table {A} (m : M A) : Prop :=
  ∀ st, table_grows st (m st).1.

#[local] Ltac unchanged_table := intros st; unfold table_grows; simpl; done.

Lemma keeps_ret {A} (a : A) : keeps_table (mret a : M A).
Proof. unchanged_table. Qed.

Lemma keeps_raise {A} (e : exn) : keeps_table (raise e : M A).
Proof. unchanged_table. Qed.

Lemma keeps_lift {A} (r : result A) : keeps_table (lift r).
Proof. unchanged_table. Qed.

Lemma keeps_get_self : keeps_table get_self.
Proof. unchanged_table. Qed.

Lemma keeps_modify_world f : keeps_table (modify_world f).
Proof. unchanged_table. Qed.

Lemma keeps_modify_self f :
  (∀ c, dom (_current_announcements c) ⊆ dom (_current_announcements (f c))) →
  keeps_table (modify_self f).
Proof. intros Hf st. apply Hf. Qed.

Lemma keeps_bind {A B} (m : M A) (k : A → M B) :
  keeps_table m → (∀ a, keeps_table (k a)) → keeps_table (m ≫= k).
Proof.
  intros Hm Hk st. rewrite run_bind. specialize (Hm st).
  destruct (m st) as [st' [a|e]]; simpl in *; [|done].
  etrans; [exact Hm | apply Hk].
Qed.

Lemma keeps_for_each {A} (l : list A) (body : A → M unit) :
  (∀ x, keeps_table (body x)) → keeps_table (for_each l body).
Proof.
  intros Hb. induction l as [|x l IH]; simpl.
  - apply keeps_ret.
  - apply keeps_bind; [apply Hb | intros _; apply IH].
Qed.

Lemma keeps_now : keeps_table now.
Proof. unchanged_table. Qed.

Create HintDb keeps discriminated.

#[local] Hint Resolve keeps_ret keeps_raise keeps_lift keeps_get_self
  keeps_modify_world keeps_now : keeps.

#[local] Ltac keeps_step :=
  lazymatch goal with
  | |- keeps_table (_ ≫= _) => apply keeps_bind; [|intros ?]
  | |- keeps_table (for_each _ _) => apply keeps_for_each; intros ?
  | |- keeps_table (modify_self _) => apply keeps_modify_self; intros ?; simpl
  | |- keeps_table (if ?b then _ else _) => destruct b
  | |- keeps_table (match ?x with _ => _ end) => destruct x
  | |- keeps_table _ => solve [auto with keeps]
  end.

#[local] Ltac keeps := repeat keeps_step; try done.

Lemma keeps_log m : keeps_table (log m).
Proof. unfold log. keeps. Qed.

Lemma keeps_eventually cb args kwargs : keeps_table (eventually cb args kwargs).
Proof. unfold eventually. keeps. Qed.

Lemma keeps_callRemote r : keeps_table (callRemote r).
Proof. unfold callRemote. keeps. Qed.

Lemma keeps_count k : keeps_table (count k).
Proof. unfold count. keeps. Qed.

Lemma keeps_outstanding n : keeps_table (outstanding n).
Proof. unfold outstanding. keeps. Qed.

Lemma keeps_trap f : keeps_table (trap f).
Proof. unfold trap. keeps. Qed.

#[local] Hint Resolve keeps_log keeps_eventually keeps_callRemote keeps_count
  keeps_outstanding keeps_trap : keeps.

Lemma keeps_maybe_subscribe : keeps_table _maybe_subscribe.
Proof. unfold _maybe_subscribe. keeps. Qed.

Lemma keeps_maybe_publish : keeps_table _maybe_publish.
Proof. unfold _maybe_publish. keeps. Qed.

#[local] Hint Resolve keeps_maybe_subscribe keeps_maybe_publish : keeps.

Lemma keeps_publish furl service_name remoteinterface_name signing_key :
  keeps_table (publish furl service_name remoteinterface_name signing_key).
Proof. unfold publish. keeps. Qed.

(** The one assignment to the table is an insertion. *)
Lemma keeps_process_announcement ann_d key :
  keeps_table (_process_announcement ann_d key).
Proof.
  unfold _process_announcement. keeps.
  all: rewrite dom_insert; set_solver.
Qed.

#[local] Hint Resolve keeps_publish keeps_process_announcement : keeps.

Lemma keeps_got_announcements announcements :
  keeps_table (got_announcements announcements).
Proof. unfold got_announcements. keeps. Qed.

#[local] Hint Resolve keeps_got_announcements : keeps.

Lemma keeps_run (o : op) : keeps_table (run o).
Proof.
  destruct o; simpl;
    unfold startService, connect_failed, _got_introducer,
      _got_versioned_introducer, _got_error, _disconnected, subscribe_to,
      _debug_retired, _subscribe_handle_v1, _publish_stub_client,
      _handle_v1_publisher, remote_announce_v2, remote_announce,
      ClientAdapter_v1_remote_announce, remote_set_encoding_parameters;
    simpl; keeps.
Qed.

(** C6. No operation of the client takes an index out of the table of
    announcements: after any call, whether it returned or raised, and
    after any sequence of calls, the indices that were in the table are
    still in it. *)
Theorem table_never_shrinks (ops : list op) (st : state) :
  (∀ o, table_grows st (exec (run o) st))
  ∧ dom (_current_announcements st.1)
    ⊆ dom (_current_announcements (run_all ops st).1).
Proof.
  split.
  - intros o. apply keeps_run.
  - revert st. induction ops as [|o ops IH]; intros st; simpl; [done|].
    etrans; [apply (keeps_run o st) | apply IH].
Qed.


(** *** Processing one announcement *)

Lemma nickname_to_unicode_id ann_d : nickname_to_unicode ann_d = ann_d.
Proof.
  destruct ann_d as [| | | |d]; simpl; try done.
  destruct (d !! "nickname") as [[| |s| |]|] eqn:Hn; try done.
  destruct (pystr.is_ascii s); [|done]. by rewrite insert_id.
Qed.

(** The calls that an announcement puts on the queue: one for each
    local subscriber of its service, in the order of their
    subscription. *)
Definition notifications (subs : list subscriber) (service_name nodeid : string)
    (ann_d : pyval) : list call :=
  flat_map (λ '(service_name2, cb, args, kwargs),
              if decide (service_name2 = service_name)
              then [Call cb ([PyStr nodeid; ann_d] ++ args) kwargs]
              else []) subs.

Lemma set_eventual_queue_app w q1 q2 :
  set_eventual_queue (eventual_queue (set_eventual_queue q1 w) ++ q2)
    (set_eventual_queue q1 w)
  = set_eventual_queue (q1 ++ q2) w.
Proof. done. Qed.

Lemma for_each_notify subs service_name nodeid ann_d c w :
  for_each subs
    (λ '(service_name2, cb, args, kwargs),
       if decide (service_name2 = service_name)
       then eventually cb (PyStr nodeid :: ann_d :: args) kwargs
       else mret tt) (c, w)
  = ((c, set_eventual_queue
           (eventual_queue w ++ notifications subs service_name nodeid ann_d) w),
     Ok tt).
Proof.
  revert w. induction subs as [|[[[sn cb] args] kwargs] subs IH]; intros w; simpl.
  - rewrite app_nil_r. by destruct w.
  - rewrite run_bind. destruct (decide (sn = service_name)); simpl.
    + rewrite IH. simpl. by rewrite <-app_assoc.
    + by rewrite IH.
Qed.

Lemma make_index_service_name ann_d key index :
  common.make_index ann_d key = Ok index →
  py.getitem ann_d "service-name" ≫= py.str = Ok index.1.
Proof.
  unfold common.make_index.
  destruct (py.getitem ann_d "service-name") as [v|]; simpl; [|done].
  destruct (py.str v) as [sn|]; simpl; [|done].
  destruct key as [k|]; [destruct (negb (String.eqb k ""))|];
    try (destruct (common.get_tubid_string_from_ann_d ann_d); simpl);
    by intros [= <-].
Qed.

(** The index under which [_process_announcement] stores a record and
    tells the subscribers, when it does: the service is one that was
    subscribed to, the nickname and the index can be worked out, and the
    table does not hold the same record at that index. *)
Definition accepted (c : IntroducerClient) (ann_d : pyval) (key : option string)
  : option (string * string) :=
  match py.getitem ann_d "service-name" ≫= py.str,
        py.get ann_d "nickname" (PyStr "") ≫= py.encode_utf8,
        common.make_index ann_d key with
  | Ok service_name, Ok _, Ok index =>
      if decide (service_name ∈ _subscribed_service_names c) then
        if decide (stored_ann_d c index = ann_d) then None else Some index
      else None
  | _, _, _ => None
  end.

Lemma process_announcement_effect (st : state) ann_d key :
  let st1 := exec (_process_announcement ann_d key) st in
  match accepted st.1 ann_d key with
  | Some index =>
      _current_announcements st1.1
      = <[index := (ann_d, key, time_time (clock st.2))]>
          (_current_announcements st.1)
      ∧ eventual_queue st1.2
        = eventual_queue st.2
          ++ notifications (_local_subscribers st.1) index.1 index.2 ann_d
      ∧ outcome (_process_announcement ann_d key) st = Ok tt
  | None =>
      _current_announcements st1.1 = _current_announcements st.1
      ∧ eventual_queue st1.2 = eventual_queue st.2
  end
  ∧ _subscribed_service_names st1.1 = _subscribed_service_names st.1
  ∧ _local_subscribers st1.1 = _local_subscribers st.1.
Proof.
  destruct st as [c w]. unfold accepted, exec, outcome, _process_announcement.
  rewrite nickname_to_unicode_id.
  destruct (py.getitem ann_d "service-name" ≫= py.str) as [sn|] eqn:Hsn;
    [|by run_M].
  destruct (py.get ann_d "nickname" (PyStr "") ≫= py.encode_utf8) as [nick|];
    [|by run_M; destruct (decide (sn ∉ _subscribed_service_names c))].
  destruct (common.make_index ann_d key) as [index|] eqn:Hi;
    [|by run_M; destruct (decide (sn ∉ _subscribed_service_names c))].
  pose proof (make_index_service_name _ _ _ Hi) as Hsn'.
  assert (sn = index.1) as -> by congruence.
  run_M. unfold stored_ann_d. simpl.
  destruct (decide (index.1 ∉ _subscribed_service_names c)) as [Hout|Hin]; simpl.
  { by rewrite decide_False. }
  apply dec_stable in Hin. rewrite (decide_True _ _ Hin).
  fold (stored_ann_d c index).
  destruct (decide (stored_ann_d c index = ann_d)); simpl; [done|].
  destruct (decide (is_Some (_current_announcements c !! index))); simpl;
    rewrite for_each_notify; simpl; done.
Qed.


Lemma accepted_ext c c' ann_d key :
  _subscribed_service_names c' = _subscribed_service_names c →
  _current_announcements c' = _current_announcements c →
  accepted c' ann_d key = accepted c ann_d key.
Proof. unfold accepted, stored_ann_d. by intros -> ->. Qed.

Lemma accepted_stored c ann_d key index stored_key rxtime :
  common.make_index ann_d key = Ok index →
  _current_announcements c !! index = Some (ann_d, stored_key, rxtime) →
  accepted c ann_d key = None.
Proof.
  intros Hi Hl. unfold accepted, stored_ann_d. rewrite Hi.
  destruct (py.getitem ann_d "service-name" ≫= py.str); [|done].
  destruct (py.get ann_d "nickname" (PyStr "") ≫= py.encode_utf8); [|done].
  rewrite Hl. destruct (decide (_ ∈ _)); [|done]. by rewrite decide_True.
Qed.

Lemma accepted_index c ann_d key index :
  accepted c ann_d key = Some index → common.make_index ann_d key = Ok index.
Proof.
  unfold accepted.
  destruct (py.getitem ann_d "service-name" ≫= py.str); [|done].
  destruct (py.get ann_d "nickname" (PyStr "") ≫= py.encode_utf8); [|done].
  destruct (common.make_index ann_d key); [|done].
  repeat case_decide; congruence.
Qed.

(** Once processed, an announcement is not accepted again. *)
Lemma accepted_once (st : state) ann_d key :
  accepted (exec (_process_announcement ann_d key) st).1 ann_d key = None.
Proof.
  destruct (process_announcement_effect st ann_d key) as (Heff & Hsub & _).
  destruct (accepted st.1 ann_d key) as [index|] eqn:Hacc.
  - destruct Heff as (Ht & _ & _).
    apply (accepted_stored _ _ _ index key (time_time (clock st.2)));
      [by eapply accepted_index|].
    rewrite Ht. apply lookup_insert_eq.
  - destruct Heff as (Ht & _). by rewrite (accepted_ext st.1).
Qed.

(** One announcement handed to [got_announcements]: the table and the
    queue are what [_process_announcement] makes of them when the
    announcement can be read, and are left alone when it cannot. *)
Lemma got_announcements_one (st : state) (ann_s : pyval) :
  let st1 := exec (got_announcements [ann_s]) st in
  _subscribed_service_names st1.1 = _subscribed_service_names st.1
  ∧ match common.unsign ann_s with
    | Ok (ann_d, key) =>
        ∃ st0,
          _current_announcements st0.1 = _current_announcements st.1
          ∧ _subscribed_service_names st0.1 = _subscribed_service_names st.1
          ∧ eventual_queue st0.2 = eventual_queue st.2
          ∧ _current_announcements st1.1
            = _current_announcements (exec (_process_announcement ann_d key) st0).1
          ∧ eventual_queue st1.2
            = eventual_queue (exec (_process_announcement ann_d key) st0).2
    | Raise _ =>
        _current_announcements st1.1 = _current_announcements st.1
        ∧ eventual_queue st1.2 = eventual_queue st.2
    end.
Proof.
  destruct st as [c w]. unfold exec, got_announcements. simpl.
  rewrite run_bind. simpl. rewrite run_bind.
  set (st0 := (set_debug_counts _ c, w)).
  destruct (common.unsign ann_s) as [[ann_d key]|e] eqn:Hu.
  - destruct (process_announcement_effect st0 ann_d key) as (_ & Hs & _).
    unfold exec in Hs.
    destruct (_process_announcement ann_d key st0) as [st1 [[]|e]] eqn:Hp;
      simpl in *; (split; [done|]); exists st0; unfold exec; by rewrite Hp.
  - by destruct e.
Qed.

(** C3. An announcement whose index is in the table with an equal
    record is dropped: nothing is put on the queue of the subscribers
    and the table, the time of receipt in it included, stays as it is.
    Hence the second of two deliveries of one announcement tells no
    subscriber, whether it is processed again or handed again to
    [got_announcements], and the two together tell each subscriber of
    the service once when the first one brought a record that the table
    did not hold. *)
Theorem duplicate_is_dropped (st : state) (ann_d : pyval) (key : option string) :
  let st1 := exec (_process_announcement ann_d key) st in
  let st2 := exec (_process_announcement ann_d key) st1 in
  (∀ index stored_key rxtime,
     common.make_index ann_d key = Ok index →
     _current_announcements st.1 !! index = Some (ann_d, stored_key, rxtime) →
     eventual_queue st1.2 = eventual_queue st.2
     ∧ _current_announcements st1.1 = _current_announcements st.1)
  ∧ eventual_queue st2.2 = eventual_queue st1.2
  ∧ _current_announcements st2.1 = _current_announcements st1.1
  ∧ (∀ index nick_s,
       common.make_index ann_d key = Ok index →
       index.1 ∈ _subscribed_service_names st.1 →
       py.get ann_d "nickname" (PyStr "") ≫= py.encode_utf8 = Ok nick_s →
       stored_ann_d st.1 index ≠ ann_d →
       eventual_queue st2.2
       = eventual_queue st.2
         ++ notifications (_local_subscribers st.1) index.1 index.2 ann_d)
  ∧ (∀ ann_s,
       let got1 := exec (got_announcements [ann_s]) st in
       let got2 := exec (got_announcements [ann_s]) got1 in
       eventual_queue got2.2 = eventual_queue got1.2
       ∧ _current_announcements got2.1 = _current_announcements got1.1).
Proof.
  intros st1 st2.
  destruct (process_announcement_effect st ann_d key) as (Heff & _).
  destruct (process_announcement_effect st1 ann_d key) as (Heff' & _).
  fold st1 in Heff. fold st2 in Heff'.
  unfold st1 in Heff' at 1. rewrite accepted_once in Heff'.
  destruct Heff' as [Ht2 Hq2]. split_and!; [|done|done| |].
  - intros index stored_key rxtime Hi Hl.
    rewrite (accepted_stored _ _ _ _ _ _ Hi Hl) in Heff. by destruct Heff.
  - intros index nick_s Hi Hin Hnick Hne. rewrite Hq2.
    assert (accepted st.1 ann_d key = Some index) as Hacc.
    { unfold accepted. rewrite (make_index_service_name _ _ _ Hi), Hnick, Hi.
      by rewrite decide_True, decide_False. }
    rewrite Hacc in Heff. by destruct Heff as (_ & -> & _).
  - intros ann_s got1 got2.
    destruct (got_announcements_one st ann_s) as [Hs1 H1].
    destruct (got_announcements_one got1 ann_s) as [_ H2].
    fold got1 in Hs1, H1. fold got2 in H2.
    destruct (common.unsign ann_s) as [[d k]|e]; [|by destruct H2].
    destruct H1 as (st0 & _ & Hs0 & _ & Ht1 & _).
    destruct H2 as (st0' & Ht0' & Hs0' & Hq0' & -> & ->).
    destruct (process_announcement_effect st0' d k) as (Heff0 & _).
    assert (accepted st0'.1 d k = None) as Hnone.
    { rewrite <-(accepted_once st0 d k). apply accepted_ext.
      - destruct (process_announcement_effect st0 d k) as (_ & Hs & _).
        by rewrite Hs0', Hs1, Hs, Hs0.
      - by rewrite Ht0', Ht1. }
    rewrite Hnone in Heff0. destruct Heff0 as [-> ->]. by rewrite Hq0'.
Qed.

(** *** Subscription *)

(** A loop whose body keeps a property of the state and returns keeps it
    and returns. *)
Lemma for_each_invariant {A} (P : state → Prop) (l : list A) (body : A → M unit) :
  (∀ x st, P st → P (body x st).1 ∧ (body x st).2 = Ok tt) →
  ∀ st, P st → P (for_each l body st).1 ∧ (for_each l body st).2 = Ok tt.
Proof.
  intros Hb. induction l as [|x l IH]; intros st HP; simpl; [done|].
  rewrite run_bind. destruct (Hb x st HP) as [HP' Hr].
  destruct (body x st) as [st' r]; simpl in *; subst r. by apply IH.
Qed.

(** [_maybe_subscribe] returns, and leaves the table, the queue and the
    local subscriptions alone. *)
Lemma maybe_subscribe_frame (st : state) :
  (_maybe_subscribe st).2 = Ok tt
  ∧ _current_announcements (_maybe_subscribe st).1.1 = _current_announcements st.1
  ∧ _local_subscribers (_maybe_subscribe st).1.1 = _local_subscribers st.1
  ∧ _subscribed_service_names (_maybe_subscribe st).1.1
    = _subscribed_service_names st.1
  ∧ eventual_queue (_maybe_subscribe st).1.2 = eventual_queue st.2.
Proof.
  destruct st as [c w]. unfold _maybe_subscribe. run_M.
  destruct (_publisher c) as [p|] eqn:Hp; simpl; [|done].
  set (P := λ st' : state,
         _publisher st'.1 = Some p
         ∧ _current_announcements st'.1 = _current_announcements c
         ∧ _local_subscribers st'.1 = _local_subscribers c
         ∧ _subscribed_service_names st'.1 = _subscribed_service_names c
         ∧ eventual_queue st'.2 = eventual_queue w).
  match goal with
  | |- context [for_each ?l ?body (c, w)] =>
      destruct (for_each_invariant P l body) with (st := (c, w)) as [HP Hr]
  end.
  - intros x [c' w'] (Hpub & HP). simpl in *.
    destruct (decide (x ∈ _subscriptions c')); simpl; [done|].
    run_M. rewrite Hpub. done.
  - done.
  - by destruct HP as (? & ? & ? & ? & ?).
Qed.

(** The calls that replay a table to a new subscriber of [service_name],
    entry by entry in the order given. *)
Definition replay (entries : list ((string * string) * entry))
    (service_name : string) (cb : callback) : list call :=
  flat_map (λ '((servicename, nodeid), (ann_d, key, when)),
              if decide (servicename = service_name)
              then [Call cb [PyStr nodeid; ann_d] []]
              else []) entries.

Lemma for_each_replay entries service_name cb c w :
  for_each entries
    (λ '((servicename, nodeid), (ann_d, key, when)),
       if decide (servicename = service_name)
       then eventually cb [PyStr nodeid; ann_d] []
       else mret tt) (c, w)
  = ((c, set_eventual_queue (eventual_queue w ++ replay entries service_name cb) w),
     Ok tt).
Proof.
  revert w.
  induction entries as [|[[sn nodeid] [[ann_d key] when]] entries IH];
    intros w; simpl.
  - rewrite app_nil_r. by destruct w.
  - rewrite run_bind. destruct (decide (sn = service_name)); simpl.
    + rewrite IH. simpl. by rewrite <-app_assoc.
    + by rewrite IH.
Qed.

(** Whom a call is for and what it brings: the callback, and the node
    and the record that are its first two arguments. *)
Definition delivery (c : call) : callback * list pyval :=
  (call_cb c, take 2 (call_args c)).

(** The entries of a table for one service, as deliveries to [cb]. *)
Definition known (entries : list ((string * string) * entry))
    (service_name : string) (cb : callback) : list (callback * list pyval) :=
  (λ e, (cb, [PyStr e.1.2; e.2.1.1]))
  <$> filter (λ e, e.1.1 = service_name) entries.

Lemma delivery_replay entries service_name cb :
  delivery <$> replay entries service_name cb = known entries service_name cb.
Proof.
  unfold known. induction entries as [|[[sn nodeid] [[ann_d key] when]] entries IH];
    simpl; [done|].
  rewrite filter_cons. simpl. destruct (decide (sn = service_name)); simpl.
  - f_equal. exact IH.
  - exact IH.
Qed.

Lemma iter_table_perm {V} (d : gmap (string * string) V) :
  py.iter_table d ≡ₚ map_to_list d.
Proof. apply merge_sort_Permutation. Qed.

Lemma known_perm entries entries' service_name cb :
  entries ≡ₚ entries' →
  known entries service_name cb ≡ₚ known entries' service_name cb.
Proof. intros Hp. unfold known. by rewrite Hp. Qed.

Lemma known_NoDup (d : gmap (string * string) entry) service_name cb :
  NoDup (known (map_to_list d) service_name cb).
Proof.
  unfold known. apply NoDup_fmap_2_strong.
  - intros [[sn n] v] [[sn' n'] v'] [Hs Hin]%list_elem_of_filter
      [Hs' Hin']%list_elem_of_filter [= Hn Hv]. simpl in *. subst.
    apply elem_of_map_to_list in Hin, Hin'. by simplify_eq.
  - apply NoDup_filter, NoDup_map_to_list.
Qed.

Lemma elem_of_known (d : gmap (string * string) entry) service_name cb nodeid ann_d :
  (cb, [PyStr nodeid; ann_d]) ∈ known (map_to_list d) service_name cb
  ↔ ∃ key when, d !! (service_name, nodeid) = Some (ann_d, key, when).
Proof.
  unfold known. rewrite list_elem_of_fmap. split.
  - intros ([[sn n] [[a k] t]] & [= <- <-] & [Hs Hin]%list_elem_of_filter).
    simpl in *. subst. apply elem_of_map_to_list in Hin. eauto.
  - intros (key & when & Hl).
    exists ((service_name, nodeid), (ann_d, key, when)). split; [done|].
    apply list_elem_of_filter. split; [done|]. by apply elem_of_map_to_list.
Qed.

(** What [subscribe_to] does, in full for the attributes it is about. *)
Lemma subscribe_to_effect (st : state) (service_name : string) (cb : callback)
    (args : list pyval) (kwargs : list (string * pyval)) :
  let st' := exec (subscribe_to service_name cb args kwargs) st in
  outcome (subscribe_to service_name cb args kwargs) st = Ok tt
  ∧ _current_announcements st'.1 = _current_announcements st.1
  ∧ _local_subscribers st'.1
    = _local_subscribers st.1 ++ [(service_name, cb, args, kwargs)]
  ∧ _subscribed_service_names st'.1
    = {[service_name]} ∪ _subscribed_service_names st.1
  ∧ eventual_queue st'.2
    = eventual_queue st.2
      ++ replay (py.iter_table (_current_announcements st.1)) service_name cb.
Proof.
  destruct st as [c w]. simpl. unfold exec, outcome, subscribe_to.
  rewrite run_bind. simpl. rewrite run_bind. simpl. rewrite run_bind.
  match goal with |- context [_maybe_subscribe ?s] =>
    destruct (maybe_subscribe_frame s) as (Hr & Ht & Hl & Hs & Hq);
    destruct (_maybe_subscribe s) as [[c' w'] r]
  end.
  simpl in *. subst r. rewrite run_bind. simpl.
  rewrite for_each_replay. simpl. by rewrite Ht, Hl, Hs, Hq.
Qed.

(** C4 (as amended). A call to [subscribe_to] returns, registers the
    subscriber and leaves the table as it is. It puts on the queue, and
    does not run, one call of the new callback for each entry of the
    table under that service name: each such entry once, with its node
    and its record, in the order in which the table is iterated. *)
Theorem subscribe_to_replays (st : state) (service_name : string) (cb : callback)
    (args : list pyval) (kwargs : list (string * pyval)) :
  let st' := exec (subscribe_to service_name cb args kwargs) st in
  let table := _current_announcements st.1 in
  outcome (subscribe_to service_name cb args kwargs) st = Ok tt
  ∧ _current_announcements st'.1 = table
  ∧ _local_subscribers st'.1
    = _local_subscribers st.1 ++ [(service_name, cb, args, kwargs)]
  ∧ service_name ∈ _subscribed_service_names st'.1
  ∧ ∃ calls,
      eventual_queue st'.2 = eventual_queue st.2 ++ calls
      ∧ delivery <$> calls = known (py.iter_table table) service_name cb
      ∧ delivery <$> calls ≡ₚ known (map_to_list table) service_name cb
      ∧ NoDup (delivery <$> calls)
      ∧ ∀ nodeid ann_d,
          (cb, [PyStr nodeid; ann_d]) ∈ delivery <$> calls
          ↔ ∃ key when, table !! (service_name, nodeid) = Some (ann_d, key, when).
Proof.
  intros st' table.
  destruct (subscribe_to_effect st service_name cb args kwargs)
    as (Hr & Ht & Hl & Hs & Hq).
  fold st' in Ht, Hl, Hs, Hq. fold table in Ht, Hq.
  split_and!; [done..| |].
  { rewrite Hs. by apply elem_of_union_l, elem_of_singleton. }
  exists (replay (py.iter_table table) service_name cb).
  rewrite delivery_replay.
  assert (known (py.iter_table table) service_name cb
          ≡ₚ known (map_to_list table) service_name cb)
    as Hperm by apply known_perm, iter_table_perm.
  split_and!; [done|done|done| |].
  - rewrite Hperm. apply known_NoDup.
  - intros nodeid ann_d. rewrite Hperm. apply elem_of_known.
Qed.

(** *** The legacy adapter *)

#[local] Instance by_slot_total {K} (slot : K → Z) : Total (by_slot slot).
Proof. intros a b. unfold by_slot. lia. Qed.

#[local] Instance by_slot_trans {K} (slot : K → Z) : Transitive (by_slot slot).
Proof. intros a b c. unfold by_slot. lia. Qed.

Lemma iter_set_perm (s : gset string) : py.iter_set s ≡ₚ elements s.
Proof. apply merge_sort_Permutation. Qed.

Lemma comprehension_perm {A B} (f : A → result B) (l l' : list A) (ys : list B) :
  l ≡ₚ l' → comprehension f l = Ok ys →
  ∃ ys', comprehension f l' = Ok ys' ∧ ys ≡ₚ ys'.
Proof.
  intros Hp. revert ys. induction Hp as [|x l l' Hp IH|x y l|l l' l'' Hp IH Hp' IH'];
    intros ys; simpl.
  - intros [= <-]. by exists [].
  - destruct (f x) as [b|]; simpl; [|done].
    destruct (comprehension f l) as [bs|]; simpl; [|done].
    intros [= <-]. destruct (IH bs eq_refl) as (bs' & -> & Hbs).
    exists (b :: bs'). by rewrite Hbs.
  - destruct (f y) as [b|]; simpl; [|done].
    destruct (f x) as [b'|]; simpl; [|done].
    destruct (comprehension f l) as [bs|]; simpl; [|done].
    intros [= <-]. exists (b' :: b :: bs). split; [done|]. apply perm_swap.
  - intros Hys. destruct (IH ys Hys) as (ys' & Hys' & Hperm).
    destruct (IH' ys' Hys') as (ys'' & Hys'' & Hperm').
    exists ys''. split; [done|]. by etrans.
Qed.

Lemma comprehension_length {A B} (f : A → result B) (l : list A) (ys : list B) :
  comprehension f l = Ok ys → length ys = length l.
Proof.
  revert ys. induction l as [|x l IH]; intros ys; simpl.
  - by intros [= <-].
  - destruct (f x) as [b|]; simpl; [|done].
    destruct (comprehension f l) as [bs|]; simpl; [|done].
    intros [= <-]. simpl. by rewrite (IH bs).
Qed.

(** C10. The adapter makes a set of the converted batch and hands that
    to [got_announcements] of what it wraps, whatever that is. So each
    converted announcement is handed over once, however many times the
    batch had it, and the announcements come in the order in which the
    set is gone through, which is not taken from the batch: a batch and
    a rearrangement of it hand over the same announcements. *)
Theorem remote_announce_as_set (announcements : list common.ann_v1)
    (anns : list string) (st : state) :
  comprehension common.convert_announcement_v1_to_v2 announcements = Ok anns →
  let handed := py.iter_set (list_to_set anns) in
  (∀ o : original,
     ClientAdapter_v1_remote_announce o announcements st
     = (original_log o (Log_received_v1 (length announcements));;
        original_got_announcements o (PyStr <$> handed)) st)
  ∧ remote_announce announcements st
    = (log (Log_received_v1 (length announcements));;
       got_announcements (PyStr <$> handed)) st
  ∧ NoDup handed
  ∧ (∀ s, s ∈ handed ↔ s ∈ anns)
  ∧ handed ≡ₚ remove_dups anns
  ∧ (length handed ≤ length announcements)%nat
  ∧ ∀ announcements',
      announcements ≡ₚ announcements' →
      ∃ anns',
        comprehension common.convert_announcement_v1_to_v2 announcements'
        = Ok anns'
        ∧ py.iter_set (list_to_set anns') ≡ₚ handed.
Proof.
  intros Hc handed.
  assert (handed ≡ₚ elements (list_to_set anns : gset string)) as Hperm
    by apply iter_set_perm.
  assert (∀ o : original,
            ClientAdapter_v1_remote_announce o announcements st
            = (original_log o (Log_received_v1 (length announcements));;
               original_got_announcements o (PyStr <$> handed)) st)
    as Hrun.
  { intros o. unfold ClientAdapter_v1_remote_announce. rewrite !run_bind.
    destruct (original_log o _ st) as [st' [[]|e]]; [|done].
    rewrite run_bind. unfold lift. by rewrite Hc. }
  assert (NoDup handed) as Hnd by (rewrite Hperm; apply NoDup_elements).
  assert (∀ s, s ∈ handed ↔ s ∈ anns) as Hin.
  { intros s. rewrite Hperm, elem_of_elements. apply elem_of_list_to_set. }
  split_and!.
  - exact Hrun.
  - apply Hrun.
  - exact Hnd.
  - exact Hin.
  - apply NoDup_Permutation; [done|apply NoDup_remove_dups|].
    intros s. by rewrite Hin, elem_of_remove_dups.
  - rewrite Hperm, <-(comprehension_length _ _ _ Hc).
    apply submseteq_length, NoDup_submseteq; [apply NoDup_elements|].
    intros s. rewrite elem_of_elements. apply elem_of_list_to_set.
  - intros announcements' Hp.
    destruct (comprehension_perm _ _ _ _ Hp Hc) as (anns' & Hc' & Hperm').
    exists anns'. split; [done|].
    apply NoDup_Permutation; [rewrite iter_set_perm; apply NoDup_elements|done|].
    intros s. rewrite iter_set_perm, elem_of_elements, elem_of_list_to_set, Hin.
    by rewrite Hperm'.
Qed.


(** *** A batch with bad signatures *)

Definition is_bad_signature {A} (r : result A) : bool :=
  match r with
  | Raise BadSignatureError => true
  | _ => false
  end.

Definition is_bad_signature_line (m : log_msg) : bool :=
  match m with
  | Log_bad_signature _ => true
  | _ => false
  end.

(** Two states that differ at most by lines of the log about bad
    signatures. *)
Definition same_but_log (st st' : state) : Prop :=
  st.1 = st'.1
  ∧ eventual_queue st.2 = eventual_queue st'.2
  ∧ remote_calls st.2 = remote_calls st'.2
  ∧ clock st.2 = clock st'.2
  ∧ filter (λ m, is_bad_signature_line m = false) (log_out st.2)
    = filter (λ m, is_bad_signature_line m = false) (log_out st'.2).

(** A computation that such a difference does not sway. *)
Definition blind_to_log {A} (m : M A) : Prop :=
  ∀ st st', same_but_log st st' →
    same_but_log (m st).1 (m st').1 ∧ (m st).2 = (m st').2.

Lemma blind_ret {A} (a : A) : blind_to_log (mret a : M A).
Proof. by intros st st' H. Qed.

Lemma blind_raise {A} (e : exn) : blind_to_log (raise e : M A).
Proof. by intros st st' H. Qed.

Lemma blind_lift {A} (r : result A) : blind_to_log (lift r).
Proof. by intros st st' H. Qed.

Lemma blind_get_self : blind_to_log get_self.
Proof. intros st st' H. split; [done|]. simpl. by destruct H as [-> _]. Qed.

Lemma blind_modify_self f : blind_to_log (modify_self f).
Proof.
  intros [c w] [c' w'] (Hc & Hq & Hr & Hk & Hl). simpl in *. subst c'.
  by repeat split.
Qed.

Lemma blind_log m : blind_to_log (log m).
Proof.
  intros [c w] [c' w'] (Hc & Hq & Hr & Hk & Hl). simpl in *.
  repeat split; try done. simpl. by rewrite !filter_app, Hl.
Qed.

Lemma blind_eventually cb args kwargs : blind_to_log (eventually cb args kwargs).
Proof.
  intros [c w] [c' w'] (Hc & Hq & Hr & Hk & Hl). simpl in *.
  repeat split; try done. simpl. by rewrite Hq.
Qed.

Lemma blind_now : blind_to_log now.
Proof.
  intros [c w] [c' w'] (Hc & Hq & Hr & Hk & Hl). simpl in *.
  rewrite Hk. by repeat split.
Qed.

Lemma blind_bind {A B} (m : M A) (k : A → M B) :
  blind_to_log m → (∀ a, blind_to_log (k a)) → blind_to_log (m ≫= k).
Proof.
  intros Hm Hk st st' H. rewrite !run_bind. destruct (Hm st st' H) as [H' Hr].
  destruct (m st) as [st1 r], (m st') as [st1' r']. simpl in *. subst r'.
  destruct r as [a|e]; [by apply Hk | done].
Qed.

Lemma blind_for_each {A} (l : list A) (body : A → M unit) :
  (∀ x, blind_to_log (body x)) → blind_to_log (for_each l body).
Proof.
  intros Hb. induction l as [|x l IH]; simpl.
  - apply blind_ret.
  - apply blind_bind; [apply Hb | intros _; apply IH].
Qed.

Create HintDb blind discriminated.

#[local] Hint Resolve blind_ret blind_raise blind_lift blind_get_self
  blind_modify_self blind_log blind_eventually blind_now : blind.

#[local] Ltac blind_step :=
  lazymatch goal with
  | |- blind_to_log (_ ≫= _) => apply blind_bind; [|intros ?]
  | |- blind_to_log (for_each _ _) => apply blind_for_each; intros ?
  | |- blind_to_log (if ?b then _ else _) => destruct b
  | |- blind_to_log (match ?x with _ => _ end) => destruct x
  | |- blind_to_log _ => solve [auto with blind]
  end.

Lemma blind_process_announcement ann_d key :
  blind_to_log (_process_announcement ann_d key).
Proof. unfold _process_announcement, count. repeat blind_step. Qed.

(** The body of the loop of [got_announcements]. *)
Definition receive (ann_s : pyval) : M unit :=
  match common.unsign ann_s with
  | Raise BadSignatureError => log (Log_bad_signature ann_s)
  | Raise e => raise e
  | Ok (ann_d, key) => _process_announcement ann_d key
  end.

Lemma blind_receive ann_s : blind_to_log (receive ann_s).
Proof.
  unfold receive. destruct (common.unsign ann_s) as [[ann_d key]|[]];
    auto using blind_process_announcement with blind.
Qed.

Lemma receive_bad_signature ann_s st :
  is_bad_signature (common.unsign ann_s) = true →
  same_but_log (receive ann_s st).1 st ∧ (receive ann_s st).2 = Ok tt.
Proof.
  unfold receive. destruct (common.unsign ann_s) as [[ann_d key]|[]]; try done.
  intros _. destruct st as [c w]. repeat split; try done. simpl.
  rewrite filter_app. simpl. by rewrite app_nil_r.
Qed.

Lemma same_but_log_trans st1 st2 st3 :
  same_but_log st1 st2 → same_but_log st2 st3 → same_but_log st1 st3.
Proof.
  intros (H1 & H2 & H3 & H4 & H5) (H1' & H2' & H3' & H4' & H5').
  repeat split; congruence.
Qed.

(** The survivors of a batch: what does not fail on a bad signature, in
    the order of the batch. *)
Definition survivors (batch : list pyval) : list pyval :=
  filter (λ a, is_bad_signature (common.unsign a) = false) batch.

Lemma for_each_survivors batch st st' :
  same_but_log st st' →
  same_but_log (for_each batch receive st).1 (for_each (survivors batch) receive st').1
  ∧ (for_each batch receive st).2 = (for_each (survivors batch) receive st').2.
Proof.
  unfold survivors. revert st st'. induction batch as [|a batch IH]; intros st st' H.
  - done.
  - rewrite filter_cons.
    change (for_each (a :: batch) receive st)
      with ((receive a ≫= λ _, for_each batch receive) st).
    rewrite run_bind. case_decide as Hbad.
    + change (for_each (a :: ?l) receive st')
        with ((receive a ≫= λ _, for_each l receive) st').
      rewrite run_bind.
      destruct (blind_receive a st st' H) as [Hs Hr].
      destruct (receive a st) as [st1 r], (receive a st') as [st1' r'].
      simpl in *. subst r'. destruct r; [by apply IH | done].
    + apply not_false_is_true in Hbad.
      destruct (receive_bad_signature a st Hbad) as [Hs Hr].
      destruct (receive a st) as [st1 r]. simpl in *. subst r.
      apply IH. by eapply same_but_log_trans.
Qed.



(** *** What the adapter hands over is not what [unsign] takes *)

Lemma length_chars s : length (py.chars s) = String.length s.
Proof. induction s as [|c s IH]; simpl; [done|]. by rewrite IH. Qed.

(** A string is unpacked into its characters, so only a string of three
    characters gets past the first line of [unsign]. *)
Lemma unsign_string s :
  String.length s ≠ 3%nat → common.unsign (PyStr s) = Raise ValueError.
Proof.
  intros Hs. unfold common.unsign, py.unpack3. simpl.
  rewrite <-length_chars in Hs.
  destruct (py.chars s) as [|a [|b [|c [|d l]]]]; simpl in *; done.
Qed.

(** The adapter hands [got_announcements] the strings that
    [convert_announcement_v1_to_v2] returns, and [unsign] unpacks what
    it is given as a triple. So a legacy batch that is not empty ends in
    [ValueError] at its first element, with nothing stored and nobody
    told, as soon as no converted announcement is three characters long,
    which the serialisation of a list of three items never is. *)
Theorem legacy_batch_is_refused (announcements : list common.ann_v1)
    (anns : list string) (st : state) :
  comprehension common.convert_announcement_v1_to_v2 announcements = Ok anns →
  anns ≠ [] →
  Forall (λ s, String.length s ≠ 3%nat) anns →
  let st' := exec (remote_announce announcements) st in
  outcome (remote_announce announcements) st = Raise ValueError
  ∧ _current_announcements st'.1 = _current_announcements st.1
  ∧ eventual_queue st'.2 = eventual_queue st.2.
Proof.
  intros Hc Hne Hlen.
  unfold exec, outcome, remote_announce, ClientAdapter_v1_remote_announce. simpl.
  rewrite Hc. destruct st as [c w]. rewrite run_bind. simpl. rewrite run_bind. simpl.
  assert (py.iter_set (list_to_set anns) ≡ₚ elements (list_to_set anns : gset string))
    as Hperm by apply iter_set_perm.
  destruct (py.iter_set (list_to_set anns)) as [|s handed] eqn:Hh.
  { exfalso. symmetry in Hperm. apply Permutation_nil_r in Hperm.
    apply elements_empty_inv in Hperm. destruct anns as [|a anns]; [done|].
    apply (not_elem_of_empty (C:=gset string) a). rewrite <-Hperm.
    rewrite elem_of_list_to_set. by left. }
  assert (s ∈ anns) as Hs.
  { apply (elem_of_list_to_set (C:=gset string)), elem_of_elements.
    rewrite <-Hperm. by left. }
  rewrite Forall_forall in Hlen.
  unfold got_announcements. rewrite run_bind. simpl. rewrite run_bind.
  by rewrite (unsign_string s (Hlen s Hs)).
Qed.


(** *** Computations that keep a relation *)

(** [m] takes every state to one that [R] relates it to, however it
    ends. *)
Definition stable {A} (R : relation state) (m : M A) : Prop :=
  ∀ st, R st (m st).1.

(** The states that agree on [proj]. *)
Definition same_on {T} (proj : state → T) : relation state :=
  λ st st', proj st = proj st'.

#[local] Instance same_on_preorder {T} (proj : state → T) : PreOrder (same_on proj).
Proof. split; unfold same_on; [by intros ?|intros ? ? ?; congruence]. Qed.

Section stable.
Context (R : relation state) `{!PreOrder R}.

Lemma stable_ret {A} (a : A) : stable R (mret a : M A).
Proof. by intros st. Qed.

Lemma stable_raise {A} (e : exn) : stable R (raise e : M A).
Proof. by intros st. Qed.

Lemma stable_lift {A} (r : result A) : stable R (lift r).
Proof. by intros st. Qed.

Lemma stable_get_self : stable R get_self.
Proof. by intros st. Qed.

Lemma stable_bind {A B} (m : M A) (k : A → M B) :
  stable R m → (∀ a, stable R (k a)) → stable R (m ≫= k).
Proof.
  intros Hm Hk st. rewrite run_bind. specialize (Hm st).
  destruct (m st) as [st' [a|e]]; simpl in *; [|done].
  etrans; [exact Hm | apply Hk].
Qed.

Lemma stable_for_each {A} (l : list A) (body : A → M unit) :
  (∀ x, stable R (body x)) → stable R (for_each l body).
Proof.
  intros Hb. induction l as [|x l IH]; simpl.
  - apply stable_ret.
  - apply stable_bind; [apply Hb | intros _; apply IH].
Qed.

Lemma stable_trap f : stable R (trap f).
Proof. destruct f; simpl; first [apply stable_ret | apply stable_raise]. Qed.

Lemma stable_run_all (ops : list op) :
  (∀ o, o ∈ ops → stable R (run o)) → ∀ st, R st (run_all ops st).
Proof.
  induction ops as [|o ops IH]; intros Ho st; simpl; [done|].
  etrans; [apply (Ho o); by left|]. apply IH. intros o' Hin. apply Ho. by right.
Qed.

End stable.

(** One step of a proof that a method is stable: the structure of the
    method is followed down to the assignments and the actions on the
    world, which are left to be checked against the relation. *)
#[local] Ltac stable_step :=
  lazymatch goal with
  | |- stable _ (_ ≫= _) => apply stable_bind; [apply _| |intros ?]
  | |- stable _ (for_each _ _) => apply stable_for_each; [apply _|intros ?]
  | |- stable _ (mret _) => apply stable_ret; apply _
  | |- stable _ (raise _) => apply stable_raise; apply _
  | |- stable _ (lift _) => apply stable_lift; apply _
  | |- stable _ get_self => apply stable_get_self; apply _
  | |- stable _ (trap _) => apply stable_trap; apply _
  | |- stable _ (callRemote _) => unfold callRemote
  | |- stable _ (if ?b then _ else _) => destruct b
  | |- stable _ (match ?x with _ => _ end) => destruct x
  end.

#[local] Ltac unfold_methods :=
  unfold startService, connect_failed, _got_introducer,
    _got_versioned_introducer, _got_error, _disconnected, subscribe_to,
    _debug_retired, _subscribe_handle_v1, _publish_stub_client,
    _handle_v1_publisher, remote_announce_v2, remote_announce,
    ClientAdapter_v1_remote_announce, original_log, original_got_announcements,
    remote_set_encoding_parameters, publish, got_announcements,
    _process_announcement, _maybe_publish, _maybe_subscribe.

(** The leaves, for a relation that is an agreement on some attributes. *)
#[local] Ltac same_on_leaf :=
  unfold log, eventually, callRemote, count, outstanding, now, modify_self,
    modify_world;
  intros [? ?]; unfold same_on; simpl; try done.

#[local] Ltac same_on_auto := unfold_methods; repeat stable_step; same_on_leaf.

(** *** Inbound announcements and the outbound side *)

(** What the handling of inbound announcements has no business with:
    every attribute but the table and the counters, and the messages
    sent to the introducer. *)
Definition outbound_side (st : state) :=
  (init st.1, _stub_client_furl st.1, _published_announcements st.1,
   _publisher st.1, _local_subscribers st.1, _subscribed_service_names st.1,
   _subscriptions st.1, encoding_parameters st.1, _debug_outstanding st.1,
   _introducer_error st.1, remote_calls st.2).

Lemma process_announcement_outbound ann_d key :
  stable (same_on outbound_side) (_process_announcement ann_d key).
Proof. same_on_auto. Qed.

Lemma got_announcements_outbound announcements :
  stable (same_on outbound_side) (got_announcements announcements).
Proof. same_on_auto. Qed.

(** Announcements that come in change nothing of the outbound side of
    the client, whether the call returns or raises: the publisher, the
    announcements published, the local subscribers, the service names
    subscribed to and the subscriptions sent, the stub client, the
    encoding parameters, the count of calls outstanding and the error of
    the introducer are as before, and no message is sent to the
    introducer. *)
Theorem announcements_leave_the_outbound_side (st : state) :
  (∀ announcements,
     outbound_side (exec (remote_announce_v2 announcements) st) = outbound_side st)
  ∧ (∀ announcements,
       outbound_side (exec (remote_announce announcements) st) = outbound_side st)
  ∧ (∀ announcements,
       outbound_side (exec (got_announcements announcements) st) = outbound_side st).
Proof.
  split_and!; intros announcements; symmetry.
  - assert (stable (same_on outbound_side) (remote_announce_v2 announcements)) as H
      by same_on_auto. apply H.
  - assert (stable (same_on outbound_side) (remote_announce announcements)) as H
      by same_on_auto. apply H.
  - apply got_announcements_outbound.
Qed.

(** *** The two resynchronisations *)

(** The client but for its two counters of traffic. *)
Definition but_counters (c : IntroducerClient) : IntroducerClient :=
  set_debug_counts (λ _, 0) (set_debug_outstanding 0 c).

(** The loop of [_maybe_publish] over the announcements [anns], which
    is run on a connection. *)
Lemma maybe_publish_loop (anns : list string) (c : IntroducerClient) (w : world)
    (p : publisher) :
  _publisher c = Some p →
  ∃ c',
    for_each anns (λ ann,
      count outbound_message;;
      outstanding 1;;
      callRemote (Remote_publish_v2 ann)) (c, w)
    = ((c', set_remote_calls (remote_calls w ++ (Remote_publish_v2 <$> anns)) w),
       Ok tt)
    ∧ but_counters c' = but_counters c
    ∧ _debug_outstanding c' = _debug_outstanding c + Z.of_nat (length anns)
    ∧ ∀ k, _debug_counts c' k
           = _debug_counts c k
             + if decide (k = outbound_message) then Z.of_nat (length anns) else 0.
Proof.
  revert c w. induction anns as [|ann anns IH]; intros c w Hp.
  - exists c. simpl. rewrite app_nil_r. split_and!.
    + by destruct w.
    + done.
    + lia.
    + intros k. case_decide; lia.
  - simpl.
    match goal with |- context [for_each anns ?b] => set (loop := for_each anns b) end.
    run_M. run_M. rewrite Hp. subst loop.
    match goal with |- context [for_each anns _ (?c1, ?w1)] =>
      destruct (IH c1 w1 Hp) as (c' & Hrun & Hb & Ho & Hc)
    end.
    exists c'. rewrite Hrun. simpl in *. split_and!.
    + by rewrite <-app_assoc.
    + done.
    + lia.
    + intros k. rewrite Hc. repeat case_decide; lia.
Qed.

Lemma filter_agree {A} (P Q : A → Prop) `{!∀ x, Decision (P x)}
    `{!∀ x, Decision (Q x)} (l : list A) :
  (∀ x, x ∈ l → P x ↔ Q x) → filter P l = filter Q l.
Proof.
  induction l as [|a l IH]; intros Hl; [done|].
  rewrite !filter_cons. rewrite IH by (intros x Hx; apply Hl; by right).
  assert (P a ↔ Q a) as Ha by (apply Hl; by left).
  destruct (decide (P a)), (decide (Q a)); tauto.
Qed.

(** The loop of [_maybe_subscribe] over the service names [names],
    none of them twice, which is run on a connection. *)
Lemma maybe_subscribe_loop (names : list string) (c : IntroducerClient) (w : world)
    (p : publisher) :
  _publisher c = Some p →
  NoDup names →
  let new := filter (λ s, s ∉ _subscriptions c) names in
  for_each names (λ service_name,
    self ← get_self;
    if decide (service_name ∈ _subscriptions self) then mret tt
    else
      modify_self (λ c, set_subscriptions ({[service_name]} ∪ _subscriptions c) c);;
      outstanding 1;;
      callRemote (Remote_subscribe_v2 service_name (_my_subscriber_info self))) (c, w)
  = ((set_debug_outstanding (_debug_outstanding c + Z.of_nat (length new))
        (set_subscriptions (list_to_set new ∪ _subscriptions c) c),
      set_remote_calls
        (remote_calls w
         ++ ((λ s, Remote_subscribe_v2 s (_my_subscriber_info c)) <$> new)) w),
     Ok tt).
Proof.
  intros Hp Hnd. revert c w Hp.
  induction Hnd as [|x names Hx Hnd IH]; intros c w Hp new.
  - subst new. simpl. rewrite app_nil_r, Z.add_0_r, (left_id_L ∅ (∪)).
    by destruct c, w.
  - subst new. simpl. rewrite filter_cons.
    match goal with |- context [for_each names ?b] => set (loop := for_each names b) end.
    run_M.
    destruct (decide (x ∈ _subscriptions c)) as [Hin|Hout].
    + subst loop. rewrite decide_False by (by intros H; apply H). by apply IH.
    + rewrite decide_True by done. run_M. run_M. rewrite Hp. subst loop. simpl.
      rewrite IH by done. simpl.
      assert (filter (λ s, s ∉ {[x]} ∪ _subscriptions c) names
              = filter (λ s, s ∉ _subscriptions c) names) as ->.
      { apply filter_agree. intros s Hs.
        rewrite not_elem_of_union, not_elem_of_singleton.
        split; [tauto|]. intros Hsub. split; [by intros ->|done]. }
      set (new := filter (λ s, s ∉ _subscriptions c) names).
      replace ({[x]} ∪ list_to_set new ∪ _subscriptions c)
        with (list_to_set new ∪ ({[x]} ∪ _subscriptions c))
        by (by rewrite (assoc_L (∪)), (comm_L (∪) (list_to_set new))).
      replace (_debug_outstanding c + Z.of_nat (S (length new)))
        with (_debug_outstanding c + 1 + Z.of_nat (length new)) by lia.
      rewrite <-app_assoc. by destruct c, w.
Qed.

Lemma iter_set_NoDup (s : gset string) : NoDup (py.iter_set s).
Proof. rewrite iter_set_perm. apply NoDup_elements. Qed.

Lemma elem_of_iter_set (s : gset string) x : x ∈ py.iter_set s ↔ x ∈ s.
Proof. by rewrite iter_set_perm, elem_of_elements. Qed.

Lemma iter_dict_perm {V} (d : gmap string V) : py.iter_dict d ≡ₚ map_to_list d.
Proof. apply merge_sort_Permutation. Qed.

(** The service names whose subscription is still to be sent. *)
Definition to_subscribe (c : IntroducerClient) : list string :=
  filter (λ s, s ∉ _subscriptions c) (py.iter_set (_subscribed_service_names c)).

(** The announcements to publish, as [_maybe_publish] meets them. *)
Definition to_publish (c : IntroducerClient) : list string :=
  (py.iter_dict (_published_announcements c)).*2.

Lemma to_subscribe_spec c :
  NoDup (to_subscribe c)
  ∧ (∀ s, s ∈ to_subscribe c
          ↔ s ∈ _subscribed_service_names c ∧ s ∉ _subscriptions c)
  ∧ list_to_set (to_subscribe c) ∪ _subscriptions c
    = _subscribed_service_names c ∪ _subscriptions c.
Proof.
  unfold to_subscribe.
  assert (∀ s, s ∈ filter (λ s, s ∉ _subscriptions c)
                     (py.iter_set (_subscribed_service_names c))
               ↔ s ∈ _subscribed_service_names c ∧ s ∉ _subscriptions c) as Hin.
  { intros s. rewrite list_elem_of_filter, elem_of_iter_set. tauto. }
  split_and!.
  - apply NoDup_filter, iter_set_NoDup.
  - exact Hin.
  - apply set_eq. intros s.
    rewrite !elem_of_union, elem_of_list_to_set, Hin.
    destruct (decide (s ∈ _subscriptions c)); tauto.
Qed.

Lemma to_publish_perm c :
  to_publish c ≡ₚ (map_to_list (_published_announcements c)).*2.
Proof. unfold to_publish. by rewrite iter_dict_perm. Qed.

Lemma maybe_subscribe_effect (c : IntroducerClient) (w : world) :
  _maybe_subscribe (c, w)
  = match _publisher c with
    | None => ((c, set_log_out (log_out w ++ [Log_no_introducer_subscribe]) w), Ok tt)
    | Some _ =>
        ((set_debug_outstanding
            (_debug_outstanding c + Z.of_nat (length (to_subscribe c)))
            (set_subscriptions (_subscribed_service_names c ∪ _subscriptions c) c),
          set_remote_calls
            (remote_calls w
             ++ ((λ s, Remote_subscribe_v2 s (_my_subscriber_info c))
                 <$> to_subscribe c)) w),
         Ok tt)
    end.
Proof.
  unfold _maybe_subscribe.
  change ((get_self ≫= ?k) (c, w)) with (k c (c, w)). simpl.
  destruct (_publisher c) as [p|] eqn:Hp; [|done].
  rewrite (maybe_subscribe_loop _ _ _ p) by (done || apply iter_set_NoDup).
  fold (to_subscribe c).
  by destruct (to_subscribe_spec c) as (_ & _ & ->).
Qed.

Lemma maybe_publish_effect (c : IntroducerClient) (w : world) :
  match _publisher c with
  | None =>
      _maybe_publish (c, w)
      = ((c, set_log_out (log_out w ++ [Log_no_introducer_publish]) w), Ok tt)
  | Some _ =>
      ∃ c',
        _maybe_publish (c, w)
        = ((c', set_remote_calls
                  (remote_calls w ++ (Remote_publish_v2 <$> to_publish c)) w),
           Ok tt)
        ∧ but_counters c' = but_counters c
        ∧ _debug_outstanding c'
          = _debug_outstanding c + Z.of_nat (length (to_publish c))
        ∧ ∀ k, _debug_counts c' k
               = _debug_counts c k
                 + if decide (k = outbound_message)
                   then Z.of_nat (length (to_publish c)) else 0
  end.
Proof.
  unfold _maybe_publish.
  change ((get_self ≫= ?k) (c, w)) with (k c (c, w)). simpl.
  destruct (_publisher c) as [p|] eqn:Hp; [|done].
  by apply (maybe_publish_loop _ _ _ p).
Qed.

(** What is the same in two clients that differ by their counters. *)
Lemma but_counters_fields c c' :
  but_counters c' = but_counters c →
  init c' = init c ∧ _stub_client_furl c' = _stub_client_furl c
  ∧ _published_announcements c' = _published_announcements c
  ∧ _publisher c' = _publisher c
  ∧ _local_subscribers c' = _local_subscribers c
  ∧ _subscribed_service_names c' = _subscribed_service_names c
  ∧ _subscriptions c' = _subscriptions c
  ∧ _current_announcements c' = _current_announcements c
  ∧ encoding_parameters c' = encoding_parameters c
  ∧ _introducer_error c' = _introducer_error c.
Proof.
  intros H. split_and!.
  - exact (f_equal init H).
  - exact (f_equal _stub_client_furl H).
  - exact (f_equal _published_announcements H).
  - exact (f_equal _publisher H).
  - exact (f_equal _local_subscribers H).
  - exact (f_equal _subscribed_service_names H).
  - exact (f_equal _subscriptions H).
  - exact (f_equal _current_announcements H).
  - exact (f_equal encoding_parameters H).
  - exact (f_equal _introducer_error H).
Qed.

Lemma client_eq (c c' : IntroducerClient) :
  init c = init c' → _stub_client_furl c = _stub_client_furl c' →
  _published_announcements c = _published_announcements c' →
  _publisher c = _publisher c' → _local_subscribers c = _local_subscribers c' →
  _subscribed_service_names c = _subscribed_service_names c' →
  _subscriptions c = _subscriptions c' →
  _current_announcements c = _current_announcements c' →
  encoding_parameters c = encoding_parameters c' →
  _debug_counts c = _debug_counts c' → _debug_outstanding c = _debug_outstanding c' →
  _introducer_error c = _introducer_error c' → c = c'.
Proof. destruct c, c'; simpl. by intros -> -> -> -> -> -> -> -> -> -> -> ->. Qed.

Definition needed : string := "http://allmydata.org/tahoe/protocols/introducer/v1".

(** [_got_versioned_introducer] on an introducer that has the version
    needed. *)
Lemma got_versioned_introducer_effect (p : publisher) (st : state) :
  needed ∈ version p →
  let st' := exec (_got_versioned_introducer p) st in
  outcome (_got_versioned_introducer p) st = Ok tt
  ∧ but_counters (set_subscriptions ∅ (set_publisher None st'.1))
    = but_counters (set_subscriptions ∅ (set_publisher None st.1))
  ∧ _publisher st'.1 = Some p
  ∧ _subscriptions st'.1 = _subscribed_service_names st.1 ∪ _subscriptions st.1
  ∧ remote_calls st'.2
    = remote_calls st.2
      ++ (Remote_publish_v2 <$> to_publish st.1)
      ++ ((λ s, Remote_subscribe_v2 s (_my_subscriber_info st.1))
          <$> to_subscribe st.1)
  ∧ _debug_outstanding st'.1
    = _debug_outstanding st.1 + Z.of_nat (length (to_publish st.1))
      + Z.of_nat (length (to_subscribe st.1))
  ∧ (∀ k, _debug_counts st'.1 k
          = _debug_counts st.1 k
            + if decide (k = outbound_message)
              then Z.of_nat (length (to_publish st.1)) else 0)
  ∧ log_out st'.2 = log_out st.2 ++ [Log_got_version (version p)]
  ∧ eventual_queue st'.2 = eventual_queue st.2
  ∧ clock st'.2 = clock st.2.
Proof.
  intros Hv. destruct st as [c w]. unfold exec, outcome, _got_versioned_introducer.
  fold needed. rewrite decide_True by done.
  rewrite run_bind. simpl. rewrite run_bind. simpl. rewrite run_bind.
  match goal with |- context [_maybe_publish (?c1, ?w1)] =>
    pose proof (maybe_publish_effect c1 w1) as Hp; simpl in Hp;
    destruct Hp as (c' & -> & Hb & Ho & Hc)
  end.
  rewrite maybe_subscribe_effect.
  destruct (but_counters_fields _ _ Hb)
    as (Hi & Hstub & Hpub & Hpublisher & Hl & Hnames & Hsubs & Ht & He & Herr).
  simpl in *. rewrite Hpublisher. simpl.
  assert (to_subscribe c' = to_subscribe c) as Hts
    by (unfold to_subscribe; by rewrite Hnames, Hsubs).
  assert (_my_subscriber_info c' = _my_subscriber_info c) as Hinfo
    by (unfold _my_subscriber_info; by rewrite Hi).
  rewrite Hts, Hinfo, Hnames, Hsubs.
  split_and!; try done.
  - by apply client_eq.
  - by rewrite <-app_assoc.
  - rewrite Ho. unfold to_publish. simpl. lia.
Qed.


(** On an introducer that has the version needed,
    [_got_versioned_introducer] returns with the client connected, and
    sends first one [publish_v2] for each announcement published, then
    one [subscribe_v2], with the subscriber information of the client,
    for each service name subscribed to whose subscription has not been
    sent; these names are then counted as sent. Each message adds one to
    the calls outstanding and each publication one to
    [outbound_message]. The table, the queue of callbacks, the
    announcements published and the names subscribed to stay as they
    are. *)
Theorem connect_resynchronises (p : publisher) (st : state) :
  "http://allmydata.org/tahoe/protocols/introducer/v1"%string ∈ version p →
  let st' := exec (_got_versioned_introducer p) st in
  let published := (py.iter_dict (_published_announcements st.1)).*2 in
  let wanted :=
    filter (λ s, s ∉ _subscriptions st.1)
      (py.iter_set (_subscribed_service_names st.1)) in
  outcome (_got_versioned_introducer p) st = Ok tt
  ∧ _publisher st'.1 = Some p ∧ connected_to_introducer st'.1 = true
  ∧ remote_calls st'.2
    = remote_calls st.2
      ++ (Remote_publish_v2 <$> published)
      ++ ((λ s, Remote_subscribe_v2 s (_my_subscriber_info st.1)) <$> wanted)
  ∧ published ≡ₚ (map_to_list (_published_announcements st.1)).*2
  ∧ NoDup wanted
  ∧ (∀ s, s ∈ wanted
          ↔ s ∈ _subscribed_service_names st.1 ∧ s ∉ _subscriptions st.1)
  ∧ _subscriptions st'.1 = _subscribed_service_names st.1 ∪ _subscriptions st.1
  ∧ _debug_outstanding st'.1
    = _debug_outstanding st.1 + Z.of_nat (length published)
      + Z.of_nat (length wanted)
  ∧ _debug_counts st'.1 outbound_message
    = _debug_counts st.1 outbound_message + Z.of_nat (length published)
  ∧ _published_announcements st'.1 = _published_announcements st.1
  ∧ _subscribed_service_names st'.1 = _subscribed_service_names st.1
  ∧ _current_announcements st'.1 = _current_announcements st.1
  ∧ eventual_queue st'.2 = eventual_queue st.2.
Proof.
  intros Hv st' published wanted.
  destruct (got_versioned_introducer_effect p st Hv)
    as (Hr & Hb & Hp & Hs & Hc & Ho & Hn & _ & Hq & _).
  fold st' in Hb, Hp, Hs, Hc, Ho, Hn, Hq.
  destruct (but_counters_fields _ _ Hb)
    as (_ & _ & Hpub & _ & _ & Hnames & _ & Ht & _).
  destruct (to_subscribe_spec st.1) as (Hnd & Hin & _).
  split_and!; try done.
  - unfold connected_to_introducer. by rewrite Hp.
  - apply to_publish_perm.
Qed.

Lemma filter_all {A} (P : A → Prop) `{!∀ x, Decision (P x)} (l : list A) :
  (∀ x, x ∈ l → P x) → filter P l = l.
Proof.
  induction l as [|a l IH]; intros Hl; [done|].
  rewrite filter_cons_True by (apply Hl; by left).
  rewrite IH; [done|]. intros x Hx. apply Hl. by right.
Qed.

(** After a disconnection, the next connection sends every announcement
    published and a subscription for every service name subscribed to,
    each once, whatever had been sent on the connection that was lost;
    the subscriptions sent are then the service names subscribed to. *)
Theorem reconnect_resends_everything (p : publisher) (st : state) :
  "http://allmydata.org/tahoe/protocols/introducer/v1"%string ∈ version p →
  let st' := exec (_got_versioned_introducer p) (exec _disconnected st) in
  let published := (py.iter_dict (_published_announcements st.1)).*2 in
  let wanted := py.iter_set (_subscribed_service_names st.1) in
  remote_calls st'.2
  = remote_calls st.2
    ++ (Remote_publish_v2 <$> published)
    ++ ((λ s, Remote_subscribe_v2 s (_my_subscriber_info st.1)) <$> wanted)
  ∧ published ≡ₚ (map_to_list (_published_announcements st.1)).*2
  ∧ wanted ≡ₚ elements (_subscribed_service_names st.1)
  ∧ _subscriptions st'.1 = _subscribed_service_names st.1
  ∧ _publisher st'.1 = Some p
  ∧ _published_announcements st'.1 = _published_announcements st.1
  ∧ _subscribed_service_names st'.1 = _subscribed_service_names st.1
  ∧ _current_announcements st'.1 = _current_announcements st.1.
Proof.
  intros Hv st' published wanted.
  destruct (got_versioned_introducer_effect p (exec _disconnected st) Hv)
    as (_ & Hb & Hp & Hs & Hc & _).
  fold st' in Hb, Hp, Hs, Hc.
  destruct (but_counters_fields _ _ Hb)
    as (_ & _ & Hpub & _ & _ & Hnames & _ & Ht & _).
  destruct st as [c w]. simpl in *.
  assert (to_subscribe (set_subscriptions ∅ (set_publisher None c)) = wanted) as Hw.
  { unfold to_subscribe. simpl. apply filter_all. intros s _. apply not_elem_of_empty. }
  rewrite Hw in Hc. split_and!; try done.
  - apply to_publish_perm.
  - apply iter_set_perm.
  - rewrite Hs. apply (right_id_L ∅ (∪)).
Qed.

(** An introducer without the version needed makes
    [_got_versioned_introducer] raise [InsufficientVersionError] with a
    line in the log and nothing else done: the client stays as it was and
    nothing is sent. The errback of [_got_introducer] then records the
    failure in [_introducer_error]. No answer of the introducer, failure
    or not, makes the deferred of [_got_introducer] end in an exception. *)
Theorem old_introducer_is_recorded (p : publisher) (st : state) :
  "http://allmydata.org/tahoe/protocols/introducer/v1"%string ∉ version p →
  _got_versioned_introducer p st
  = ((st.1, set_log_out (log_out st.2 ++ [Log_got_version (version p)]) st.2),
     Raise InsufficientVersionError)
  ∧ _got_introducer_deferred (Ok p) st
    = ((set_introducer_error (Some InsufficientVersionError) st.1,
        set_log_out (log_out st.2 ++ [Log_got_version (version p)]) st.2),
       Ok tt)
  ∧ (∀ answer st0, outcome (_got_introducer_deferred answer) st0 = Ok tt)
  ∧ ∀ f, _got_introducer_deferred (Raise f) st
         = ((set_introducer_error (Some f) st.1, st.2), Ok tt).
Proof.
  intros Hv. destruct st as [c w].
  assert (_got_versioned_introducer p (c, w)
          = ((c, set_log_out (log_out w ++ [Log_got_version (version p)]) w),
             Raise InsufficientVersionError)) as Hrun.
  { unfold _got_versioned_introducer. rewrite decide_False by done. done. }
  split_and!.
  - exact Hrun.
  - unfold _got_introducer_deferred.
    change ((lift (Ok p) ≫= _got_versioned_introducer) (c, w))
      with (_got_versioned_introducer p (c, w)).
    by rewrite Hrun.
  - intros answer st0. unfold outcome, _got_introducer_deferred.
    destruct ((lift answer ≫= _got_versioned_introducer) st0) as [st1 [[]|f]] eqn:Hd;
      [|done].
    destruct answer as [p0|f]; [|done].
    change ((lift (Ok p0) ≫= _got_versioned_introducer) st0)
      with (_got_versioned_introducer p0 st0) in Hd.
    destruct (decide (needed ∈ version p0)) as [Hin|Hout].
    + destruct (got_versioned_introducer_effect p0 st0 Hin) as (Hr & _).
      unfold outcome in Hr. by rewrite Hd in Hr.
    + unfold _got_versioned_introducer in Hd. fold needed in Hd.
      rewrite decide_False in Hd by done. by destruct st0.
  - done.
Qed.

(** *** The subscriptions sent and the subscriptions wanted *)

(** On a connection every service name subscribed to has had its request
    sent, and without one none counts as sent. *)
Definition in_step (c : IntroducerClient) : Prop :=
  match _publisher c with
  | Some _ => _subscriptions c = _subscribed_service_names c
  | None => _subscriptions c = ∅
  end.

Definition link (st : state) :=
  (_publisher st.1, _subscriptions st.1, _subscribed_service_names st.1).

Lemma in_step_link st st' : link st = link st' → in_step st.1 → in_step st'.1.
Proof. unfold link, in_step. by intros [= -> -> ->]. Qed.

Lemma subscribe_to_run (service_name : string) (cb : callback)
    (args : list pyval) (kwargs : list (string * pyval)) (c : IntroducerClient)
    (w : world) :
  let c2 :=
    set_subscribed_service_names ({[service_name]} ∪ _subscribed_service_names c)
      (set_local_subscribers
         (_local_subscribers c ++ [(service_name, cb, args, kwargs)]) c) in
  let st3 := (_maybe_subscribe (c2, w)).1 in
  subscribe_to service_name cb args kwargs (c, w)
  = ((st3.1,
      set_eventual_queue
        (eventual_queue st3.2
         ++ replay (py.iter_table (_current_announcements c)) service_name cb)
        st3.2),
     Ok tt).
Proof.
  intros c2 st3. unfold subscribe_to.
  rewrite run_bind. simpl. rewrite run_bind. simpl. rewrite run_bind.
  fold c2. subst st3.
  destruct (maybe_subscribe_frame (c2, w)) as (Hr & Ht & _).
  destruct (_maybe_subscribe (c2, w)) as [[c3 w3] r]. simpl in *. subst r.
  rewrite run_bind. simpl. rewrite for_each_replay. by rewrite Ht.
Qed.

Lemma run_in_step (o : op) (st : state) :
  in_step st.1 → in_step (exec (run o) st).1.
Proof.
  intros Hst.
  assert (stable (same_on link) (run o) → in_step (exec (run o) st).1) as Hframe.
  { intros Hs. apply (in_step_link st); [apply Hs | done]. }
  destruct o; simpl; try (apply Hframe; simpl; by same_on_auto).
  - (* _got_versioned_introducer *)
    destruct (decide (needed ∈ version p)) as [Hin|Hout].
    + destruct (got_versioned_introducer_effect p st Hin)
        as (_ & Hb & Hp & Hs & _).
      destruct (but_counters_fields _ _ Hb) as (_ & _ & _ & _ & _ & Hn & _).
      simpl in Hn. unfold in_step in *. rewrite Hp, Hs, Hn.
      destruct (_publisher st.1); rewrite Hst.
      * apply (idemp_L (∪)).
      * apply (right_id_L ∅ (∪)).
    + unfold exec, _got_versioned_introducer. fold needed.
      rewrite decide_False by done. by destruct st.
  - (* _disconnected *)
    by destruct st.
  - (* subscribe_to *)
    destruct st as [c w]. unfold exec. rewrite subscribe_to_run. simpl.
    rewrite maybe_subscribe_effect. simpl. unfold in_step in *. simpl in *.
    destruct (_publisher c) eqn:Hp; simpl; rewrite Hp, Hst; [|done].
    by rewrite <-(assoc_L (∪)), (idemp_L (∪)).
Qed.

(** Through every sequence of calls, the subscriptions counted as sent
    are the service names subscribed to while the client is connected,
    and none while it is not. A client that has just been made is in
    that state. *)
Theorem subscriptions_stay_in_step (ops : list op) (st : state) :
  in_step st.1 →
  in_step (run_all ops st).1
  ∧ (connected_to_introducer (run_all ops st).1 = true →
     _subscriptions (run_all ops st).1
     = _subscribed_service_names (run_all ops st).1)
  ∧ (connected_to_introducer (run_all ops st).1 = false →
     _subscriptions (run_all ops st).1 = ∅)
  ∧ ∀ args, in_step (__init__ args).
Proof.
  intros Hst.
  assert (in_step (run_all ops st).1) as Hend.
  { revert st Hst. induction ops as [|o ops IH]; intros st Hst; simpl; [done|].
    by apply IH, run_in_step. }
  split_and!; [done| | |done].
  - unfold connected_to_introducer, in_step in *.
    destruct (_publisher (run_all ops st).1); [done|].
    intros Hc. apply bool_decide_eq_true in Hc. by destruct Hc.
  - unfold connected_to_introducer, in_step in *.
    destruct (_publisher (run_all ops st).1); [|done].
    intros Hc. apply bool_decide_eq_false in Hc. by destruct Hc.
Qed.

(** *** Subscribing and publishing on a connection *)

Lemma NoDup_only {A} (l : list A) (a : A) :
  NoDup l → (∀ x, x ∈ l ↔ x = a) → l = [a].
Proof.
  intros Hnd Hl. destruct l as [|b l].
  - exfalso. apply (not_elem_of_nil a). by apply Hl.
  - assert (b = a) as -> by (apply Hl; by left).
    apply NoDup_cons in Hnd as [Hb Hnd]. f_equal.
    destruct l as [|c l]; [done|]. exfalso. apply Hb.
    assert (c = a) as -> by (apply Hl; right; by left). by left.
Qed.

Lemma filter_none {A} (P : A → Prop) `{!∀ x, Decision (P x)} (l : list A) :
  (∀ x, x ∈ l → ¬ P x) → filter P l = [].
Proof.
  induction l as [|a l IH]; intros Hl; [done|].
  rewrite filter_cons_False by (apply Hl; by left).
  apply IH. intros x Hx. apply Hl. by right.
Qed.

(** With every earlier name already sent, the one name that
    [subscribe_to] can have to send is the new one. *)
Lemma to_subscribe_one (c : IntroducerClient) (service_name : string) :
  _subscriptions c ∪ {[service_name]} = _subscribed_service_names c →
  to_subscribe c
  = if decide (service_name ∈ _subscriptions c) then [] else [service_name].
Proof.
  intros Hn. destruct (to_subscribe_spec c) as (Hnd & Hin & _).
  case_decide as Hs.
  - apply filter_none. intros s Hs' Hout. apply Hout.
    apply elem_of_iter_set in Hs'. rewrite <-Hn in Hs'.
    apply elem_of_union in Hs' as [?|Hs']; [done|].
    apply elem_of_singleton in Hs'. by subst.
  - apply NoDup_only; [done|]. intros s. rewrite Hin, <-Hn.
    rewrite elem_of_union, elem_of_singleton. split.
    + intros [[?|?] ?]; done.
    + intros ->. split; [by right|done].
Qed.

(** On a connection, [subscribe_to] sends one [subscribe_v2], with the
    subscriber information of the client, when the service name is new,
    and nothing when a subscriber of that service was registered
    before; without a connection it sends nothing and writes one line to
    the log. *)
Theorem subscribe_to_requests (service_name : string) (cb : callback)
    (args : list pyval) (kwargs : list (string * pyval)) (st : state) :
  in_step st.1 →
  let st' := exec (subscribe_to service_name cb args kwargs) st in
  let request := Remote_subscribe_v2 service_name (_my_subscriber_info st.1) in
  in_step st'.1
  ∧ match _publisher st.1 with
    | Some _ =>
        remote_calls st'.2
        = remote_calls st.2
          ++ (if decide (service_name ∈ _subscribed_service_names st.1)
              then [] else [request])
        ∧ _debug_outstanding st'.1
          = _debug_outstanding st.1
            + (if decide (service_name ∈ _subscribed_service_names st.1)
               then 0 else 1)
        ∧ log_out st'.2 = log_out st.2
    | None =>
        remote_calls st'.2 = remote_calls st.2
        ∧ _debug_outstanding st'.1 = _debug_outstanding st.1
        ∧ log_out st'.2 = log_out st.2 ++ [Log_no_introducer_subscribe]
    end.
Proof.
  intros Hst st' request. split.
  { apply (run_in_step (Op_subscribe_to service_name cb args kwargs) st Hst). }
  subst st' request. destruct st as [c w]. unfold exec.
  rewrite subscribe_to_run. simpl. rewrite maybe_subscribe_effect. simpl.
  unfold in_step in Hst. simpl in Hst.
  destruct (_publisher c) as [p|] eqn:Hp; simpl; [|done].
  set (c2 := set_subscribed_service_names _ _).
  assert (to_subscribe c2
          = if decide (service_name ∈ _subscriptions c2) then [] else [service_name])
    as ->.
  { apply to_subscribe_one. subst c2. simpl. rewrite Hst.
    apply (comm_L (∪)). }
  subst c2. simpl. rewrite <-Hst. by case_decide.
Qed.

(** [publish] raises what [create_announcement] raises, and has then
    done nothing. Otherwise it puts the announcement under its service
    name, in place of an earlier one, and on a connection sends every
    announcement published so far again, each once; without a connection
    it sends nothing and writes one line to the log. *)
Theorem publish_spec (furl : pyval) (service_name remoteinterface_name : string)
    (signing_key : option SigningKey) (st : state) :
  let call := publish furl service_name remoteinterface_name signing_key in
  let st' := exec call st in
  match create_announcement st.1 furl service_name remoteinterface_name
          signing_key with
  | Raise e => call st = (st, Raise e)
  | Ok ann =>
      let published := <[service_name := ann]> (_published_announcements st.1) in
      let anns := (py.iter_dict published).*2 in
      outcome call st = Ok tt
      ∧ _published_announcements st'.1 = published
      ∧ anns ≡ₚ (map_to_list published).*2
      ∧ match _publisher st.1 with
        | Some _ =>
            remote_calls st'.2 = remote_calls st.2 ++ (Remote_publish_v2 <$> anns)
            ∧ _debug_outstanding st'.1
              = _debug_outstanding st.1 + Z.of_nat (size published)
            ∧ _debug_counts st'.1 outbound_message
              = _debug_counts st.1 outbound_message + Z.of_nat (size published)
            ∧ log_out st'.2 = log_out st.2
        | None =>
            remote_calls st'.2 = remote_calls st.2
            ∧ _debug_outstanding st'.1 = _debug_outstanding st.1
            ∧ _debug_counts st'.1 outbound_message
              = _debug_counts st.1 outbound_message
            ∧ log_out st'.2 = log_out st.2 ++ [Log_no_introducer_publish]
        end
  end.
Proof.
  intros call st'. subst call st'. destruct st as [c w]. unfold exec, outcome, publish.
  change ((get_self ≫= ?k) (c, w)) with (k c (c, w)). simpl.
  rewrite run_bind.
  destruct (create_announcement c furl service_name remoteinterface_name signing_key)
    as [ann|e]; simpl; [|done].
  rewrite run_bind. simpl.
  match goal with |- context [_maybe_publish (?c1, ?w1)] =>
    pose proof (maybe_publish_effect c1 w1) as Hp; simpl in Hp
  end.
  assert ((py.iter_dict (<[service_name:=ann]> (_published_announcements c))).*2
          ≡ₚ (map_to_list (<[service_name:=ann]> (_published_announcements c))).*2)
    as Hperm by (by rewrite iter_dict_perm).
  destruct (_publisher c) as [p|] eqn:Hpub.
  - destruct Hp as (c' & -> & Hb & Ho & Hc). simpl.
    destruct (but_counters_fields _ _ Hb) as (_ & _ & Hpa & _). simpl in Hpa.
    assert (length (to_publish
              (set_published_announcements
                 (<[service_name:=ann]> (_published_announcements c)) c))
            = size (<[service_name:=ann]> (_published_announcements c))) as Hlen.
    { unfold to_publish. simpl. rewrite Hperm, length_fmap.
      apply length_map_to_list. }
    rewrite Hlen in Ho, Hc. rewrite Hc. by split_and!.
  - rewrite Hp. simpl. done.
Qed.

(** *** The calls in flight *)

(** [_debug_outstanding] less the number of calls made. *)
Definition balance (st : state) : Z :=
  _debug_outstanding st.1 - Z.of_nat (length (remote_calls st.2)).

(** The failures that [f.trap(Violation, NameError)] lets through. *)
Definition trapped (f : exn) : bool :=
  match f with
  | Violation | NameError => true
  | _ => false
  end.

(** What [_subscribe_handle_v1] does, case by case: the call is counted
    before the publisher is asked for. *)
Lemma subscribe_handle_v1_run (f : exn) (service_name : string)
    (c : IntroducerClient) (w : world) :
  _subscribe_handle_v1 f service_name (c, w)
  = if trapped f then
      let counted := set_debug_outstanding (_debug_outstanding c + 1) c in
      let registered :=
        set_stub_client_furl (Some (registerReference_stub (init c))) counted in
      match _publisher c with
      | Some _ =>
          ((match _stub_client_furl c with
            | Some furl => if decide (furl = EmptyString) then registered else counted
            | None => registered
            end,
            set_remote_calls (remote_calls w ++ [Remote_subscribe service_name]) w),
           Ok tt)
      | None => ((counted, w), Raise AttributeError)
      end
    else ((c, w), Raise f).
Proof.
  unfold _subscribe_handle_v1.
  destruct f; try done; simpl; run_M; run_M;
    (destruct (_publisher c) as [p|] eqn:Hp; simpl; [|done]);
    (destruct (_stub_client_furl c) as [furl|] eqn:Hs; simpl; [|done]);
    by destruct (String.eqb_spec furl ""), (decide (furl = "")).
Qed.

(** What [_handle_v1_publisher] does, case by case. *)
Lemma handle_v1_publisher_run (f : exn) (ann : string)
    (c : IntroducerClient) (w : world) :
  _handle_v1_publisher f ann (c, w)
  = if trapped f then
      let logged := set_log_out (log_out w ++ [Log_fallback_publish_v1 f]) w in
      match common.convert_announcement_v2_to_v1 ann with
      | Raise e => ((c, logged), Raise e)
      | Ok ann_v1 =>
          let counted := set_debug_outstanding (_debug_outstanding c + 1) c in
          match _publisher c with
          | Some _ =>
              ((counted,
                set_remote_calls (remote_calls logged ++ [Remote_publish ann_v1]) logged),
               Ok tt)
          | None => ((counted, logged), Raise AttributeError)
          end
      end
    else ((c, w), Raise f).
Proof.
  unfold _handle_v1_publisher.
  destruct f; try done; simpl; run_M;
    (destruct (common.convert_announcement_v2_to_v1 ann) as [ann_v1|e]; simpl; [|done]);
    run_M; by destruct (_publisher c).
Qed.

Lemma maybe_subscribe_balance : stable (same_on balance) _maybe_subscribe.
Proof.
  intros [c w]. rewrite maybe_subscribe_effect. unfold same_on, balance.
  destruct (_publisher c); simpl; [|done]. rewrite length_app, length_fmap. lia.
Qed.

Lemma maybe_publish_balance : stable (same_on balance) _maybe_publish.
Proof.
  intros [c w]. pose proof (maybe_publish_effect c w) as H. unfold same_on, balance.
  destruct (_publisher c).
  - destruct H as (c' & -> & _ & Ho & _). simpl.
    rewrite Ho, length_app, length_fmap. lia.
  - by rewrite H.
Qed.

#[local] Ltac balance_step :=
  lazymatch goal with
  | |- stable _ _maybe_subscribe => apply maybe_subscribe_balance
  | |- stable _ _maybe_publish => apply maybe_publish_balance
  | |- _ => stable_step
  end.

Definition is_retired (o : op) : bool :=
  match o with
  | Op_debug_retired => true
  | _ => false
  end.

(** The answers that have come back among [ops]. *)
Definition retired (ops : list op) : nat :=
  length (filter (λ o, is_retired o = true) ops).

Definition is_fallback (o : op) : bool :=
  match o with
  | Op_subscribe_handle_v1 _ _ | Op_handle_v1_publisher _ _ => true
  | _ => false
  end.

(** A fallback that counts its call and then finds no publisher to
    send it to: the failure is one that the fallback takes, the
    announcement, for [_handle_v1_publisher], can be converted, and
    [_publisher] is [None]. *)
Definition stranded (o : op) (st : state) : bool :=
  match _publisher st.1, o with
  | None, Op_subscribe_handle_v1 f _ => trapped f
  | None, Op_handle_v1_publisher f ann =>
      trapped f
      && match common.convert_announcement_v2_to_v1 ann with
         | Ok _ => true
         | Raise _ => false
         end
  | _, _ => false
  end.

(** The fallbacks stranded in the course of [ops], from [st]. *)
Fixpoint strandings (ops : list op) (st : state) : nat :=
  match ops with
  | [] => 0
  | o :: ops => (if stranded o st then 1 else 0) + strandings ops (exec (run o) st)
  end.

Lemma run_balance_kept (o : op) :
  is_retired o = false → is_fallback o = false → stable (same_on balance) (run o).
Proof.
  destruct o; try done; intros _ _; simpl;
    unfold startService, connect_failed, _got_introducer,
      _got_versioned_introducer, _got_error, _disconnected, subscribe_to,
      _publish_stub_client, remote_announce_v2, remote_announce,
      ClientAdapter_v1_remote_announce, original_log, original_got_announcements,
      remote_set_encoding_parameters, publish, got_announcements,
      _process_announcement;
    repeat balance_step; same_on_leaf.
Qed.

Lemma run_balance (o : op) (st : state) :
  balance (exec (run o) st)
  = balance st - (if is_retired o then 1 else 0) + (if stranded o st then 1 else 0).
Proof.
  destruct st as [c w].
  destruct (is_retired o) eqn:Hr; [|destruct (is_fallback o) eqn:Hf].
  - destruct o; try done. unfold balance, stranded. simpl.
    destruct (_publisher c); simpl; lia.
  - destruct o; try done; unfold exec, stranded, run.
    + rewrite subscribe_handle_v1_run. unfold balance. simpl.
      destruct (trapped f), (_publisher c); simpl; try lia.
      rewrite length_app.
      destruct (_stub_client_furl c) as [furl|]; [destruct (decide (furl = ""))|];
        simpl; lia.
    + rewrite handle_v1_publisher_run. unfold balance. simpl.
      destruct (trapped f), (common.convert_announcement_v2_to_v1 ann),
        (_publisher c); simpl; try lia.
      rewrite length_app. simpl. lia.
  - pose proof (run_balance_kept o Hr Hf (c, w)) as Hs. unfold same_on in Hs.
    unfold exec. rewrite <- Hs.
    assert (stranded o (c, w) = false) as ->; [|lia].
    unfold stranded. simpl. destruct (_publisher c), o; done.
Qed.

Lemma strandings_le (ops : list op) (st : state) :
  (strandings ops st ≤ length (filter (λ o, is_fallback o = true) ops))%nat.
Proof.
  revert st. induction ops as [|o ops IH]; intros st; simpl; [lia|].
  specialize (IH (exec (run o) st)). rewrite filter_cons.
  assert (stranded o st = true → is_fallback o = true) as Hf.
  { unfold stranded. destruct (_publisher st.1), o; done. }
  destruct (stranded o st).
  - rewrite decide_True by auto. simpl. lia.
  - destruct (decide (is_fallback o = true)); simpl; lia.
Qed.

(** [_debug_outstanding] counts the calls in flight, and the
    fallbacks that found no publisher. Over any sequence of calls it
    grows by the number of messages sent to the introducer, less the
    number of answers retired by [_debug_retired], plus the number of
    fallbacks that were stranded: [_subscribe_handle_v1] and
    [_handle_v1_publisher] add one before they call the publisher, and
    without a publisher that call raises [AttributeError] with nothing
    sent. There are no more of these than there are fallbacks among the
    calls; with none, the counter is exactly the calls in flight. *)
Theorem outstanding_counts_calls_in_flight (ops : list op) (st : state) :
  let st' := run_all ops st in
  let sent :=
    Z.of_nat (length (remote_calls st'.2)) - Z.of_nat (length (remote_calls st.2)) in
  _debug_outstanding st'.1
  = _debug_outstanding st.1 + sent - Z.of_nat (retired ops)
    + Z.of_nat (strandings ops st)
  ∧ (strandings ops st ≤ length (filter (λ o, is_fallback o = true) ops))%nat
  ∧ (Forall (λ o, is_fallback o = false) ops →
     _debug_outstanding st'.1
     = _debug_outstanding st.1 + sent - Z.of_nat (retired ops)).
Proof.
  simpl.
  assert (_debug_outstanding (run_all ops st).1
          = _debug_outstanding st.1
            + (Z.of_nat (length (remote_calls (run_all ops st).2))
               - Z.of_nat (length (remote_calls st.2)))
            - Z.of_nat (retired ops) + Z.of_nat (strandings ops st)) as Heq.
  { revert st. induction ops as [|o ops IH]; intros st; simpl.
    - unfold retired. simpl. lia.
    - specialize (IH (exec (run o) st)). pose proof (run_balance o st) as Hb.
      unfold balance in Hb. unfold retired in *. rewrite filter_cons.
      destruct (is_retired o), (stranded o st); simpl in *; lia. }
  pose proof (strandings_le ops st) as Hle.
  split_and!; [done..|].
  intros Hall. rewrite Heq.
  assert (filter (λ o, is_fallback o = true) ops = []) as Hnone.
  { clear -Hall. induction Hall as [|o ops Ho _ IH]; [done|].
    rewrite filter_cons, decide_False by congruence. done. }
  rewrite Hnone in Hle. simpl in Hle. lia.
Qed.

(** *** What becomes of an announcement *)

(** The counter that [_process_announcement] adds to besides
    [inbound_announcement], when it returns; [None] when it raises. *)
Definition verdict (c : IntroducerClient) (ann_d : pyval) (key : option string)
  : option counter :=
  match py.getitem ann_d "service-name" ≫= py.str with
  | Raise _ => None
  | Ok service_name =>
      if decide (service_name ∈ _subscribed_service_names c) then
        match py.get ann_d "nickname" (PyStr "") ≫= py.encode_utf8,
              common.make_index ann_d key with
        | Ok _, Ok index =>
            if decide (stored_ann_d c index = ann_d)
            then Some duplicate_announcement
            else if decide (is_Some (_current_announcements c !! index))
                 then Some update
                 else Some new_announcement
        | _, _ => None
        end
      else Some wrong_service
  end.

Definition stores (v : option counter) : bool :=
  match v with
  | Some update | Some new_announcement => true
  | _ => false
  end.

#[local] Ltac verdict_cases :=
  split_and!;
  try first
    [ done
    | intros ?; repeat case_decide; simplify_eq; try done; lia
    | split; [done|by intros []]
    | lia ].

Lemma process_announcement_verdict (st : state) ann_d key :
  let st1 := exec (_process_announcement ann_d key) st in
  let v := verdict st.1 ann_d key in
  (∀ k, _debug_counts st1.1 k
        = _debug_counts st.1 k
          + (if decide (k = inbound_announcement) then 1 else 0)
          + (if decide (Some k = v) then 1 else 0))
  ∧ (outcome (_process_announcement ann_d key) st = Ok tt ↔ is_Some v)
  ∧ clock st1.2 = (clock st.2 + if stores v then 1 else 0)%nat
  ∧ (stores v = true ↔ is_Some (accepted st.1 ann_d key))
  ∧ (v = Some new_announcement →
     ∃ index, accepted st.1 ann_d key = Some index
              ∧ _current_announcements st.1 !! index = None)
  ∧ (v = Some update →
     ∃ index, accepted st.1 ann_d key = Some index
              ∧ is_Some (_current_announcements st.1 !! index)).
Proof.
  destruct st as [c w]. unfold accepted, verdict, exec, outcome, _process_announcement.
  rewrite nickname_to_unicode_id. simpl.
  destruct (py.getitem ann_d "service-name" ≫= py.str) as [sn|] eqn:Hsn;
    [|run_M; verdict_cases].
  destruct (decide (sn ∈ _subscribed_service_names c)) as [Hin|Hout].
  2: { destruct (py.get ann_d "nickname" (PyStr "") ≫= py.encode_utf8);
         [destruct (common.make_index ann_d key)|];
         run_M; rewrite decide_True by done; simpl; verdict_cases. }
  destruct (py.get ann_d "nickname" (PyStr "") ≫= py.encode_utf8) as [nick|];
    [|run_M; rewrite decide_False by (by intros H; apply H); simpl; verdict_cases].
  destruct (common.make_index ann_d key) as [index|] eqn:Hi;
    [|run_M; rewrite decide_False by (by intros H; apply H); simpl; verdict_cases].
  run_M. rewrite decide_False by (by intros H; apply H). simpl.
  unfold stored_ann_d. simpl. fold (stored_ann_d c index).
  destruct (decide (stored_ann_d c index = ann_d)) as [Hdup|Hnew]; simpl;
    [verdict_cases|].
  destruct (decide (is_Some (_current_announcements c !! index))) as [Hup|Hno]; simpl;
    rewrite for_each_notify; simpl; verdict_cases.
  - intros _. by exists index.
  - intros _. exists index. split; [done|]. by apply eq_None_not_Some.
Qed.

(** *** The counters of inbound announcements *)

(** [new_announcement] against the size of the table; [update] and
    [new_announcement] against the readings of the clock; and
    [inbound_announcement] against the four counters of what became of
    an announcement. *)
Definition fresh (st : state) : Z :=
  _debug_counts st.1 new_announcement
  - Z.of_nat (size (_current_announcements st.1)).

Definition timed (st : state) : Z :=
  _debug_counts st.1 update + _debug_counts st.1 new_announcement
  - Z.of_nat (clock st.2).

Definition unsorted (st : state) : Z :=
  _debug_counts st.1 inbound_announcement
  - (_debug_counts st.1 wrong_service + _debug_counts st.1 duplicate_announcement
     + _debug_counts st.1 update + _debug_counts st.1 new_announcement).

Definition tallies : relation state :=
  λ st st',
    fresh st = fresh st' ∧ timed st = timed st' ∧ unsorted st ≤ unsorted st'.

#[local] Instance tallies_preorder : PreOrder tallies.
Proof.
  split.
  - intros st. unfold tallies. lia.
  - intros st1 st2 st3. unfold tallies. lia.
Qed.

Definition tally (st : state) :=
  (_current_announcements st.1, clock st.2,
   _debug_counts st.1 inbound_announcement, _debug_counts st.1 wrong_service,
   _debug_counts st.1 duplicate_announcement, _debug_counts st.1 update,
   _debug_counts st.1 new_announcement).

Lemma stable_tally {A} (m : M A) : stable (same_on tally) m → stable tallies m.
Proof.
  intros Hm st. specialize (Hm st). unfold same_on, tally in Hm.
  injection Hm as Ht Hk H1 H2 H3 H4 H5.
  unfold tallies, fresh, timed, unsorted. rewrite Ht, Hk, H1, H2, H3, H4, H5. lia.
Qed.

Lemma process_announcement_tallies ann_d key :
  stable tallies (_process_announcement ann_d key).
Proof.
  intros st.
  destruct (process_announcement_verdict st ann_d key)
    as (Hc & _ & Hk & Hst & Hnew & Hup).
  destruct (process_announcement_effect st ann_d key) as (Heff & _).
  unfold tallies, fresh, timed, unsorted. unfold exec in *.
  rewrite !Hc, Hk.
  destruct (verdict st.1 ann_d key) as [[]|] eqn:Hv; simpl in *;
    repeat (case_decide; simplify_eq);
    try (destruct (accepted st.1 ann_d key) as [i|] eqn:Hacc;
         [assert (false = true) by (apply Hst; eauto); done|];
         destruct Heff as [-> _]; lia).
  - destruct (Hup eq_refl) as (index & Hacc & Hin).
    rewrite Hacc in Heff. destruct Heff as (-> & _).
    rewrite map_size_insert_Some by done. lia.
  - destruct (Hnew eq_refl) as (index & Hacc & Hout).
    rewrite Hacc in Heff. destruct Heff as (-> & _).
    rewrite map_size_insert_None by done. lia.
Qed.

#[local] Ltac unfold_callers :=
  unfold startService, connect_failed, _got_introducer,
    _got_versioned_introducer, _got_error, _disconnected, subscribe_to,
    _debug_retired, _subscribe_handle_v1, _publish_stub_client,
    _handle_v1_publisher, remote_announce_v2, remote_announce,
    ClientAdapter_v1_remote_announce, original_log, original_got_announcements,
    remote_set_encoding_parameters, publish, got_announcements,
    _maybe_publish, _maybe_subscribe.

#[local] Ltac tallies_step :=
  lazymatch goal with
  | |- stable _ (_process_announcement _ _) => apply process_announcement_tallies
  | |- stable _ (log _) => apply stable_tally; same_on_leaf
  | |- stable _ (count _) => apply stable_tally; same_on_leaf
  | |- _ => stable_step
  end.

Lemma run_tallies (o : op) : stable tallies (run o).
Proof.
  destruct o; simpl;
    try (apply stable_tally; by same_on_auto);
    unfold_callers; repeat tallies_step.
Qed.

(** Over every sequence of calls, [new_announcement] grows as the
    table does, [update] and [new_announcement] together grow as the
    clock is read, and [inbound_announcement] grows at least as much as
    the four counters of what became of an announcement. So, from a
    client that has just been made, [new_announcement] is the number of
    indices in the table. *)
Theorem counters_follow_the_table (ops : list op) (st : state) :
  let st' := run_all ops st in
  let counts := _debug_counts st'.1 in
  counts new_announcement - Z.of_nat (size (_current_announcements st'.1))
  = _debug_counts st.1 new_announcement
    - Z.of_nat (size (_current_announcements st.1))
  ∧ counts update + counts new_announcement - Z.of_nat (clock st'.2)
    = _debug_counts st.1 update + _debug_counts st.1 new_announcement
      - Z.of_nat (clock st.2)
  ∧ unsorted st ≤ unsorted st'
  ∧ ∀ args,
      let st0 := run_all ops (__init__ args, quiet) in
      _debug_counts st0.1 new_announcement
      = Z.of_nat (size (_current_announcements st0.1))
      ∧ _debug_counts st0.1 update + _debug_counts st0.1 new_announcement
        = Z.of_nat (clock st0.2)
      ∧ _debug_counts st0.1 wrong_service
        + _debug_counts st0.1 duplicate_announcement
        + _debug_counts st0.1 update + _debug_counts st0.1 new_announcement
        ≤ _debug_counts st0.1 inbound_announcement.
Proof.
  assert (∀ st0, tallies st0 (run_all ops st0)) as Hrun.
  { apply stable_run_all; [apply _|]. intros o _. apply run_tallies. }
  simpl. destruct (Hrun st) as (H1 & H2 & H3).
  unfold fresh, timed in *. split_and!; [lia|lia|done|].
  intros args. destruct (Hrun (__init__ args, quiet)) as (H1' & H2' & H3').
  unfold fresh, timed, unsorted in *. simpl in *.
  rewrite map_size_empty in H1'. lia.
Qed.

Lemma accepted_Some c ann_d key index :
  common.make_index ann_d key = Ok index →
  index.1 ∈ _subscribed_service_names c →
  (∃ nick_s, py.get ann_d "nickname" (PyStr "") ≫= py.encode_utf8 = Ok nick_s) →
  stored_ann_d c index ≠ ann_d →
  accepted c ann_d key = Some index
  ∧ verdict c ann_d key
    = Some (if decide (is_Some (_current_announcements c !! index))
            then update else new_announcement).
Proof.
  intros Hi Hin [nick_s Hnick] Hne. unfold accepted, verdict.
  rewrite (make_index_service_name _ _ _ Hi), Hnick, Hi.
  split.
  - rewrite decide_True by done. by rewrite decide_False.
  - rewrite decide_True by done. rewrite decide_False by done. by case_decide.
Qed.

(** A record of a service subscribed to that the table does not hold
    at its index is stored there with its key and the time, in place of
    what was there, and each local subscriber of the service is sent it
    once, in the order of subscription, with the node, the record and the
    arguments of the subscription. It counts as an update when the index
    was in the table, which keeps its size, and as a new announcement
    when it was not. *)
Theorem changed_record_is_stored_and_told (st : state) (ann_d : pyval)
    (key : option string) (index : string * string) :
  common.make_index ann_d key = Ok index →
  index.1 ∈ _subscribed_service_names st.1 →
  (∃ nick_s, py.get ann_d "nickname" (PyStr "") ≫= py.encode_utf8 = Ok nick_s) →
  stored_ann_d st.1 index ≠ ann_d →
  let st' := exec (_process_announcement ann_d key) st in
  let table := _current_announcements st.1 in
  let present := bool_decide (is_Some (table !! index)) in
  outcome (_process_announcement ann_d key) st = Ok tt
  ∧ _current_announcements st'.1
    = <[index := (ann_d, key, time_time (clock st.2))]> table
  ∧ eventual_queue st'.2
    = eventual_queue st.2
      ++ notifications (_local_subscribers st.1) index.1 index.2 ann_d
  ∧ clock st'.2 = S (clock st.2)
  ∧ (∀ k, _debug_counts st'.1 k
          = _debug_counts st.1 k
            + (if decide (k = inbound_announcement) then 1 else 0)
            + (if decide (k = if present then update else new_announcement)
               then 1 else 0))
  ∧ size (_current_announcements st'.1)
    = if present then size table else S (size table).
Proof.
  intros Hi Hin Hnick Hne st' table present.
  destruct (accepted_Some _ _ _ _ Hi Hin Hnick Hne) as [Hacc Hv].
  destruct (process_announcement_effect st ann_d key) as (Heff & _).
  destruct (process_announcement_verdict st ann_d key) as (Hc & _ & Hk & _).
  rewrite Hacc in Heff. rewrite Hv in Hc, Hk. fold st' in Heff, Hc, Hk.
  destruct Heff as (Ht & Hq & Hr). split_and!; try done.
  - rewrite Hk. by case_decide; simpl; lia.
  - intros k. rewrite Hc. subst present. fold table.
    destruct (decide (is_Some (table !! index))) as [Hs|Hs].
    + rewrite bool_decide_eq_true_2 by done. repeat case_decide; simplify_eq; done.
    + rewrite bool_decide_eq_false_2 by done. repeat case_decide; simplify_eq; done.
  - rewrite Ht. subst present. case_bool_decide as Hs.
    + by apply map_size_insert_Some.
    + apply map_size_insert_None. by apply eq_None_not_Some.
Qed.

(** An announcement of a service that nobody has subscribed to is
    counted and logged and nothing more: the table, the queue and the
    clock are left alone. It is not remembered, so that a subscriber of
    that service that comes later is told nothing of it. *)
Theorem unwanted_service_is_forgotten (st : state) (ann_d : pyval)
    (key : option string) (service_name : string) :
  py.getitem ann_d "service-name" ≫= py.str = Ok service_name →
  service_name ∉ _subscribed_service_names st.1 →
  let st' := exec (_process_announcement ann_d key) st in
  outcome (_process_announcement ann_d key) st = Ok tt
  ∧ _current_announcements st'.1 = _current_announcements st.1
  ∧ eventual_queue st'.2 = eventual_queue st.2
  ∧ clock st'.2 = clock st.2
  ∧ log_out st'.2 = log_out st.2 ++ [Log_wrong_service service_name]
  ∧ (∀ k, _debug_counts st'.1 k
          = _debug_counts st.1 k
            + (if decide (k = inbound_announcement) then 1 else 0)
            + (if decide (k = wrong_service) then 1 else 0))
  ∧ ∀ cb args kwargs,
      eventual_queue (exec (subscribe_to service_name cb args kwargs) st').2
      = eventual_queue (exec (subscribe_to service_name cb args kwargs) st).2.
Proof.
  intros Hsn Hout st'.
  assert (verdict st.1 ann_d key = Some wrong_service) as Hv.
  { unfold verdict. rewrite Hsn. by rewrite decide_False. }
  assert (accepted st.1 ann_d key = None) as Hacc.
  { unfold accepted. rewrite Hsn.
    destruct (py.get ann_d "nickname" (PyStr "") ≫= py.encode_utf8); [|done].
    destruct (common.make_index ann_d key); [|done]. by rewrite decide_False. }
  destruct (process_announcement_effect st ann_d key) as (Heff & _).
  destruct (process_announcement_verdict st ann_d key) as (Hc & Hr & Hk & _).
  rewrite Hacc in Heff. rewrite Hv in Hc, Hr, Hk. fold st' in Heff, Hc, Hk.
  destruct Heff as (Ht & Hq). split_and!; try done.
  - by apply Hr.
  - rewrite Hk. simpl. lia.
  - subst st'. destruct st as [c w]. unfold exec, _process_announcement.
    rewrite Hsn. run_M. by rewrite decide_True.
  - intros k. rewrite Hc. repeat case_decide; simplify_eq; done.
  - intros cb args kwargs.
    destruct (subscribe_to_effect st service_name cb args kwargs)
      as (_ & _ & _ & _ & ->).
    destruct (subscribe_to_effect st' service_name cb args kwargs)
      as (_ & _ & _ & _ & ->).
    by rewrite Ht, Hq.
Qed.

(** *** A batch that meets an exception *)

Lemma for_each_app {A} (l1 l2 : list A) (body : A → M unit) (st : state) :
  for_each (l1 ++ l2) body st
  = (for_each l1 body ≫= λ _, for_each l2 body) st.
Proof.
  revert st. induction l1 as [|x l1 IH]; intros st; simpl.
  - done.
  - rewrite !run_bind. destruct (body x st) as [st1 [[]|e]]; [|done].
    rewrite IH. by rewrite run_bind.
Qed.

Lemma got_announcements_run (announcements : list pyval) (st : state) :
  got_announcements announcements st
  = (count inbound_message ≫= λ _, for_each announcements receive) st.
Proof. done. Qed.

(** A batch is not gone through past its first element that raises
    anything but a bad signature. When [unsign] raises, the call ends
    with that exception in the state that the elements before had left.
    When [_process_announcement] raises, the call ends as that call of
    [_process_announcement] does, with the table and the queue as the
    elements before had left them; an unsigned record of a service
    subscribed to whose locator is not of the [pb://] form is such an
    element, and ends the call on the assertion. *)
Theorem batch_stops_at_first_exception (pre post : list pyval) (x : pyval)
    (st : state) :
  outcome (got_announcements pre) st = Ok tt →
  let st1 := exec (got_announcements pre) st in
  let batch := pre ++ x :: post in
  (∀ e, common.unsign x = Raise e → e ≠ BadSignatureError →
        got_announcements batch st = (st1, Raise e))
  ∧ (∀ ann_d key e,
       common.unsign x = Ok (ann_d, key) →
       outcome (_process_announcement ann_d key) st1 = Raise e →
       got_announcements batch st = _process_announcement ann_d key st1
       ∧ _current_announcements (exec (got_announcements batch) st).1
         = _current_announcements st1.1
       ∧ eventual_queue (exec (got_announcements batch) st).2
         = eventual_queue st1.2)
  ∧ (∀ ann_d service_name furl,
       common.unsign x = Ok (ann_d, None) →
       py.getitem ann_d "service-name" ≫= py.str = Ok service_name →
       service_name ∈ _subscribed_service_names st1.1 →
       (∃ nick_s,
          py.get ann_d "nickname" (PyStr "") ≫= py.encode_utf8 = Ok nick_s) →
       py.getitem ann_d "FURL" ≫= py.str = Ok furl →
       common.re_match_tubid furl = None →
       outcome (got_announcements batch) st = Raise AssertionError).
Proof.
  intros Hpre st1 batch.
  assert (∀ r, receive x st1 = r → r.2 ≠ Ok tt →
               got_announcements batch st = r) as Hstop.
  { intros r Hr Hne. subst batch st1. unfold exec, outcome in *.
    rewrite got_announcements_run in *. rewrite run_bind in *.
    destruct (count inbound_message st) as [st0 [[]|e]]; [|done].
    rewrite for_each_app, run_bind.
    destruct (for_each pre receive st0) as [st1 [[]|e]]; [|done]. simpl in *.
    rewrite run_bind, Hr. destruct r as [st2 [[]|e]]; done. }
  split_and!.
  - intros e Hu He. apply Hstop; [|done]. unfold receive. rewrite Hu.
    by destruct e.
  - intros ann_d key e Hu Hp.
    assert (got_announcements batch st = _process_announcement ann_d key st1) as Hrun.
    { apply Hstop; [by unfold receive; rewrite Hu|].
      unfold outcome in Hp. by rewrite Hp. }
    split; [done|]. unfold exec. rewrite Hrun.
    destruct (process_announcement_effect st1 ann_d key) as (Heff & _).
    destruct (accepted st1.1 ann_d key) as [index|].
    + destruct Heff as (_ & _ & Hr). congruence.
    + done.
  - intros ann_d service_name furl Hu Hsn Hin [nick_s Hnick] Hfurl Hm.
    assert (common.make_index ann_d None = Raise AssertionError) as Hi.
    { rewrite (common_spec.make_index_unsigned _ _ _ Hsn Hfurl).
      unfold common.get_tubid_string. by rewrite Hm. }
    assert ((_process_announcement ann_d None st1).2 = Raise AssertionError)
      as Hraise.
    { destruct st1 as [c w]. unfold _process_announcement.
      rewrite nickname_to_unicode_id, Hsn, Hnick, Hi. run_M.
      by rewrite decide_False by (by intros H; apply H). }
    unfold outcome. rewrite (Hstop (_process_announcement ann_d None st1)).
    + exact Hraise.
    + unfold receive. by rewrite Hu.
    + by rewrite Hraise.
Qed.

(** *** What a subscriber is called with *)

Lemma replay_calls entries service_name cb c :
  c ∈ replay entries service_name cb →
  call_cb c = cb ∧ length (call_args c) = 2%nat ∧ call_kwargs c = [].
Proof.
  induction entries as [|[[sn nodeid] [[ann_d key] when]] entries IH]; simpl.
  - by intros ?%elem_of_nil.
  - destruct (decide (sn = service_name)); simpl; [|done].
    intros [->|Hin]%elem_of_cons; [done|]. by apply IH.
Qed.

Lemma elem_of_notifications subs service_name nodeid ann_d cb args kwargs :
  (service_name, cb, args, kwargs) ∈ subs →
  Call cb ([PyStr nodeid; ann_d] ++ args) kwargs
  ∈ notifications subs service_name nodeid ann_d.
Proof.
  unfold notifications.
  induction subs as [|[[[sn cb'] args'] kwargs'] subs IH]; simpl.
  - by intros ?%elem_of_nil.
  - intros [[= <- <- <- <-]|Hin]%elem_of_cons.
    + rewrite decide_True by done. by left.
    + apply elem_of_app. right. by apply IH.
Qed.

(** What [subscribe_to] replays to the new callback is called with the
    node and the record and nothing else, whatever arguments were given
    with the subscription; an announcement that comes later is sent to
    the same callback with these arguments after the node and the
    record. *)
Theorem replay_leaves_out_the_extra_arguments (st : state) (service_name : string)
    (cb : callback) (args : list pyval) (kwargs : list (string * pyval)) :
  let st' := exec (subscribe_to service_name cb args kwargs) st in
  (∃ replayed,
     eventual_queue st'.2 = eventual_queue st.2 ++ replayed
     ∧ ∀ c, c ∈ replayed →
            call_cb c = cb ∧ length (call_args c) = 2%nat ∧ call_kwargs c = [])
  ∧ ∀ ann_d key index,
      common.make_index ann_d key = Ok index →
      index.1 = service_name →
      (∃ nick_s, py.get ann_d "nickname" (PyStr "") ≫= py.encode_utf8 = Ok nick_s) →
      stored_ann_d st'.1 index ≠ ann_d →
      Call cb ([PyStr index.2; ann_d] ++ args) kwargs
      ∈ eventual_queue (exec (_process_announcement ann_d key) st').2.
Proof.
  intros st'.
  destruct (subscribe_to_effect st service_name cb args kwargs)
    as (_ & Ht & Hl & Hs & Hq).
  fold st' in Ht, Hl, Hs, Hq. split.
  - eexists. split; [exact Hq|]. intros c. apply replay_calls.
  - intros ann_d key index Hi Hsn Hnick Hne.
    assert (index.1 ∈ _subscribed_service_names st'.1) as Hin.
    { rewrite Hs, Hsn. by apply elem_of_union_l, elem_of_singleton. }
    destruct (accepted_Some _ _ _ _ Hi Hin Hnick Hne) as [Hacc _].
    destruct (process_announcement_effect st' ann_d key) as (Heff & _).
    rewrite Hacc in Heff. destruct Heff as (_ & -> & _).
    apply elem_of_app. right. rewrite Hsn. apply elem_of_notifications.
    rewrite Hl. apply elem_of_app. right. by left.
Qed.

(** *** The fallbacks to a v1 introducer *)

(** [_subscribe_handle_v1] raises again a failure that is neither a
    [Violation] nor a [NameError], and has then done nothing. On these
    two it counts a call as outstanding and then calls the publisher.
    With a publisher, the legacy [subscribe] for the service name is
    sent and the stub client is registered when none is registered;
    nothing else changes. Without one, [self._publisher] is [None] and
    the call raises [AttributeError]: the counter has been raised, but
    nothing is sent and no stub client is registered. *)
Theorem subscribe_falls_back_to_v1 (f : exn) (service_name : string) (st : state) :
  let call := _subscribe_handle_v1 f service_name in
  let st' := exec call st in
  let registered := Some (registerReference_stub (init st.1)) in
  let counted := set_debug_outstanding (_debug_outstanding st.1 + 1) st.1 in
  (f ≠ Violation → f ≠ NameError → call st = (st, Raise f))
  ∧ (f = Violation ∨ f = NameError →
     match _publisher st.1 with
     | Some _ =>
         outcome call st = Ok tt
         ∧ remote_calls st'.2 = remote_calls st.2 ++ [Remote_subscribe service_name]
         ∧ _debug_outstanding st'.1 = _debug_outstanding st.1 + 1
         ∧ _stub_client_furl st'.1
           = match _stub_client_furl st.1 with
             | Some furl =>
                 if decide (furl = EmptyString) then registered else Some furl
             | None => registered
             end
         ∧ set_stub_client_furl None (set_debug_outstanding 0 st'.1)
           = set_stub_client_furl None (set_debug_outstanding 0 st.1)
         ∧ log_out st'.2 = log_out st.2
         ∧ eventual_queue st'.2 = eventual_queue st.2
     | None => call st = ((counted, st.2), Raise AttributeError)
     end).
Proof.
  intros call st' registered counted. subst call st' registered counted.
  destruct st as [c w]. unfold exec, outcome.
  rewrite subscribe_handle_v1_run. simpl. split.
  - intros H1 H2. by destruct f.
  - intros Hf. assert (trapped f = true) as -> by (by destruct Hf as [-> | ->]).
    destruct (_publisher c) as [p|]; simpl; [|done].
    destruct (_stub_client_furl c) as [furl|] eqn:Hs;
      [destruct (decide (furl = ""))|]; simpl;
      split_and!; first [done | by apply client_eq].
Qed.

(** A furl of the stub client that is not empty stays. *)
Definition stub_kept : relation state :=
  λ st st', ∀ furl, furl ≠ EmptyString →
    _stub_client_furl st.1 = Some furl → _stub_client_furl st'.1 = Some furl.

#[local] Instance stub_kept_preorder : PreOrder stub_kept.
Proof.
  split.
  - by intros st furl.
  - intros st1 st2 st3 H12 H23 furl Hne H1. by apply H23, H12.
Qed.

Lemma run_stub_kept (o : op) : stable stub_kept (run o).
Proof.
  assert (stable (same_on (λ st, _stub_client_furl st.1)) (run o)
          → stable stub_kept (run o)) as Hframe.
  { intros Hs st furl _. specialize (Hs st). unfold same_on in Hs. congruence. }
  destruct o; try (apply Hframe; simpl; by same_on_auto).
  intros [c w] furl Hne Hs. simpl in *. rewrite subscribe_handle_v1_run.
  destruct (trapped f), (_publisher c); simpl; try done.
  rewrite Hs. by rewrite decide_False.
Qed.

(** The locator of the stub client, once there, stays through every
    sequence of calls: a later fallback does not register another. *)
Theorem stub_client_is_registered_once (ops : list op) (st : state) (furl : string) :
  _stub_client_furl st.1 = Some furl → furl ≠ EmptyString →
  _stub_client_furl (run_all ops st).1 = Some furl.
Proof.
  intros Hs Hne.
  assert (stub_kept st (run_all ops st)) as Hk.
  { apply stable_run_all; [apply _|]. intros o _. apply run_stub_kept. }
  by apply Hk.
Qed.

(** The record that [create_announcement] signs. *)
Definition published_record (c : IntroducerClient) (furl : pyval)
    (service_name remoteinterface_name : string) : pyval :=
  PyDict (<["version" := PyInt 0]>
          (<["service-name" := PyStr service_name]>
          (<["FURL" := furl]>
          (<["remoteinterface-name" := PyStr remoteinterface_name]>
          (<["nickname" := PyStr (_nickname (init c))]>
          (<["app-versions" := PyDict (_app_versions (init c))]>
          (<["my-version" := PyStr (_my_version (init c))]>
          (<["oldest-supported" := PyStr (_oldest_supported (init c))]> ∅)))))))).

Lemma create_announcement_record c furl service_name remoteinterface_name signing_key :
  create_announcement c furl service_name remoteinterface_name signing_key
  = common.sign (published_record c furl service_name remoteinterface_name)
      signing_key ≫= dumps.
Proof. reflexivity. Qed.

Lemma published_record_fields c furl service_name remoteinterface_name :
  let ann_d := published_record c furl service_name remoteinterface_name in
  py.getitem ann_d "version" = Ok (PyInt 0)
  ∧ py.getitem ann_d "FURL" = Ok furl
  ∧ py.getitem ann_d "service-name" = Ok (PyStr service_name)
  ∧ py.getitem ann_d "remoteinterface-name" = Ok (PyStr remoteinterface_name)
  ∧ py.getitem ann_d "nickname" = Ok (PyStr (_nickname (init c)))
  ∧ py.getitem ann_d "my-version" = Ok (PyStr (_my_version (init c)))
  ∧ py.getitem ann_d "oldest-supported" = Ok (PyStr (_oldest_supported (init c)))
  ∧ py.get ann_d "nickname" (PyStr "") = Ok (PyStr (_nickname (init c))).
Proof. repeat split; reflexivity. Qed.

(** What [sign] returns for a record that [simplejson] writes as [msg]. *)
Definition signed (msg : string) (sk : option SigningKey) : pyval :=
  match sk with
  | None => PyList [PyStr msg; PyNone; PyNone]
  | Some k =>
      PyList [PyStr msg; PyStr ("v0-" +:+ b2a (sk_sign k msg));
              PyStr ("v0-" +:+ common_spec.verifying_key_token k)]
  end.

Lemma sign_signed (R : pyval) (sk : option SigningKey) (msg : string) :
  dumps R = Ok msg → pystr.is_ascii msg = true →
  common.sign R sk = Ok (signed msg sk).
Proof.
  intros Hd Ha. unfold common.sign. rewrite Hd. simpl.
  unfold pystr.str_encode_utf8. rewrite Ha. simpl. by destruct sk.
Qed.

Lemma unsign_signed (R : pyval) (sk : option SigningKey) (msg : string) :
  loads msg = Ok R → pystr.is_ascii msg = true →
  (∀ k, sk = Some k → common_spec.key_checks_out k msg) →
  common.unsign (signed msg sk) = Ok (R, common_spec.verifying_key_token <$> sk).
Proof.
  intros Hl Ha Hk. destruct sk as [k|]; simpl.
  - destruct (Hk k eq_refl) as (Hkey & Hsig & Hv).
    unfold common.unsign, common.check_signature. simpl.
    change ("" +:+ ?x)%string with x.
    rewrite Hkey. simpl. rewrite Hsig. simpl. rewrite Hv. simpl.
    unfold pystr.decode_utf8. rewrite (pystr_facts.is_ascii_utf8_valid _ Ha). simpl.
    rewrite !pystr_facts.startswith_nil. simpl. by rewrite Hl.
  - unfold common.unsign. simpl.
    unfold pystr.decode_utf8. rewrite (pystr_facts.is_ascii_utf8_valid _ Ha). simpl.
    by rewrite Hl.
Qed.

(** [_handle_v1_publisher] raises again a failure that is neither a
    [Violation] nor a [NameError], and has then done nothing. On these
    two it logs the fallback and converts the announcement; when the
    conversion fails its exception is raised and nothing is sent or
    counted. Otherwise it counts a call as outstanding and then calls
    the publisher: with a publisher the legacy [publish] is sent with
    the announcement converted; without one, [self._publisher] is [None]
    and the call raises [AttributeError], the counter raised and nothing
    sent. For an announcement that [create_announcement] made, signed or
    not, the tuple that the conversion gives is the locator, the service
    name, the interface name and the nickname and versions of the
    client. *)
Theorem publish_falls_back_to_v1 (f : exn) (ann : string) (st : state) :
  let call := _handle_v1_publisher f ann in
  let logged := set_log_out (log_out st.2 ++ [Log_fallback_publish_v1 f]) st.2 in
  (f ≠ Violation → f ≠ NameError → call st = (st, Raise f))
  ∧ (f = Violation ∨ f = NameError →
     match common.convert_announcement_v2_to_v1 ann with
     | Ok ann_v1 =>
         let counted := set_debug_outstanding (_debug_outstanding st.1 + 1) st.1 in
         match _publisher st.1 with
         | Some _ =>
             call st
             = ((counted,
                 set_remote_calls (remote_calls st.2 ++ [Remote_publish ann_v1])
                   logged),
                Ok tt)
         | None => call st = ((counted, logged), Raise AttributeError)
         end
     | Raise e => call st = ((st.1, logged), Raise e)
     end)
  ∧ ∀ furl service_name remoteinterface_name signing_key msg wire,
      let ann_d :=
        published_record st.1 (PyStr furl) service_name remoteinterface_name in
      pystr.is_ascii furl = true → pystr.is_ascii service_name = true →
      pystr.is_ascii remoteinterface_name = true →
      pystr.is_ascii (_my_version (init st.1)) = true →
      pystr.is_ascii (_oldest_supported (init st.1)) = true →
      common_spec.json_reads_back ann_d msg → pystr.is_ascii msg = true →
      common_spec.json_reads_back (signed msg signing_key) wire →
      create_announcement st.1 (PyStr furl) service_name remoteinterface_name
        signing_key = Ok wire
      ∧ common.convert_announcement_v2_to_v1 wire
        = Ok (furl, service_name, remoteinterface_name, _nickname (init st.1),
              _my_version (init st.1), _oldest_supported (init st.1)).
Proof.
  intros call logged. subst call logged. destruct st as [c w].
  rewrite handle_v1_publisher_run. cbv zeta. split_and!.
  - intros H1 H2. by destruct f.
  - intros Hf. assert (trapped f = true) as -> by (by destruct Hf as [-> | ->]).
    simpl. destruct (common.convert_announcement_v2_to_v1 ann); [|done].
    by destruct (_publisher c).
  - intros furl service_name ri_name sk msg wire Hf Hs Hr Hv Ho
      (Hd & Hl) Ha (Hd' & Hl'). simpl in *.
    set (ann_d := published_record c (PyStr furl) service_name ri_name) in *.
    split.
    + rewrite create_announcement_record. fold ann_d.
      rewrite (sign_signed _ _ _ Hd Ha). exact Hd'.
    + unfold common.convert_announcement_v2_to_v1. rewrite Hl'.
      assert (∃ sig pubkey, signed msg sk = PyList [PyStr msg; sig; pubkey])
        as (sig & pubkey & ->) by (destruct sk; simpl; eauto).
      simpl. rewrite Hl. simpl.
      destruct (published_record_fields c (PyStr furl) service_name ri_name)
        as (H1 & H2 & H3 & H4 & H5 & H6 & H7 & _).
      fold ann_d in H1, H2, H3, H4, H5, H6, H7.
      rewrite H1, H2, H3, H4, H5, H6, H7. simpl.
      by rewrite Hf, Hs, Hr, Hv, Ho.
Qed.

(** What [create_announcement] signs, [got_announcements] takes: the
    triple that [sign] returns for the record is one that [unsign]
    accepts, giving the record and the token of the key, or no key for
    an unsigned one; handed to a client that has subscribed to the
    service and does not hold that record, it is stored under its index
    and sent to each subscriber of the service. [create_announcement]
    returns the serialisation of that triple, a string, and this is not
    what [got_announcements] takes: handed the string as it is,
    [unsign] unpacks its characters and the call ends in [ValueError],
    with nothing stored and nobody told, unless the string is three
    characters long. *)
Theorem published_triple_is_delivered (c : IntroducerClient) (furl : string)
    (service_name remoteinterface_name : string) (sk : option SigningKey)
    (msg wire : string) :
  let ann_d := published_record c (PyStr furl) service_name remoteinterface_name in
  let key := common_spec.verifying_key_token <$> sk in
  let triple := signed msg sk in
  common_spec.json_reads_back ann_d msg → pystr.is_ascii msg = true →
  common_spec.json_reads_back triple wire →
  (∀ k, sk = Some k → common_spec.key_checks_out k msg) →
  common.sign ann_d sk = Ok triple
  ∧ create_announcement c (PyStr furl) service_name remoteinterface_name sk = Ok wire
  ∧ common.unsign triple = Ok (ann_d, key)
  ∧ (∀ (st : state) (index : string * string),
       common.make_index ann_d key = Ok index →
       service_name ∈ _subscribed_service_names st.1 →
       stored_ann_d st.1 index ≠ ann_d →
       let st' := exec (got_announcements [triple]) st in
       outcome (got_announcements [triple]) st = Ok tt
       ∧ index.1 = service_name
       ∧ _current_announcements st'.1
         = <[index := (ann_d, key, time_time (clock st.2))]>
             (_current_announcements st.1)
       ∧ eventual_queue st'.2
         = eventual_queue st.2
           ++ notifications (_local_subscribers st.1) service_name index.2 ann_d)
  ∧ (String.length wire ≠ 3%nat →
     common.unsign (PyStr wire) = Raise ValueError
     ∧ ∀ st : state,
         let st' := exec (got_announcements [PyStr wire]) st in
         outcome (got_announcements [PyStr wire]) st = Raise ValueError
         ∧ outcome (remote_announce_v2 [PyStr wire]) st = Raise ValueError
         ∧ _current_announcements st'.1 = _current_announcements st.1
         ∧ eventual_queue st'.2 = eventual_queue st.2).
Proof.
  intros ann_d key triple (Hd & Hl) Ha (Hd' & Hl') Hk. subst triple.
  assert (common.unsign (signed msg sk) = Ok (ann_d, key)) as Hu
    by (by apply unsign_signed).
  assert (common.sign ann_d sk = Ok (signed msg sk)) as Hsign
    by (by apply sign_signed).
  split_and!.
  - exact Hsign.
  - rewrite create_announcement_record. fold ann_d. rewrite Hsign. exact Hd'.
  - exact Hu.
  - intros st index Hi Hin Hne st'.
    destruct (published_record_fields c (PyStr furl) service_name remoteinterface_name)
      as (_ & _ & Hsn & _ & _ & _ & _ & Hnick).
    fold ann_d in Hsn, Hnick.
    pose proof (make_index_service_name _ _ _ Hi) as Hsn'. rewrite Hsn in Hsn'.
    assert (pystr.is_ascii service_name = true ∧ index.1 = service_name) as [Has Hi1].
    { simpl in Hsn'. destruct (pystr.is_ascii service_name); [|done].
      injection Hsn' as ->. done. }
    subst st'. destruct st as [c0 w0]. unfold exec, outcome.
    rewrite got_announcements_run, run_bind. simpl. rewrite run_bind.
    unfold receive. rewrite Hu.
    match goal with |- context [_process_announcement ann_d key ?s] =>
      set (st0 := s) end.
    destruct (accepted_Some st0.1 ann_d key index) as [Hacc _]; try done.
    { by rewrite Hi1. }
    { exists (_nickname (init c)). by rewrite Hnick. }
    destruct (process_announcement_effect st0 ann_d key) as (Heff & _).
    rewrite Hacc in Heff. destruct Heff as (Ht & Hq & Hr).
    unfold exec, outcome in *.
    destruct (_process_announcement ann_d key st0) as [st1 r]. simpl in *.
    subst r. simpl. rewrite <-Hi1. done.
  - intros Hlen. pose proof (unsign_string wire Hlen) as Hs. split; [done|].
    intros [c0 w0]. unfold exec, outcome, remote_announce_v2.
    rewrite run_bind. simpl.
    rewrite !got_announcements_run, !run_bind. simpl. rewrite !run_bind.
    unfold receive. rewrite Hs. done.
Qed.


End client_spec.
End client_spec.

(** ** The client on the reference implementation *)

Module client_examples.
Import client reference client_spec.

Definition alice : init_args :=
  {| _nickname := "alice"; _my_version := "1.0"; _oldest_supported := "0.9";
     _app_versions := ∅; registerReference_stub := "pb://stub@here/stub";
     RIStubClient_remote_name := "RIStubClient.tahoe.allmydata.com" |}.

(** A client that has just been made. *)
Definition start : state := (__init__ alice, quiet).

(** Two storage servers, behind the tubs [aaaa] and [bb], and their
    unsigned announcements. *)
Definition recA : pyval :=
  common.v1_ann_d "pb://aaaa@hostA:1/s" "storage" "RIStorageServer" "ann" "1.0" "0.9".
Definition recB : pyval :=
  common.v1_ann_d "pb://bb@hostB:1/s" "storage" "RIStorageServer" "bob" "1.0" "0.9".
Definition msgA : string := Eval vm_compute in write recA.
Definition msgB : string := Eval vm_compute in write recB.
Definition annA : pyval := PyList [PyStr msgA; PyNone; PyNone].
Definition annB : pyval := PyList [PyStr msgB; PyNone; PyNone].
Definition kA : string * string := ("storage", "aaaa")%string.
Definition kB : string * string := ("storage", "bb")%string.

(** The two hashes on values whose hashes under CPython 2.7 are on
    record, and the slots of the two servers in a table of eight. *)
Example string_hash_known :
  string_hash "a" = 12416037344 ∧ string_hash "abc" = 1453079729188098211.
Proof. split; reflexivity. Qed.

Example tuplehash_known :
  tuplehash [] = 3527539 ∧ tuplehash [1; 2] = 3713081631934410656.
Proof. split; reflexivity. Qed.

Example slots_of_the_servers : pair_slot kA = 7 ∧ pair_slot kB = 5.
Proof. split; vm_compute; reflexivity. Qed.

(** The client once callback 0 has subscribed to storage and a batch
    has arrived, whatever the order of the hash tables is. *)
Definition arrived (RT : PyRuntime) (batch : list pyval) : state :=
  run_all [Op_subscribe_to "storage" 0%nat [] []; Op_remote_announce_v2 batch] start.

(** What callback 1 is sent when it subscribes to storage after that. *)
Definition late_subscriber (RT : PyRuntime) (batch : list pyval) : list call :=
  let st := arrived RT batch in
  drop (length (eventual_queue st.2))
    (eventual_queue (exec (subscribe_to "storage" 1%nat [] []) st).2).

Definition callA : call := Call 1%nat [PyStr "aaaa"; recA] [].
Definition callB : call := Call 1%nat [PyStr "bb"; recB] [].

Lemma late_subscriber_replay (RT : PyRuntime) batch :
  late_subscriber RT batch
  = replay (py.iter_table (_current_announcements (arrived RT batch).1))
      "storage" 1%nat.
Proof.
  unfold late_subscriber.
  destruct (subscribe_to_effect (arrived RT batch) "storage" 1%nat [] [])
    as (_ & _ & _ & _ & ->).
  by rewrite drop_app_length.
Qed.

(** A table with the two servers is iterated in the order of their two
    slots, whichever was put in first. *)
Lemma iter_table_two (RT : PyRuntime) (d : gmap (string * string) entry) eA eB :
  map_to_list d = [(kA, eA); (kB, eB)] →
  py.iter_table d
  = if decide (pair_slot kA ≤ pair_slot kB) then [(kA, eA); (kB, eB)]
    else [(kB, eB); (kA, eA)].
Proof.
  intros Hd. unfold py.iter_table. rewrite Hd. cbn. unfold by_slot. simpl.
  destruct (decide (pair_slot kA ≤ pair_slot kB)); reflexivity.
Qed.

Lemma arrived_AB (RT : PyRuntime) :
  map_to_list (_current_announcements (arrived RT [annA; annB]).1)
  = [(kA, (recA, None, time_time 0%nat)); (kB, (recB, None, time_time 1%nat))].
Proof. vm_compute. reflexivity. Qed.

Lemma arrived_BA (RT : PyRuntime) :
  map_to_list (_current_announcements (arrived RT [annB; annA]).1)
  = [(kA, (recA, None, time_time 1%nat)); (kB, (recB, None, time_time 0%nat))].
Proof. vm_compute. reflexivity. Qed.

(** C4, as stated, fails. With the hashes of CPython 2.7 the server
    that arrived first is replayed second: its index is in slot 7 of the
    table and the index of the other in slot 5. And no placing of the
    indices by their hashes makes the replay follow the arrival for both
    orders in which the two servers can arrive: the table they leave has
    the same indices either way. *)
Lemma replay_not_in_arrival_order :
  late_subscriber runtime [annA; annB] = [callB; callA]
  ∧ ¬ ∃ RT : PyRuntime,
        late_subscriber RT [annA; annB] = [callA; callB]
        ∧ late_subscriber RT [annB; annA] = [callB; callA].
Proof.
  split.
  - vm_compute. reflexivity.
  - intros (RT & H1 & H2).
    rewrite late_subscriber_replay, (iter_table_two _ _ _ _ (arrived_AB RT)) in H1.
    rewrite late_subscriber_replay, (iter_table_two _ _ _ _ (arrived_BA RT)) in H2.
    destruct (decide (pair_slot kA ≤ pair_slot kB)); simpl in *; discriminate.
Qed.

(** The client with callback 0 subscribed to storage. *)
Definition subscribed : state :=
  run_all [Op_subscribe_to "storage" 0%nat [] []] start.

(** One announcement handed over twice: callback 0 is told once. *)
Example told_once :
  eventual_queue
    (exec (got_announcements [annA]) (exec (got_announcements [annA]) subscribed)).2
  = [Call 0%nat [PyStr "aaaa"; recA] []].
Proof. vm_compute. reflexivity. Qed.


(** The announcement of [bb] under a key, with a signature that the key
    rejects, and with a signature of a version that is not [v0]. *)
Definition tampered : pyval :=
  PyList [PyStr msgB; PyStr "v0-00"; PyStr "v0-766b3a736563726574"].
Definition from_the_future : pyval :=
  PyList [PyStr msgB; PyStr "v1-00"; PyStr "v0-766b3a736563726574"].

(** C1 fails on the code for [UnknownKeyError]. A batch of the tampered
    announcement and a good one is gone through to its end, and the good
    one reaches the subscriber. A batch of an announcement signed under
    an unknown version and the same good one stops at the first: the
    exception leaves [got_announcements], the good announcement is
    neither stored nor told to the subscriber. *)
Theorem unknown_key_version_stops_the_batch :
  common.unsign tampered = Raise BadSignatureError
  ∧ outcome (got_announcements [tampered; annA]) subscribed = Ok tt
  ∧ eventual_queue (exec (got_announcements [tampered; annA]) subscribed).2
    = [Call 0%nat [PyStr "aaaa"; recA] []]
  ∧ common.unsign from_the_future = Raise UnknownKeyError
  ∧ outcome (got_announcements [from_the_future; annA]) subscribed
    = Raise UnknownKeyError
  ∧ eventual_queue (exec (got_announcements [from_the_future; annA]) subscribed).2
    = []
  ∧ map_to_list
      (_current_announcements
         (exec (got_announcements [from_the_future; annA]) subscribed).1)
    = [].
Proof. split_and!; vm_compute; reflexivity. Qed.

(** A legacy batch with one tuple twice. *)
Definition tupleA : common.ann_v1 :=
  ("pb://aaaa@hostA:1/s", "storage", "RIStorageServer", "ann", "1.0", "0.9")%string.
Definition tupleB : common.ann_v1 :=
  ("pb://bb@hostB:1/s", "storage", "RIStorageServer", "bob", "1.0", "0.9")%string.
Definition wireA : string :=
  Eval vm_compute in write (PyList [PyStr msgA; PyNone; PyNone]).
Definition wireB : string :=
  Eval vm_compute in write (PyList [PyStr msgB; PyNone; PyNone]).

(** An [original] that keeps what its [got_announcements] is handed, as
    the arguments of callback 0. Of the two announcements of the batch
    below, the second to arrive has the lower slot, and no other shares
    it: it is handed over first. *)
Definition recorder : original :=
  {| original_log := log;
     original_got_announcements := λ announcements, eventually 0%nat announcements [] |}.

Lemma remote_announce_as_set_witness :
  let batch := [tupleA; tupleB; tupleA] in
  let handed := py.iter_set (list_to_set [wireA; wireB; wireA]) in
  comprehension common.convert_announcement_v1_to_v2 batch = Ok [wireA; wireB; wireA]
  ∧ ClientAdapter_v1_remote_announce recorder batch subscribed
    = (log (Log_received_v1 3);; eventually 0%nat (PyStr <$> handed) []) subscribed
  ∧ NoDup handed
  ∧ handed ≡ₚ [wireB; wireA]
  ∧ (length handed ≤ 3)%nat
  ∧ str_slot wireB < str_slot wireA
  ∧ handed = [wireB; wireA].
Proof.
  assert (comprehension common.convert_announcement_v1_to_v2 [tupleA; tupleB; tupleA]
          = Ok [wireA; wireB; wireA]) as Hc by (vm_compute; reflexivity).
  destruct (remote_announce_as_set [tupleA; tupleB; tupleA] _ subscribed Hc)
    as (Hany & _ & Hnodup & _ & Hperm & Hlen & _).
  split_and!.
  - exact Hc.
  - exact (Hany recorder).
  - exact Hnodup.
  - assert (remove_dups [wireA; wireB; wireA] = [wireB; wireA]) as <-
      by (vm_compute; reflexivity).
    exact Hperm.
  - exact Hlen.
  - by vm_compute.
  - vm_compute. reflexivity.
Defined.


Lemma legacy_batch_is_refused_witness :
  outcome (remote_announce [tupleA; tupleB]) subscribed = Raise ValueError
  ∧ eventual_queue (exec (remote_announce [tupleA; tupleB]) subscribed).2 = [].
Proof.
  destruct (legacy_batch_is_refused [tupleA; tupleB] [wireA; wireB] subscribed)
    as (Hr & _ & Hq).
  - vm_compute. reflexivity.
  - done.
  - repeat constructor; vm_compute; discriminate.
  - split; [exact Hr | exact Hq].
Defined.


(** An introducer that has the version needed, and one that has not. *)
Definition v1_introducer : publisher :=
  Publisher {["http://allmydata.org/tahoe/protocols/introducer/v1"%string]}.
Definition old_introducer : publisher := Publisher ∅.

(** The client with a subscription to storage and a storage service of
    its own to publish, before any connection; then on a connection. *)
Definition with_storage : state :=
  run_all [Op_subscribe_to "storage" 0%nat [] [];
           Op_publish (PyStr "pb://me@here:1/storage") "storage" "RIStorageServer"
             None] start.

Definition connected : state :=
  exec (_got_versioned_introducer v1_introducer) with_storage.

Lemma v1_introducer_has_it :
  "http://allmydata.org/tahoe/protocols/introducer/v1"%string ∈ version v1_introducer.
Proof. unfold v1_introducer. simpl. by apply elem_of_singleton. Qed.

Lemma connect_resynchronises_witness :
  outcome (_got_versioned_introducer v1_introducer) with_storage = Ok tt
  ∧ connected_to_introducer connected.1 = true
  ∧ _subscriptions connected.1
    = _subscribed_service_names with_storage.1 ∪ _subscriptions with_storage.1
  ∧ length (remote_calls connected.2) = 2%nat.
Proof.
  destruct (connect_resynchronises v1_introducer with_storage v1_introducer_has_it)
    as (Hr & _ & Hc & Hcalls & _ & _ & _ & Hs & _).
  split_and!; [exact Hr | exact Hc | exact Hs |].
  unfold connected. rewrite Hcalls. vm_compute. reflexivity.
Defined.

Lemma reconnect_resends_everything_witness :
  _subscriptions
    (exec (_got_versioned_introducer v1_introducer) (exec _disconnected connected)).1
  = _subscribed_service_names connected.1
  ∧ length
      (remote_calls
         (exec (_got_versioned_introducer v1_introducer)
            (exec _disconnected connected)).2)
    = 4%nat.
Proof.
  destruct (reconnect_resends_everything v1_introducer connected v1_introducer_has_it)
    as (Hcalls & _ & _ & Hs & _).
  split; [exact Hs|]. rewrite Hcalls. vm_compute. reflexivity.
Defined.

Lemma old_introducer_is_recorded_witness :
  outcome (_got_versioned_introducer old_introducer) with_storage
  = Raise InsufficientVersionError
  ∧ _introducer_error
      (exec (_got_introducer_deferred (Ok old_introducer)) with_storage).1
    = Some InsufficientVersionError
  ∧ connected_to_introducer
      (exec (_got_introducer_deferred (Ok old_introducer)) with_storage).1
    = false.
Proof.
  destruct (old_introducer_is_recorded old_introducer with_storage)
    as (Hraise & Hrecorded & _).
  - apply not_elem_of_empty.
  - unfold outcome, exec. rewrite Hraise, Hrecorded. by split_and!.
Defined.

Lemma subscriptions_stay_in_step_witness :
  in_step
    (run_all [Op_got_versioned_introducer v1_introducer;
              Op_subscribe_to "helper" 1%nat [] [];
              Op_disconnected;
              Op_subscribe_to "stats" 2%nat [] [];
              Op_got_versioned_introducer v1_introducer] with_storage).1.
Proof.
  destruct (subscriptions_stay_in_step
              [Op_got_versioned_introducer v1_introducer;
               Op_subscribe_to "helper" 1%nat [] [];
               Op_disconnected;
               Op_subscribe_to "stats" 2%nat [] [];
               Op_got_versioned_introducer v1_introducer] with_storage)
    as [Hend _].
  - by vm_compute.
  - exact Hend.
Defined.

Lemma connected_in_step : in_step connected.1.
Proof.
  apply (run_in_step (Op_got_versioned_introducer v1_introducer)). by vm_compute.
Qed.

Lemma subscribe_to_requests_witness :
  remote_calls (exec (subscribe_to "storage" 1%nat [] []) connected).2
  = remote_calls connected.2
  ∧ remote_calls (exec (subscribe_to "helper" 1%nat [] []) connected).2
    = remote_calls connected.2
      ++ [Remote_subscribe_v2 "helper" (_my_subscriber_info connected.1)].
Proof.
  split.
  - destruct (subscribe_to_requests "storage" 1%nat [] [] connected connected_in_step)
      as (_ & Hcalls).
    change (_publisher connected.1) with (Some v1_introducer) in Hcalls.
    destruct Hcalls as (-> & _).
    rewrite decide_True; [apply app_nil_r|].
    apply (bool_decide_unpack _). by vm_compute.
  - destruct (subscribe_to_requests "helper" 1%nat [] [] connected connected_in_step)
      as (_ & Hcalls).
    change (_publisher connected.1) with (Some v1_introducer) in Hcalls.
    destruct Hcalls as (-> & _).
    rewrite decide_False; [done|].
    apply (bool_decide_unpack _). by vm_compute.
Defined.

Lemma changed_record_is_stored_and_told_witness :
  eventual_queue (exec (_process_announcement recA None) subscribed).2
  = [Call 0%nat [PyStr "aaaa"; recA] []]
  ∧ size (_current_announcements (exec (_process_announcement recA None) subscribed).1)
    = 1%nat.
Proof.
  destruct (changed_record_is_stored_and_told subscribed recA None kA)
    as (_ & _ & Hq & _ & _ & Hsize).
  - vm_compute. reflexivity.
  - apply (bool_decide_unpack _). by vm_compute.
  - eexists. vm_compute. reflexivity.
  - apply (bool_decide_unpack _). by vm_compute.
  - split; [rewrite Hq; vm_compute; reflexivity|].
    rewrite Hsize. vm_compute. reflexivity.
Defined.

Lemma unwanted_service_is_forgotten_witness :
  outcome (_process_announcement recA None) start = Ok tt
  ∧ eventual_queue
      (exec (subscribe_to "storage" 0%nat [] [])
         (exec (_process_announcement recA None) start)).2
    = eventual_queue (exec (subscribe_to "storage" 0%nat [] []) start).2.
Proof.
  destruct (unwanted_service_is_forgotten start recA None "storage")
    as (Hr & _ & _ & _ & _ & _ & Hlater).
  - vm_compute. reflexivity.
  - apply not_elem_of_empty.
  - split; [exact Hr | apply Hlater].
Defined.

(** An announcement for storage whose locator is not a [pb://] one. *)
Definition recBad : pyval :=
  common.v1_ann_d "http://hostC:1/s" "storage" "RIStorageServer" "cy" "1.0" "0.9".
Definition msgBad : string := Eval vm_compute in write recBad.
Definition annBad : pyval := PyList [PyStr msgBad; PyNone; PyNone].

Lemma batch_stops_at_first_exception_witness :
  got_announcements [annB; from_the_future; annA] subscribed
  = (exec (got_announcements [annB]) subscribed, Raise UnknownKeyError)
  ∧ outcome (got_announcements [annB; annBad; annA]) subscribed
    = Raise AssertionError.
Proof.
  destruct (batch_stops_at_first_exception [annB] [annA] from_the_future subscribed)
    as (Hunsign & _); [vm_compute; reflexivity|].
  destruct (batch_stops_at_first_exception [annB] [annA] annBad subscribed)
    as (_ & _ & Hfurl); [vm_compute; reflexivity|].
  split.
  - apply Hunsign; [vm_compute; reflexivity | done].
  - apply (Hfurl recBad "storage"%string "http://hostC:1/s"%string).
    + vm_compute. reflexivity.
    + reflexivity.
    + apply (bool_decide_unpack _). by vm_compute.
    + eexists. reflexivity.
    + reflexivity.
    + reflexivity.
Defined.

(** The client once a [subscribe_v2] has been refused and the fallback
    has registered the stub client. *)
Definition fallen_back : state :=
  exec (_subscribe_handle_v1 Violation "storage") connected.

Lemma stub_client_is_registered_once_witness :
  _stub_client_furl
    (run_all [Op_subscribe_handle_v1 NameError "helper"; Op_publish_stub_client;
              Op_disconnected; Op_subscribe_handle_v1 Violation "stats"]
       fallen_back).1
  = Some "pb://stub@here/stub"%string.
Proof. by apply stub_client_is_registered_once. Defined.

(** What alice signs when she publishes her storage server, its
    serialisation, and the announcement under the key [secret]. *)
Definition alice_record : pyval :=
  published_record (__init__ alice) (PyStr "pb://me@here:1/storage") "storage"
    "RIStorageServer".
Definition alice_msg : string := Eval vm_compute in write alice_record.
Definition alice_wire : string :=
  Eval vm_compute in write (signed alice_msg (Some "secret"%string)).
Definition alice_plain_wire : string :=
  Eval vm_compute in write (signed alice_msg None).

Lemma alice_reads_back : common_spec.json_reads_back alice_record alice_msg.
Proof. repeat split; vm_compute; reflexivity. Qed.

Lemma publish_falls_back_to_v1_witness :
  create_announcement start.1 (PyStr "pb://me@here:1/storage") "storage"
    "RIStorageServer" (Some "secret"%string) = Ok alice_wire
  ∧ common.convert_announcement_v2_to_v1 alice_wire
    = Ok ("pb://me@here:1/storage", "storage", "RIStorageServer", "alice", "1.0",
          "0.9")%string.
Proof.
  destruct (publish_falls_back_to_v1 Violation alice_wire start) as (_ & _ & Htuple).
  apply (Htuple "pb://me@here:1/storage" "storage" "RIStorageServer"
           (Some "secret") alice_msg alice_wire)%string; try reflexivity.
  - exact alice_reads_back.
  - repeat split; vm_compute; reflexivity.
Defined.

Lemma published_triple_is_delivered_witness :
  create_announcement (__init__ alice) (PyStr "pb://me@here:1/storage") "storage"
    "RIStorageServer" (Some "secret"%string) = Ok alice_wire
  ∧ common.unsign (signed alice_msg (Some "secret"%string))
    = Ok (alice_record, Some "766b3a736563726574"%string)
  ∧ eventual_queue
      (exec (got_announcements [signed alice_msg (Some "secret"%string)]) subscribed).2
    = [Call 0%nat [PyStr "766b3a736563726574"; alice_record] []]
  ∧ outcome (got_announcements [PyStr alice_wire]) subscribed = Raise ValueError
  ∧ eventual_queue (exec (got_announcements [PyStr alice_wire]) subscribed).2 = [].
Proof.
  destruct (published_triple_is_delivered (EC:=ecdsa) (__init__ alice)
              "pb://me@here:1/storage" "storage" "RIStorageServer"
              (Some "secret"%string) alice_msg alice_wire)
    as (_ & Hwire & Hread & Hdelivered & Hstring).
  - exact alice_reads_back.
  - reflexivity.
  - repeat split; vm_compute; reflexivity.
  - intros k [= <-]. repeat split; vm_compute; reflexivity.
  - split_and!; [exact Hwire | exact Hread | | |].
    + destruct (Hdelivered subscribed ("storage", "766b3a736563726574")%string)
        as (_ & _ & _ & ->).
      * vm_compute. reflexivity.
      * apply (bool_decide_unpack _). by vm_compute.
      * apply (bool_decide_unpack _). by vm_compute.
      * vm_compute. reflexivity.
    + destruct Hstring as [_ Hst]; [by vm_compute|].
      by destruct (Hst subscribed) as (-> & _).
    + destruct Hstring as [_ Hst]; [by vm_compute|].
      by destruct (Hst subscribed) as (_ & _ & _ & ->).
Defined.

(** A fallback that comes when the connection is gone: the refusal of a
    [subscribe_v2] or of a [publish_v2] reaches the client after
    [_disconnected]. The call is counted and raises [AttributeError];
    nothing is sent and no stub client is registered. *)
Example fallback_after_disconnection :
  let st := exec _disconnected connected in
  _subscribe_handle_v1 Violation "storage" st
  = ((set_debug_outstanding (_debug_outstanding st.1 + 1) st.1, st.2),
     Raise AttributeError)
  ∧ _stub_client_furl (exec (_subscribe_handle_v1 Violation "storage") st).1 = None
  ∧ outcome (_handle_v1_publisher NameError alice_wire) st = Raise AttributeError
  ∧ remote_calls (exec (_handle_v1_publisher NameError alice_wire) st).2
    = remote_calls st.2
  ∧ _debug_outstanding (exec (_handle_v1_publisher NameError alice_wire) st).1
    = _debug_outstanding st.1 + 1
  ∧ strandings [Op_disconnected; Op_subscribe_handle_v1 Violation "storage";
                Op_handle_v1_publisher NameError alice_wire] connected
    = 2%nat.
Proof. split_and!; vm_compute; reflexivity. Qed.

End client_examples.
